(** * Screenshot baseline comparison of the browser-automation scripts

    A shallow embedding of [compareScreenshots] and of the baseline
    workflow of [main] in [src/commentUpvote.mjs] (the post-submission
    script, lines 228-510; the other three scripts carry a byte-identical
    copy of [compareScreenshots]).

    JavaScript numbers are IEEE-754 binary64 values: they are modelled by
    Rocq's primitive floats, so every arithmetic step below rounds exactly
    as the script does.  The file system is a finite map from paths to
    file contents; promises are awaited one after the other, so an [async]
    function is a state transformer over the world that either rejects
    with an [Error] or fulfils with a value.

    The rest of the file follows the four scripts further: the helpers
    that drive the browser hand command lines to a shell, which is a
    parameter like the two image libraries, and a run is observed
    through the files it leaves, the lines it prints and the commands
    it has issued, in order. *)

From Stdlib Require Import ZArith Floats Strings.Byte Bool Lia.
From stdpp Require Import base option list strings gmap.

Set Warnings "-inexact-float".

(** ** Values *)

(** A Node [Buffer]. *)
Definition Buffer : Type := list byte.

(** A thrown JavaScript [Error], identified by its message. *)
Record Error : Type := mkError { message : string }.

(** What pngjs' [PNG.sync.read] returns: the fields the script reads. *)
Record PNG : Type := mkPNG {
  width : float;
  height : float;
  data : Buffer
}.

(** A template literal handed to [log]: text interleaved with
    interpolated numbers. *)
Inductive Part : Type :=
| Text (s : string)
| Number (x : float).

Definition Message : Type := list Part.

(** The part of the outside world the script touches: the files under
    the working directory and the lines printed by [console.log]. *)
Record World : Type := mkWorld {
  files : gmap string Buffer;
  console : list Message
}.

(** ** Awaited computations *)

Definition Async (A : Type) : Type := World -> (Error + A) * World.

Definition resolve {A} (a : A) : Async A := fun w => (inr a, w).

Definition reject {A} (e : Error) : Async A := fun w => (inl e, w).

Definition await {A B} (c : Async A) (k : A -> Async B) : Async B :=
  fun w =>
    match c w with
    | (inl e, w') => (inl e, w')
    | (inr a, w') => k a w'
    end.

(** A synchronous call that may throw. *)
Definition try_sync {A} (r : Error + A) : Async A := fun w => (r, w).

Declare Scope async_scope.
Delimit Scope async_scope with async.
Notation "x <- c ;; k" := (await c (fun x => k))
  (at level 100, c at next level, right associativity) : async_scope.
Notation "c ;; k" := (await c (fun _ => k))
  (at level 100, right associativity) : async_scope.
Local Open Scope async_scope.

(** ** Node primitives *)

(** [log(message)]: one more line on the console. *)
Definition log (m : Message) : Async unit :=
  fun w => (inr tt, mkWorld (files w) (console w ++ [m])).

Definition ENOENT (path : string) : Error :=
  mkError ("ENOENT: no such file or directory, open '" +:+ path +:+ "'").

(** [fs/promises.readFile(path)] *)
Definition readFile (path : string) : Async Buffer :=
  fun w =>
    match files w !! path with
    | Some b => (inr b, w)
    | None => (inl (ENOENT path), w)
    end.

(** [fs/promises.writeFile(path, data)]: creates or replaces the file. *)
Definition writeFile (path : string) (b : Buffer) : Async unit :=
  fun w => (inr tt, mkWorld (<[path := b]> (files w)) (console w)).

(** [fs.existsSync(path)] *)
Definition existsSync (path : string) : Async bool :=
  fun w => (inr (bool_decide (is_Some (files w !! path))), w).

(** [String.prototype.startsWith] *)
Definition startsWith (s p : string) : bool := String.prefix p s.

(** ** Observations used in the statements *)

(** The path [compareScreenshots] opens for a screenshot name
    (the conditional of lines 314 and 315). *)
Definition screenshot_path (name : string) : string :=
  if startsWith name "screenshots/" then name else "screenshots/" +:+ name.

(** The value bound to [similarity] on lines 328-329, as a function of
    the number of mismatched pixels and of the width and height. *)
Definition similarity_of (mismatchedPixels width height : float) : float :=
  (100 - (mismatchedPixels / (width * height)) * 100)%float.

(** The two lines [compareScreenshots] prints. *)
Definition comparing_line (originalScreenshot currentScreenshot : string) : Message :=
  [Text "Comparing screenshots: "; Text originalScreenshot;
   Text " vs "; Text currentScreenshot].

Definition result_line (similarity : float) : Message :=
  [Text "Screenshot comparison result: "; Number similarity; Text "% similar"].

(** The similarity percentage of the last comparison, read back from the
    console: the only line made of a number between two texts. *)
Definition logged_similarity (w : World) : option float :=
  match last (console w) with
  | Some [Text _; Number s; Text _] => Some s
  | _ => None
  end.

(** Lines 397 and 445: the names of the two screenshots of a run, as
    functions of [new Date().toISOString().replace(/:/g, '-')]. *)
Definition screenshotNameInitial (timestamp : string) : string :=
  "screenshot_initial_" +:+ timestamp +:+ ".png".

Definition screenshotNameFinal (timestamp : string) : string :=
  "screenshot_final_" +:+ timestamp +:+ ".png".

(** The two baselines [main] keeps. *)
Inductive Key : Type := initial | final.

(** The first argument of [compareScreenshots] on lines 406 and 455. *)
Definition baseline_name (k : Key) : string :=
  match k with
  | initial => "baseline_initial.png"
  | final => "baseline_final.png"
  end.

(** The file tested on lines 401 and 450 and written on lines 412 and 461. *)
Definition baseline_path (k : Key) : string := "screenshots/" +:+ baseline_name k.

(** The screenshot taken for a key, and the file [takeScreenshot] puts it in. *)
Definition screenshot_name (k : Key) (timestamp : string) : string :=
  match k with
  | initial => screenshotNameInitial timestamp
  | final => screenshotNameFinal timestamp
  end.

Definition screenshot_file (k : Key) (timestamp : string) : string :=
  "screenshots/" +:+ screenshot_name k timestamp.

(** The second argument of [compareScreenshots] on lines 406 and 455:
    the bare name for the initial screenshot, the full path for the
    final one. *)
Definition compared_name (k : Key) (timestamp : string) : string :=
  match k with
  | initial => screenshotNameInitial timestamp
  | final => "screenshots/" +:+ screenshotNameFinal timestamp
  end.

(** The line printed on lines 413 and 462, and the error thrown on
    lines 408 and 457. *)
Definition saved_line (k : Key) : Message :=
  match k with
  | initial => [Text "Saved initial screenshot as baseline."]
  | final => [Text "Saved final screenshot as baseline."]
  end.

Definition comparison_failed (k : Key) : Error :=
  match k with
  | initial =>
      mkError "Initial screenshot comparison failed. The page might not have loaded correctly."
  | final =>
      mkError "Final screenshot comparison failed. The post might not have been submitted correctly."
  end.

(** ** The comparison *)

Section Comparator.

(** The two npm dependencies are not part of the repository; the
    development is parametric in them.  [pixelmatch img1 img2 width
    height threshold] stands for the call
    [pixelmatch(img1, img2, diff.data, width, height, {threshold})],
    where [diff] is a fresh [PNG] of that width and height which the
    script never reads afterwards. *)
Variable PNG_sync_read : Buffer -> Error + PNG.
Variable pixelmatch : Buffer -> Buffer -> float -> float -> float -> Error + float.

(** [compareScreenshots], lines 312-332. *)
Definition compareScreenshots (originalScreenshot currentScreenshot : string) : Async bool :=
  log [Text "Comparing screenshots: "; Text originalScreenshot;
       Text " vs "; Text currentScreenshot] ;;
  originalBuffer <-
    readFile (if startsWith originalScreenshot "screenshots/"
              then originalScreenshot
              else "screenshots/" +:+ originalScreenshot) ;;
  currentBuffer <-
    readFile (if startsWith currentScreenshot "screenshots/"
              then currentScreenshot
              else "screenshots/" +:+ currentScreenshot) ;;
  originalPng <- try_sync (PNG_sync_read originalBuffer) ;;
  currentPng <- try_sync (PNG_sync_read currentBuffer) ;;
  let width := width originalPng in
  let height := height originalPng in
  mismatchedPixels <-
    try_sync (pixelmatch (data originalPng) (data currentPng) width height 0.1%float) ;;
  let mismatchPercentage := ((mismatchedPixels / (width * height)) * 100)%float in
  let similarity := (100 - mismatchPercentage)%float in
  log [Text "Screenshot comparison result: "; Number similarity; Text "% similar"] ;;
  resolve (90 <=? similarity)%float.

(** ** The baseline workflow of [main] *)

(** Lines 400-414: the check of the initial screenshot. *)
Definition main_initial_baseline (screenshotNameInitial : string) : Async unit :=
  baselineInitialExists <- existsSync "screenshots/baseline_initial.png" ;;
  if (baselineInitialExists : bool) then
    log [Text "Comparing initial screenshot with baseline initial screenshot..."] ;;
    isSimilarInitial <- compareScreenshots "baseline_initial.png" screenshotNameInitial ;;
    if negb isSimilarInitial then
      reject (mkError "Initial screenshot comparison failed. The page might not have loaded correctly.")
    else resolve tt
  else
    shot <- readFile ("screenshots/" +:+ screenshotNameInitial) ;;
    writeFile "screenshots/baseline_initial.png" shot ;;
    log [Text "Saved initial screenshot as baseline."].

(** Lines 449-463: the check of the final screenshot. *)
Definition main_final_baseline (screenshotNameFinal : string) : Async unit :=
  baselineFinalExists <- existsSync "screenshots/baseline_final.png" ;;
  if (baselineFinalExists : bool) then
    log [Text "Comparing final screenshot with baseline final screenshot..."] ;;
    isSimilarFinal <-
      compareScreenshots "baseline_final.png" ("screenshots/" +:+ screenshotNameFinal) ;;
    if negb isSimilarFinal then
      reject (mkError "Final screenshot comparison failed. The post might not have been submitted correctly.")
    else resolve tt
  else
    shot <- readFile ("screenshots/" +:+ screenshotNameFinal) ;;
    writeFile "screenshots/baseline_final.png" shot ;;
    log [Text "Saved final screenshot as baseline."].

(** What a call of [compareScreenshots] in world [w] comes to: the error
    it rejects with, or the similarity it computes.  The order of the
    cases is the order in which the script reads, decodes and compares. *)
Definition compare_outcome (w : World) (originalScreenshot currentScreenshot : string)
  : Error + float :=
  match files w !! screenshot_path originalScreenshot with
  | None => inl (ENOENT (screenshot_path originalScreenshot))
  | Some originalBuffer =>
    match files w !! screenshot_path currentScreenshot with
    | None => inl (ENOENT (screenshot_path currentScreenshot))
    | Some currentBuffer =>
      match PNG_sync_read originalBuffer with
      | inl e => inl e
      | inr originalPng =>
        match PNG_sync_read currentBuffer with
        | inl e => inl e
        | inr currentPng =>
          match pixelmatch (data originalPng) (data currentPng)
                  (width originalPng) (height originalPng) 0.1%float with
          | inl e => inl e
          | inr mismatchedPixels =>
              inr (similarity_of mismatchedPixels (width originalPng) (height originalPng))
          end
        end
      end
    end
  end.

(** An input with unreadable or corrupt image data, and the error the
    first failing step raises: both files are read before either is
    decoded, and the baseline is decoded first. *)
Inductive undecodable (w : World) (originalScreenshot currentScreenshot : string)
  : Error -> Prop :=
| original_unreadable :
    files w !! screenshot_path originalScreenshot = None ->
    undecodable w originalScreenshot currentScreenshot
      (ENOENT (screenshot_path originalScreenshot))
| current_unreadable originalBuffer :
    files w !! screenshot_path originalScreenshot = Some originalBuffer ->
    files w !! screenshot_path currentScreenshot = None ->
    undecodable w originalScreenshot currentScreenshot
      (ENOENT (screenshot_path currentScreenshot))
| original_corrupt originalBuffer currentBuffer e :
    files w !! screenshot_path originalScreenshot = Some originalBuffer ->
    files w !! screenshot_path currentScreenshot = Some currentBuffer ->
    PNG_sync_read originalBuffer = inl e ->
    undecodable w originalScreenshot currentScreenshot e
| current_corrupt originalBuffer currentBuffer originalPng e :
    files w !! screenshot_path originalScreenshot = Some originalBuffer ->
    files w !! screenshot_path currentScreenshot = Some currentBuffer ->
    PNG_sync_read originalBuffer = inr originalPng ->
    PNG_sync_read currentBuffer = inl e ->
    undecodable w originalScreenshot currentScreenshot e.

(** One operation of the script on the world: a console line, a file
    written, a comparison, or one of the two baseline checks. *)
Inductive script_step : World -> World -> Prop :=
| step_log m w : script_step w (log m w).2
| step_writeFile path b w : script_step w (writeFile path b w).2
| step_readFile path w : script_step w (readFile path w).2
| step_existsSync path w : script_step w (existsSync path w).2
| step_compare o c w : script_step w (compareScreenshots o c w).2
| step_initial name w : script_step w (main_initial_baseline name w).2
| step_final name w : script_step w (main_final_baseline name w).2.

(** The baseline check of a key. *)
Definition main_baseline (k : Key) (timestamp : string) : Async unit :=
  match k with
  | initial => main_initial_baseline (screenshotNameInitial timestamp)
  | final => main_final_baseline (screenshotNameFinal timestamp)
  end.

End Comparator.

(** ** A reference instance of the two dependencies

    Used to run the embedding on concrete images. *)

(** The number held by a byte of a [Buffer]. *)
Definition byte_to_number (b : byte) : float :=
  PrimFloat.of_uint63 (Uint63.of_Z (Z.of_N (Byte.to_N b))).

(** The length of a [Buffer] as a number. *)
Definition buffer_length (b : Buffer) : float :=
  PrimFloat.of_uint63 (Uint63.of_Z (Z.of_nat (length b))).

(** Modelled from the spec: pngjs is an npm dependency and its decoder is
    not under src/; the spec only says that an Image is a width, a height
    and a row-major RGBA pixel buffer, and that unreadable or corrupt
    data fails.  The stand-in reads an uncompressed container, one byte
    of width, one byte of height, then the pixels, and rejects anything
    whose pixel buffer does not hold width * height * 4 bytes. *)
Definition PNG_sync_read_model (file : Buffer) : Error + PNG :=
  match file with
  | w :: h :: pixels =>
      if (buffer_length pixels =? byte_to_number w * byte_to_number h * 4)%float
      then inr (mkPNG (byte_to_number w) (byte_to_number h) pixels)
      else inl (mkError "unrecognised content at end of stream")
  | _ => inl (mkError "Invalid file signature")
  end.

(** One RGBA pixel differs when some channel differs by more than
    [threshold] on the normalized [0,1] scale. *)
Definition channel_differs (threshold : float) (c1 c2 : byte) : bool :=
  (threshold <? abs (byte_to_number c1 - byte_to_number c2) / 255)%float.

Fixpoint count_mismatches (threshold : float) (img1 img2 : Buffer) (diff : float) : float :=
  match img1, img2 with
  | r1 :: g1 :: b1 :: a1 :: rest1, r2 :: g2 :: b2 :: a2 :: rest2 =>
      count_mismatches threshold rest1 rest2
        (if channel_differs threshold r1 r2 || channel_differs threshold g1 g2
            || channel_differs threshold b1 b2 || channel_differs threshold a1 a2
         then diff + 1 else diff)%float
  | _, _ => diff
  end.

(** Modelled from the spec: pixelmatch is an npm dependency and is not
    under src/.  Following the spec's words, a pixel is mismatched when
    the candidate differs from the baseline by more than the per-channel
    threshold on a normalized [0,1] scale, and the mismatches are
    counted.  As the library does, the stand-in throws when the two
    buffers differ in length or do not hold width * height * 4 bytes. *)
Definition pixelmatch_model (img1 img2 : Buffer) (width height threshold : float) : Error + float :=
  if negb (buffer_length img1 =? buffer_length img2)%float
  then inl (mkError "Image sizes do not match.")
  else if negb (buffer_length img1 =? width * height * 4)%float
  then inl (mkError "Image data size does not match width/height.")
  else inr (count_mismatches threshold img1 img2 0%float).

(** Concrete pixels and images. *)
Definition white : Buffer := [xff; xff; xff; xff]%byte.
Definition black : Buffer := [x00; x00; x00; xff]%byte.

(** The stand-in container of a [w] by [h] image. *)
Definition encode (w h : byte) (pixels : Buffer) : Buffer := w :: h :: pixels.

Definition white_2x2 : Buffer := (white ++ white ++ white ++ white)%list.
Definition one_black_2x2 : Buffer := (black ++ white ++ white ++ white)%list.

(** A world with the given files and nothing printed yet. *)
Definition empty_console (fs : gmap string Buffer) : World := mkWorld fs [].

(** The result of a computation and what the console then shows. *)
Definition run {A} (c : Async A) (w : World) : (Error + A) * list Message :=
  let r := c w in (r.1, console r.2).

Definition three_white : Buffer := (white ++ white ++ white)%list.
Definition six_white : Buffer := (three_white ++ three_white)%list.

(** The timestamp of the example runs. *)
Definition ts0 : string := "2024-06-24T10-00-00.000Z".

(** A world holding the initial screenshot of a run and, possibly, an
    initial baseline. *)
Definition world_of (baseline : option Buffer) (shot : Buffer) : World :=
  empty_console
    (match baseline with
     | Some b =>
         <[baseline_path initial := b]> (<[screenshot_file initial ts0 := shot]> ∅)
     | None => <[screenshot_file initial ts0 := shot]> ∅
     end).

(** The reference comparison and baseline check. *)
Definition compare_model : string -> string -> Async bool :=
  compareScreenshots PNG_sync_read_model pixelmatch_model.

Definition main_baseline_model : Key -> string -> Async unit :=
  main_baseline PNG_sync_read_model pixelmatch_model.

(** * The rest of the post-submission script

    Lines 228-510 of [src/commentUpvote.mjs] around the two baseline
    checks: the helpers that drive the browser through shell commands,
    and [main] itself. *)

(** ** Delays *)

(** [randomDelay], lines 334-336, as a function of the number that
    [Math.random()] returns. *)
Definition randomDelay (random : float) : float :=
  (random * (1.5 - 0.5) + 0.5)%float.

(** The timer of lines 347: [randomDelay() * 1000] milliseconds. *)
Definition key_delay_ms (random : float) : float :=
  (randomDelay random * 1000)%float.

(** The timers of lines 381 and 442: [Math.random() * 3000 + 7000]. *)
Definition page_delay_ms (random : float) : float :=
  (random * 3000 + 7000)%float.

(** ** Commands and the machine they run on *)

(** What [child_process.exec] resolves to. *)
Record ExecOutput : Type := mkExecOutput { stdout : string; stderr : string }.

(** The world together with the command lines handed to the shell so
    far, oldest first. *)
Record Machine : Type := mkMachine {
  world : World;
  issued : list string
}.

(** An awaited computation that may also run commands. *)
Definition Script (A : Type) : Type := Machine -> (Error + A) * Machine.

Definition finish_with {A} (a : A) : Script A := fun m => (inr a, m).

Definition throw {A} (e : Error) : Script A := fun m => (inl e, m).

Definition and_then {A B} (c : Script A) (k : A -> Script B) : Script B :=
  fun m =>
    match c m with
    | (inl e, m') => (inl e, m')
    | (inr a, m') => k a m'
    end.

(** An [Async] computation run on the world of the machine. *)
Definition lift {A} (c : Async A) : Script A :=
  fun m => let r := c (world m) in (r.1, mkMachine r.2 (issued m)).

(** [try { body } catch (error) { handler }] *)
Definition try_catch {A} (body : Script A) (handler : Error -> Script A) : Script A :=
  fun m =>
    match body m with
    | (inl e, m') => handler e m'
    | (inr a, m') => (inr a, m')
    end.

(** [try { body } finally { finalizer }]: the finalizer runs in every
    case, and its own error, if any, replaces the outcome of the body. *)
Definition try_finally {A} (body : Script A) (finalizer : Script unit) : Script A :=
  fun m =>
    let r := body m in
    match finalizer r.2 with
    | (inl e, m') => (inl e, m')
    | (inr _, m') => (r.1, m')
    end.

Declare Scope script_scope.
Delimit Scope script_scope with script.
Notation "x <- c ;; k" := (and_then c (fun x => k))
  (at level 100, c at next level, right associativity) : script_scope.
Notation "c ;; k" := (and_then c (fun _ => k))
  (at level 100, right associativity) : script_scope.

(** [log(message)] from a script. *)
Definition say (m : Message) : Script unit := lift (log m).

(** [await new Promise(resolve => setTimeout(resolve, ms))]: the model
    has no clock, waiting changes nothing. *)
Definition sleep (ms : float) : Script unit := finish_with tt.

(** [fs/promises.access(path)] *)
Definition access (path : string) : Async unit :=
  fun w =>
    match files w !! path with
    | Some _ => (inr tt, w)
    | None =>
        (inl (mkError ("ENOENT: no such file or directory, access '" +:+ path +:+ "'")), w)
    end.

(** [fs.promises.mkdir('screenshots', { recursive: true })]: directories
    are not part of the file model. *)
Definition mkdir (path : string) : Script unit := finish_with tt.

(** The double quote, for the command lines and messages that hold one. *)
Definition dq : string := String (Ascii.ascii_of_nat 34) EmptyString.

(** [String.prototype.includes] *)
Fixpoint includes (s sub : string) : bool :=
  String.prefix sub s ||
  match s with
  | EmptyString => false
  | String _ s' => includes s' sub
  end.

Definition colon : Ascii.ascii := Ascii.ascii_of_nat 58.

Definition hyphen : Ascii.ascii := Ascii.ascii_of_nat 45.

(** [.replace(/:/g, '-')] *)
Fixpoint replace_colons (s : string) : string :=
  match s with
  | EmptyString => EmptyString
  | String c s' =>
      String (if Ascii.eqb c colon then hyphen else c) (replace_colons s')
  end.

(** The object [main] serialises with [JSON.stringify]. *)
Record Data : Type := mkData { visitedUrl : string; currentTime : string }.

Record Report : Type := mkReport {
  report_success : bool;
  report_message : string;
  report_data : option Data;
  report_error : option string;
  report_stack : option string;
  report_screenshotPaths : list string
}.

(** The command lines of the script. *)
Definition focus_command : string :=
  "xdotool search --onlyvisible --class 'google-chrome' | tail -1 | xargs xdotool windowactivate".

Definition import_command (fullPath : string) : string :=
  "import -window root " +:+ fullPath.

Definition type_command (text : string) : string :=
  "xdotool type " +:+ dq +:+ text +:+ dq.

Definition close_command : string :=
  "xdotool search --onlyvisible --class " +:+ dq +:+ "google-chrome" +:+ dq +:+
  " windowactivate key --clearmodifiers ctrl+w".

Definition chrome_command : string :=
  "google-chrome --new-window https://www.reddit.com/r/memes/submit".

Section PostScript.

Local Open Scope script_scope.

(** The surroundings of the script: the two image libraries, what the
    operating system does with a command line, [String.prototype.toLowerCase],
    [process.cwd()], the stack trace of an error, the number drawn by
    [Math.random()] (timers do not change the world, so one stands for
    all), and the three readings of [new Date().toISOString()]. *)
Variable PNG_sync_read : Buffer -> Error + PNG.
Variable pixelmatch : Buffer -> Buffer -> float -> float -> float -> Error + float.
Variable shell : string -> Async ExecOutput.
Variable toLowerCase : string -> string.
Variable cwd : string.
Variable stack : Error -> string.
Variable Math_random : float.
Variables isoInitial isoFinal isoReport : string.

(** [exec(command)]: the command line is handed to the shell. *)
Definition exec (command : string) : Script ExecOutput :=
  fun m =>
    let r := shell command (world m) in
    (r.1, mkMachine r.2 (issued m ++ [command])).



(** [focusNewestChromeWindow], lines 359-364. *)
Definition focusNewestChromeWindow : Script unit :=
  say [Text "Focusing on the newest Chrome window..."] ;;
  exec focus_command ;;
  say [Text "Focused on the newest Chrome window"].

(** [checkForLoginText], lines 277-295. *)
Definition checkForLoginText : Script bool :=
  say [Text ("Checking for " +:+ dq +:+ "Log in" +:+ dq +:+ " text...")] ;;
  focusNewestChromeWindow ;;
  exec "xdotool key ctrl+a ctrl+c" ;;
  clipboardContent <- exec "xclip -o -selection clipboard" ;;
  let pageContent := toLowerCase (stdout clipboardContent) in
  say [Text "Page content (first 100 chars): ";
       Text (String.substring 0 100 pageContent); Text "..."] ;;
  if includes pageContent "log in" then
    say [Text (dq +:+ "Log in" +:+ dq +:+ " text found on the page.")] ;;
    finish_with true
  else
    say [Text (dq +:+ "Log in" +:+ dq +:+ " text not found on the page.")] ;;
    finish_with false.

(** [takeScreenshot], lines 297-310. *)
Definition takeScreenshot (filename : string) : Script unit :=
  let fullPath := "screenshots/" +:+ filename in
  let command := "import -window root " +:+ fullPath in
  exec command ;;
  try_catch
    (lift (access fullPath) ;;
     say [Text "Screenshot saved and verified: "; Text fullPath])
    (fun error =>
       say [Text "Error: Screenshot file not found after saving: "; Text fullPath] ;;
       throw error).

(** [pressEnter], lines 338-341. *)
Definition pressEnter : Script unit :=
  focusNewestChromeWindow ;;
  exec "xdotool key Return" ;;
  finish_with tt.

(** The loop of [pressTabRandomly]; [times] is the count the callers
    pass, a literal 18, 2 or 4. *)
Fixpoint press_tabs (times : nat) : Script unit :=
  match times with
  | O => finish_with tt
  | S times' =>
      exec "xdotool key Tab" ;;
      sleep (key_delay_ms Math_random) ;;
      press_tabs times'
  end.

(** [pressTabRandomly], lines 343-349. *)
Definition pressTabRandomly (times : nat) : Script unit :=
  focusNewestChromeWindow ;;
  press_tabs times.

(** [openChrome], lines 351-357. *)
Definition openChrome : Script unit :=
  say [Text "Opening new Chrome window..."] ;;
  let command := "google-chrome --new-window https://www.reddit.com/r/memes/submit" in
  out <- exec command ;;
  say [Text "Chrome opened. stdout: "; Text (stdout out);
       Text ", stderr: "; Text (stderr out)] ;;
  sleep 5000.

(** [typeText], lines 366-369. *)
Definition typeText (text : string) : Script unit :=
  focusNewestChromeWindow ;;
  exec ("xdotool type " +:+ dq +:+ text +:+ dq) ;;
  finish_with tt.

(** The two objects [main] returns from its [try] block, and the one it
    returns from its [catch] block. *)
Definition login_required_report : Report :=
  mkReport false "Login required. Please log in manually and run the script again."
    None None None [].

Definition success_report : Report :=
  mkReport true "Post submitted successfully."
    (Some (mkData "https://www.reddit.com/r/memes/submit" isoReport)) None None
    ["screenshots/" +:+ screenshotNameInitial (replace_colons isoInitial);
     "screenshots/" +:+ screenshotNameFinal (replace_colons isoFinal)].

Definition failure_report (error : Error) : Report :=
  mkReport false "An error occurred during automation."
    None (Some (message error)) (Some (stack error)) [].

(** The [try] block of [main], lines 373-474. *)
Definition main_try : Script Report :=
  say [Text "Starting main automation function"] ;;
  say [Text "Current working directory: "; Text cwd] ;;
  mkdir "screenshots" ;;
  openChrome ;;
  say [Text "Waiting for 7-10 seconds before checking for login..."] ;;
  sleep (page_delay_ms Math_random) ;;
  loginRequired <- checkForLoginText ;;
  if (loginRequired : bool) then
    say [Text "Login required. Please log in manually and run the script again."] ;;
    finish_with login_required_report
  else
    say [Text "Login not required. Proceeding with automation..."] ;;
    let screenshotNameInitial := screenshotNameInitial (replace_colons isoInitial) in
    takeScreenshot screenshotNameInitial ;;
    lift (main_initial_baseline PNG_sync_read pixelmatch screenshotNameInitial) ;;
    focusNewestChromeWindow ;;
    say [Text "Pressing Tab 18 times..."] ;;
    pressTabRandomly 18 ;;
    say [Text "Filling the title box..."] ;;
    typeText "this is the title part, just a test run!" ;;
    say [Text "Pressing Tab 2 times..."] ;;
    pressTabRandomly 2 ;;
    say [Text "Filling the body part..."] ;;
    typeText "This is the body part of the post, this subject is just a test123445!" ;;
    say [Text "Pressing Tab 4 times..."] ;;
    pressTabRandomly 4 ;;
    say [Text "Submitting your post..."] ;;
    pressEnter ;;
    say [Text "Waiting for 7-10 seconds after submitting the post..."] ;;
    sleep (page_delay_ms Math_random) ;;
    let screenshotNameFinal := screenshotNameFinal (replace_colons isoFinal) in
    say [Text "Final screenshot name: "; Text screenshotNameFinal] ;;
    takeScreenshot screenshotNameFinal ;;
    lift (main_final_baseline PNG_sync_read pixelmatch screenshotNameFinal) ;;
    say [Text "Automation successful. Post submitted successfully."] ;;
    finish_with success_report.

(** The [catch] block of [main], lines 476-486. *)
Definition main_catch (error : Error) : Script Report :=
  say [Text "Automation error: "; Text (message error)] ;;
  say [Text "Error stack: "; Text (stack error)] ;;
  finish_with (failure_report error).

(** The [finally] block of [main], lines 487-492. *)
Definition main_finally : Script unit :=
  say [Text "Closing browser"] ;;
  focusNewestChromeWindow ;;
  exec ("xdotool search --onlyvisible --class " +:+ dq +:+ "google-chrome" +:+ dq +:+
        " windowactivate key --clearmodifiers ctrl+w") ;;
  say [Text "Browser closed"].

(** [main], lines 371-493. *)
Definition main : Script Report :=
  try_finally (try_catch main_try main_catch) main_finally.

End PostScript.

(** * The other three scripts

    The file holds four scripts, one after the other.  The upvote script
    (lines 1-228), the message script (lines 510-740) and the login
    script (lines 740-948) take their two screenshots but never compare
    them.  Their [log], [takeScreenshot], [focusNewestChromeWindow] and
    [randomDelay], and the [catch] block of their [main], read as in the
    post-submission script above and are not repeated. *)

(** The timer of lines 176 and 689: [Math.random() * 5000 + 5000]. *)
Definition settle_delay_ms (random : float) : float :=
  (random * 5000 + 5000)%float.

(** The timer of line 897: [Math.random() * 5000 + 10000]. *)
Definition redirect_delay_ms (random : float) : float :=
  (random * 5000 + 10000)%float.

(** The timer of line 673: [Math.random() * 3000]. *)
Definition draft_delay_ms (random : float) : float :=
  (random * 3000)%float.

(** A count printed in a message. *)
Definition number_of_nat (n : nat) : float :=
  PrimFloat.of_uint63 (Uint63.of_Z (Z.of_nat n)).

(** ** Keys pressed without asking for the focus

    [pressEnter], [pressTabRandomly] and [typeText] as the three scripts
    have them (lines 104-113 and 132-134, 613-622 and 641-643, 836-849),
    and the [finally] block of the message and login scripts (lines
    716-720 and 924-928). *)
Module Plain.
Section Keys.

Local Open Scope script_scope.

Variable shell : string -> Async ExecOutput.
Variable Math_random : float.

Definition pressEnter : Script unit :=
  exec shell "xdotool key Return" ;;
  finish_with tt.

Fixpoint press_tabs (times : nat) : Script unit :=
  match times with
  | O => finish_with tt
  | S times' =>
      exec shell "xdotool key Tab" ;;
      sleep (key_delay_ms Math_random) ;;
      press_tabs times'
  end.

Definition pressTabRandomly (times : nat) : Script unit := press_tabs times.

Definition typeText (text : string) : Script unit :=
  exec shell ("xdotool type " +:+ dq +:+ text +:+ dq) ;;
  finish_with tt.

Definition main_finally : Script unit :=
  say [Text "Closing browser"] ;;
  exec shell ("xdotool search --onlyvisible --class " +:+ dq +:+ "google-chrome" +:+ dq +:+
              " windowactivate key --clearmodifiers ctrl+w") ;;
  say [Text "Browser closed"].

End Keys.
End Plain.

(** ** The upvote script *)
Module Upvote.
Section Script.

Local Open Scope script_scope.

Variable shell : string -> Async ExecOutput.
Variable cwd : string.
Variable stack : Error -> string.
Variable Math_random : float.
Variables isoInitial isoFinal isoReport : string.

(** [pressCtrlF], lines 115-120. *)
Definition pressCtrlF : Script unit :=
  say [Text "Pressing Ctrl + F..."] ;;
  focusNewestChromeWindow shell ;;
  exec shell "xdotool key ctrl+f" ;;
  say [Text "Ctrl + F pressed"].

(** The loop of [pressShiftTab]. *)
Fixpoint press_shift_tabs (times : nat) : Script unit :=
  match times with
  | O => finish_with tt
  | S times' =>
      exec shell "xdotool key shift+Tab" ;;
      sleep (key_delay_ms Math_random) ;;
      press_shift_tabs times'
  end.

(** [pressShiftTab], lines 122-130. *)
Definition pressShiftTab (times : nat) : Script unit :=
  say [Text "Pressing Shift + Tab "; Number (number_of_nat times); Text " time(s)..."] ;;
  focusNewestChromeWindow shell ;;
  press_shift_tabs times ;;
  say [Text "Shift + Tab pressed "; Number (number_of_nat times); Text " time(s)"].

Definition url : string :=
  "https://www.reddit.com/r/DotA2/comments/1dmkmhf/comment/l9w8h1t/?utm_source=share&utm_medium=web3x&utm_name=web3xcss&utm_term=1&utm_content=share_button".

Definition screenshotNameInitial (timestamp : string) : string :=
  "Upvote_initial_" +:+ timestamp +:+ ".png".

Definition screenshotNameFinal (timestamp : string) : string :=
  "Upvote_final_" +:+ timestamp +:+ ".png".

Definition success_report : Report :=
  mkReport true "Upvoted Successfully"
    (Some (mkData url isoReport)) None None
    ["screenshots/" +:+ screenshotNameInitial (replace_colons isoInitial);
     "screenshots/" +:+ screenshotNameFinal (replace_colons isoFinal)].

(** The [try] block of [main], lines 137-192. *)
Definition main_try : Script Report :=
  say [Text "Starting main automation function"] ;;
  mkdir "screenshots" ;;
  say [Text "Current working directory: "; Text cwd] ;;
  say [Text "Opening Chrome and navigating to Reddit Post..."] ;;
  exec shell ("google-chrome --new-window " +:+ url) ;;
  say [Text "Waiting for 7-10 seconds before taking the first screenshot..."] ;;
  sleep (page_delay_ms Math_random) ;;
  let screenshotNameInitial := screenshotNameInitial (replace_colons isoInitial) in
  takeScreenshot shell screenshotNameInitial ;;
  say [Text "Opening find dialog..."] ;;
  pressCtrlF ;;
  sleep 1000 ;;
  Plain.typeText shell "reply" ;;
  exec shell "xdotool key Escape" ;;
  say [Text "Moving focus backwards..."] ;;
  pressShiftTab 2 ;;
  say [Text "Upvoting.."] ;;
  Plain.pressEnter shell ;;
  say [Text "Waiting for 5-10 seconds to make sure it worked..."] ;;
  sleep (settle_delay_ms Math_random) ;;
  let screenshotNameFinal := screenshotNameFinal (replace_colons isoFinal) in
  say [Text "Final screenshot name: "; Text screenshotNameFinal] ;;
  takeScreenshot shell screenshotNameFinal ;;
  say [Text "Automation successful. Upvoted successfully."] ;;
  finish_with success_report.

(** [main], lines 136-211; its [finally] block asks for the focus first,
    as in the post-submission script. *)
Definition main : Script Report :=
  try_finally (try_catch main_try (main_catch stack)) (main_finally shell).

End Script.
End Upvote.

(** ** The message script *)
Module IgMessage.
Section Script.

Local Open Scope script_scope.

Variable shell : string -> Async ExecOutput.
Variable cwd : string.
Variable stack : Error -> string.
Variable Math_random : float.
Variables isoInitial isoFinal isoReport : string.

(** [pressCtrlA], lines 624-629. *)
Definition pressCtrlA : Script unit :=
  say [Text "Pressing Ctrl + A..."] ;;
  focusNewestChromeWindow shell ;;
  exec shell "xdotool key ctrl+a" ;;
  say [Text "Ctrl + A pressed"].

Definition screenshotNameInitial (timestamp : string) : string :=
  "igMessage_initial_" +:+ timestamp +:+ ".png".

Definition screenshotNameFinal (timestamp : string) : string :=
  "igMessage_final_" +:+ timestamp +:+ ".png".

Definition success_report : Report :=
  mkReport true "Message sent succesfully"
    (Some (mkData "Put your user profile link here..." isoReport)) None None
    ["screenshots/" +:+ screenshotNameInitial (replace_colons isoInitial);
     "screenshots/" +:+ screenshotNameFinal (replace_colons isoFinal)].

(** The [try] block of [main], lines 646-704. *)
Definition main_try : Script Report :=
  say [Text "Starting main automation function"] ;;
  mkdir "screenshots" ;;
  say [Text "Current working directory: "; Text cwd] ;;
  say [Text "Opening Chrome and navigating to Reddit Post..."] ;;
  exec shell "google-chrome --new-window (Put your user profile link here)" ;;
  say [Text "Waiting for 7-10 seconds before taking the first screenshot..."] ;;
  sleep (page_delay_ms Math_random) ;;
  let screenshotNameInitial := screenshotNameInitial (replace_colons isoInitial) in
  takeScreenshot shell screenshotNameInitial ;;
  say [Text "Pressing Tab 25 times to reach message button..."] ;;
  Plain.pressTabRandomly shell Math_random 25 ;;
  say [Text "Pressing Message.."] ;;
  Plain.pressEnter shell ;;
  sleep (draft_delay_ms Math_random) ;;
  say [Text "Removing any automated draft message..."] ;;
  pressCtrlA ;;
  say [Text "Typing message..."] ;;
  Plain.typeText shell "This is a test message!" ;;
  say [Text "Pressing Tab 6 times to send message..."] ;;
  Plain.pressTabRandomly shell Math_random 6 ;;
  say [Text "Sending Message.."] ;;
  Plain.pressEnter shell ;;
  say [Text "Waiting for 5-10 seconds to make sure it worked..."] ;;
  sleep (settle_delay_ms Math_random) ;;
  let screenshotNameFinal := screenshotNameFinal (replace_colons isoFinal) in
  say [Text "Final screenshot name: "; Text screenshotNameFinal] ;;
  takeScreenshot shell screenshotNameFinal ;;
  say [Text "Automation successful. Message sent succesfully."] ;;
  finish_with success_report.

(** [main], lines 645-723. *)
Definition main : Script Report :=
  try_finally (try_catch main_try (main_catch stack)) (Plain.main_finally shell).

End Script.
End IgMessage.

(** ** The login script *)
Module Login.
Section Script.

Local Open Scope script_scope.

Variable shell : string -> Async ExecOutput.
Variable cwd : string.
Variable stack : Error -> string.
Variable Math_random : float.
Variables isoInitial isoFinal isoReport : string.

Definition success_report : Report :=
  mkReport true "Logged in successfully."
    (Some (mkData "https://www.instagram.com/" isoReport)) None None
    ["screenshots/" +:+ screenshotNameInitial (replace_colons isoInitial);
     "screenshots/" +:+ screenshotNameFinal (replace_colons isoFinal)].

(** The [try] block of [main], lines 852-912; its screenshots are named
    as in the post-submission script. *)
Definition main_try : Script Report :=
  say [Text "Starting main automation function"] ;;
  mkdir "screenshots" ;;
  say [Text "Current working directory: "; Text cwd] ;;
  say [Text "Opening Chrome and navigating to Reddit..."] ;;
  exec shell "google-chrome --new-window https://www.instagram.com/" ;;
  say [Text "Waiting for 7-10 seconds before taking the first screenshot..."] ;;
  sleep (page_delay_ms Math_random) ;;
  let screenshotNameInitial := screenshotNameInitial (replace_colons isoInitial) in
  takeScreenshot shell screenshotNameInitial ;;
  say [Text "Pressing Tab 2 times..."] ;;
  Plain.pressTabRandomly shell Math_random 2 ;;
  say [Text "Filling the email/username box..."] ;;
  Plain.typeText shell "TYPEINYOURUSERNAME" ;;
  say [Text "Pressing Tab once..."] ;;
  Plain.pressTabRandomly shell Math_random 1 ;;
  say [Text "Filling the Password box..."] ;;
  Plain.typeText shell "TYPEINYOURPASSWORD" ;;
  say [Text "Pressing Tab once..."] ;;
  Plain.pressTabRandomly shell Math_random 1 ;;
  say [Text "Logging In.."] ;;
  Plain.pressEnter shell ;;
  say [Text "Waiting for 10-15 seconds to redirect after logging in..."] ;;
  sleep (redirect_delay_ms Math_random) ;;
  let screenshotNameFinal := screenshotNameFinal (replace_colons isoFinal) in
  say [Text "Final screenshot name: "; Text screenshotNameFinal] ;;
  takeScreenshot shell screenshotNameFinal ;;
  say [Text "Automation successful. Logged in successfully."] ;;
  finish_with success_report.

(** [main], lines 851-931. *)
Definition main : Script Report :=
  try_finally (try_catch main_try (main_catch stack)) (Plain.main_finally shell).

End Script.
End Login.

(** ** What a run of the script comes to *)

(** Started on [m], the script [c] resolves, and [Q] holds of its value
    and of the machine it leaves. *)
Definition resolves {A} (c : Script A) (m : Machine) (Q : A -> Machine -> Prop) : Prop :=
  exists a m', c m = (inr a, m') /\ Q a m'.

(** Started on [m], the script [c] rejects, and [Q] holds of its error
    and of the machine it leaves. *)
Definition rejects {A} (c : Script A) (m : Machine) (Q : Error -> Machine -> Prop) : Prop :=
  exists e m', c m = (inl e, m') /\ Q e m'.

(** Whatever happens, [c] issues an initial segment of [bound], one
    command after the other; and when it resolves, [Q] holds of its
    value and of the commands it has issued. *)
Definition issues {A} (c : Script A) (Q : A -> list string -> Prop) (bound : list string)
  : Prop :=
  forall m, exists commands,
    issued (c m).2 = issued m ++ commands /\
    commands `prefix_of` bound /\
    forall a, (c m).1 = inr a -> Q a commands.

(** Machine [m] is machine [m0] after the commands [commands], with the
    files [fs]. *)
Definition reaches (m0 : Machine) (fs : gmap string Buffer) (commands : list string)
    (m : Machine) : Prop :=
  files (world m) = fs /\ issued m = issued m0 ++ commands.

Definition tab_command : string := "xdotool key Tab".

Definition return_command : string := "xdotool key Return".

Definition copy_command : string := "xdotool key ctrl+a ctrl+c".

Definition paste_command : string := "xclip -o -selection clipboard".

Definition title_text : string := "this is the title part, just a test run!".

Definition body_text : string :=
  "This is the body part of the post, this subject is just a test123445!".






(** The commands of [main] up to the login check, of its [finally]
    block, and of the whole [try] block when nothing fails. *)
Definition opening_commands : list string :=
  [chrome_command; focus_command; copy_command; paste_command].

Definition closing_commands : list string := [focus_command; close_command].

Definition filling_commands : list string :=
  [focus_command; focus_command] ++ replicate 18 tab_command ++
  [focus_command; type_command title_text; focus_command] ++ replicate 2 tab_command ++
  [focus_command; type_command body_text; focus_command] ++ replicate 4 tab_command ++
  [focus_command; return_command].

Definition posting_commands (isoInitial isoFinal : string) : list string :=
  opening_commands ++
  [import_command (screenshot_file initial (replace_colons isoInitial))] ++
  filling_commands ++
  [import_command (screenshot_file final (replace_colons isoFinal))].

(** The commands of the [try] blocks of the other three scripts when
    nothing fails. *)
Definition upvote_commands (isoInitial isoFinal : string) : list string :=
  ["google-chrome --new-window " +:+ Upvote.url;
   import_command ("screenshots/" +:+ Upvote.screenshotNameInitial (replace_colons isoInitial));
   focus_command; "xdotool key ctrl+f"; type_command "reply"; "xdotool key Escape";
   focus_command; "xdotool key shift+Tab"; "xdotool key shift+Tab"; return_command;
   import_command ("screenshots/" +:+ Upvote.screenshotNameFinal (replace_colons isoFinal))].

Definition message_commands (isoInitial isoFinal : string) : list string :=
  ["google-chrome --new-window (Put your user profile link here)";
   import_command ("screenshots/" +:+ IgMessage.screenshotNameInitial (replace_colons isoInitial))] ++
  replicate 25 tab_command ++
  [return_command; focus_command; "xdotool key ctrl+a";
   type_command "This is a test message!"] ++
  replicate 6 tab_command ++
  [return_command;
   import_command ("screenshots/" +:+ IgMessage.screenshotNameFinal (replace_colons isoFinal))].

Definition login_commands (isoInitial isoFinal : string) : list string :=
  ["google-chrome --new-window https://www.instagram.com/";
   import_command (screenshot_file initial (replace_colons isoInitial));
   tab_command; tab_command; type_command "TYPEINYOURUSERNAME";
   tab_command; type_command "TYPEINYOURPASSWORD"; tab_command; return_command;
   import_command (screenshot_file final (replace_colons isoFinal))].

(** The similarity [compareScreenshots] computes for a baseline and a
    screenshot with the given bytes, when both decode and the comparison
    does not throw. *)
Definition similarity_between
    (PNG_sync_read : Buffer -> Error + PNG)
    (pixelmatch : Buffer -> Buffer -> float -> float -> float -> Error + float)
    (baseline shot : Buffer) : option float :=
  match PNG_sync_read baseline, PNG_sync_read shot with
  | inr originalPng, inr currentPng =>
      match pixelmatch (data originalPng) (data currentPng)
              (width originalPng) (height originalPng) 0.1%float with
      | inr mismatchedPixels =>
          Some (similarity_of mismatchedPixels (width originalPng) (height originalPng))
      | inl _ => None
      end
  | _, _ => None
  end.

(** A shell on which every command succeeds, only [import] touches the
    files, and [import] saves some image under the path it is given. *)
Record responsive (shell : string -> Async ExecOutput) : Prop := {
  commands_succeed : forall command w, exists out w', shell command w = (inr out, w');
  keys_keep_files :
    forall command w, (forall path, command <> import_command path) ->
      files (shell command w).2 = files w;
  import_saves :
    forall path w, exists shot, files (shell (import_command path) w).2 = <[path := shot]> (files w)
}.

(** ** A reference desktop

    A stand-in for the operating system, for the example runs: [import]
    saves the bytes [screen] under the path it is given, [xclip] prints
    [page], and every other command succeeds silently. *)

Fixpoint strip_prefix (p s : string) : option string :=
  match p with
  | EmptyString => Some s
  | String a p' =>
      match s with
      | EmptyString => None
      | String b s' => if Ascii.eqb a b then strip_prefix p' s' else None
      end
  end.

Definition shell_model (screen : Buffer) (page : string) (command : string)
  : Async ExecOutput :=
  fun w =>
    match strip_prefix "import -window root " command with
    | Some path =>
        (inr (mkExecOutput EmptyString EmptyString),
         mkWorld (<[path := screen]> (files w)) (console w))
    | None =>
        if String.eqb command "xclip -o -selection clipboard"
        then (inr (mkExecOutput page EmptyString), w)
        else (inr (mkExecOutput EmptyString EmptyString), w)
    end.

(** A shell on which every command fails. *)
Definition shell_down (command : string) : Async ExecOutput :=
  fun w => (inl (mkError ("Command failed: " +:+ command)), w).

(** Lower case for the letters A to Z. *)
Definition lower (c : Ascii.ascii) : Ascii.ascii :=
  let n := Ascii.nat_of_ascii c in
  if (Nat.leb 65 n && Nat.leb n 90)%bool then Ascii.ascii_of_nat (n + 32) else c.

Fixpoint toLowerCase_model (s : string) : string :=
  match s with
  | EmptyString => EmptyString
  | String c s' => String (lower c) (toLowerCase_model s')
  end.

Definition no_stack (e : Error) : string := EmptyString.

Definition iso1 : string := "2024-06-24T10:00:00.000Z".
Definition iso2 : string := "2024-06-24T10:01:00.000Z".
Definition iso3 : string := "2024-06-24T10:01:05.000Z".

Definition main_model (screen : Buffer) (page : string) : Script Report :=
  main PNG_sync_read_model pixelmatch_model (shell_model screen page)
    toLowerCase_model "/home/user" no_stack 0.5%float iso1 iso2 iso3.

(** A machine with the files [fs], a blank console and no command issued. *)
Definition fresh (fs : gmap string Buffer) : Machine := mkMachine (empty_console fs) [].

(** ** Rounding to binary64

    The specification of the primitive operations rounds a mantissa, an
    exponent and the position of the discarded part (SpecFloat's
    [binary_round_aux]).  The definitions below describe that rounding
    with integers, for the proofs about the arithmetic of lines 328-329. *)

Local Open Scope Z_scope.

(** Where a number sits between two consecutive mantissas, as a number
    from 0 to 3: on the lower one, below, on, or above the middle. *)
Definition loc_code (l : location) : Z :=
  match l with
  | loc_Exact => 0
  | loc_Inexact Lt => 1
  | loc_Inexact Eq => 2
  | loc_Inexact Gt => 3
  end.

(** A mantissa with its round and sticky bits, read as one integer. *)
Definition rec_code (r : shr_record) : Z :=
  4 * shr_m r + (if shr_r r then 2 else 0) + (if shr_s r then 1 else 0).

(** [n] right shifts of such an integer: the low bit of the result is
    set when a non-zero bit was shifted out. *)
Definition sticky_shift (n c : Z) : Z :=
  2 * (c / 2 ^ (n + 1)) + (if c mod 2 ^ (n + 1) =? 0 then 0 else 1).

(** Rounding to nearest, ties to even, of a mantissa with its two bits. *)
Definition rne (k : Z) : Z :=
  let m := k / 4 in
  let r := k mod 4 in
  if r <=? 1 then m
  else if r =? 2 then (if Z.even m then m else m + 1)
  else m + 1.

(** The exponent of a binary64 number with [e] bits before the point. *)
Definition fexp64 (e : Z) : Z := Z.max (e - 53) (-1074).

(** The number made of a rounded mantissa [r] of at most 54 bits and of
    the exponent [g]: zero, finite, or infinite on overflow. *)
Definition finish (sx : bool) (r g : Z) : spec_float :=
  if r =? 0 then S754_zero sx
  else if r <? 2 ^ 53 then
    (if g <=? 971 then S754_finite sx (Z.to_pos r) g else S754_infinity sx)
  else
    (if g + 1 <=? 971 then S754_finite sx (Z.to_pos (2 ^ 52)) (g + 1)
     else S754_infinity sx).

(** The order of two numbers given as mantissa, exponent and position:
    brought to any common exponent, the first is not above the second. *)
Definition triple_le (m1 e1 : Z) (l1 : location) (m2 e2 : Z) (l2 : location) : Prop :=
  forall G, e1 <= G -> e2 <= G ->
    sticky_shift (G - e1) (4 * m1 + loc_code l1) <=
    sticky_shift (G - e2) (4 * m2 + loc_code l2).

(** The quotient [N / D] as a mantissa with its two bits. *)
Definition codeQ (N D : Z) : Z :=
  2 * (2 * N / D) + (if (2 * N) mod D =? 0 then 0 else 1).

(** Zero of either sign, a positive finite number or plus infinity. *)
Definition nonneg_class (x : spec_float) : bool :=
  match x with
  | S754_zero _ | S754_finite false _ _ | S754_infinity false => true
  | _ => false
  end.

(** The exponent the division aims at, and the dividend shifted to it. *)
Definition div_exponent (mx ex my ey : Z) : Z :=
  Z.min (fexp64 (Zdigits2 mx + ex - (Zdigits2 my + ey))) (ex - ey).

Definition div_numerator (mx ex my ey : Z) : Z :=
  mx * 2 ^ (ex - ey - div_exponent mx ex my ey).

Local Close Scope Z_scope.

(** * Properties *)

(** ** Double-precision facts *)

Section Binary64.

Local Open Scope Z_scope.

Lemma sticky_shift_0 c : sticky_shift 0 c = c.
Proof.
  unfold sticky_shift. change (2 ^ (0 + 1)) with 2.
  destruct (Z.eqb_spec (c mod 2) 0); Z.div_mod_to_equations; lia.
Qed.

Lemma sticky_shift_mono n c c' :
  0 <= n -> c <= c' -> sticky_shift n c <= sticky_shift n c'.
Proof.
  intros Hn Hc. unfold sticky_shift.
  assert (0 < 2 ^ (n + 1)) as HP by (apply Z.pow_pos_nonneg; lia).
  set (P := 2 ^ (n + 1)) in *.
  destruct (Z.eqb_spec (c mod P) 0), (Z.eqb_spec (c' mod P) 0);
    Z.div_mod_to_equations; nia.
Qed.

(** Shifting twice is shifting once by the sum. *)
Lemma sticky_shift_add a b c :
  0 <= a -> 0 <= b ->
  sticky_shift a (sticky_shift b c) = sticky_shift (a + b) c.
Proof.
  intros Ha Hb. unfold sticky_shift.
  replace (a + b + 1) with ((b + 1) + a) by lia.
  rewrite (Z.pow_add_r 2 (b + 1) a) by lia.
  replace (a + 1) with (1 + a) by lia.
  rewrite (Z.pow_add_r 2 1 a) by lia. change (2 ^ 1) with 2.
  assert (0 < 2 ^ (b + 1)) as HP by (apply Z.pow_pos_nonneg; lia).
  assert (0 < 2 ^ a) as HQ by (apply Z.pow_pos_nonneg; lia).
  set (P := 2 ^ (b + 1)) in *. set (Q := 2 ^ a) in *.
  rewrite <- (Z.div_div c P Q) by lia.
  rewrite (Z.rem_mul_r c P Q) by lia.
  set (u := c / P). set (v := c mod P).
  assert (0 <= v < P) as Hv by (apply Z.mod_pos_bound; lia).
  assert (0 <= u mod Q < Q) as Hu by (apply Z.mod_pos_bound; lia).
  destruct (Z.eqb_spec v 0) as [Ev|Ev].
  - rewrite Z.add_0_r.
    rewrite <- (Z.div_div (2 * u) 2 Q) by lia.
    replace (2 * u / 2) with u by (Z.div_mod_to_equations; lia).
    rewrite (Z.rem_mul_r (2 * u) 2 Q) by lia.
    replace ((2 * u) mod 2) with 0 by (Z.div_mod_to_equations; lia).
    replace (2 * u / 2) with u by (Z.div_mod_to_equations; lia).
    rewrite Ev.
    destruct (Z.eqb_spec (0 + 2 * (u mod Q)) 0), (Z.eqb_spec (0 + P * (u mod Q)) 0);
      try reflexivity; exfalso; nia.
  - rewrite <- (Z.div_div (2 * u + 1) 2 Q) by lia.
    replace ((2 * u + 1) / 2) with u by (Z.div_mod_to_equations; lia).
    rewrite (Z.rem_mul_r (2 * u + 1) 2 Q) by lia.
    replace ((2 * u + 1) mod 2) with 1 by (Z.div_mod_to_equations; lia).
    replace ((2 * u + 1) / 2) with u by (Z.div_mod_to_equations; lia).
    destruct (Z.eqb_spec (1 + 2 * (u mod Q)) 0), (Z.eqb_spec (v + P * (u mod Q)) 0);
      try reflexivity; exfalso; nia.
Qed.

(** Multiplying by a power of two first adds as many shifts. *)
Lemma sticky_shift_scale n k c :
  0 <= n -> 0 <= k -> sticky_shift (n + k) (c * 2 ^ k) = sticky_shift n c.
Proof.
  intros Hn Hk. unfold sticky_shift.
  replace (n + k + 1) with ((n + 1) + k) by lia.
  rewrite (Z.pow_add_r 2 (n + 1) k) by lia.
  assert (0 < 2 ^ (n + 1)) as HP by (apply Z.pow_pos_nonneg; lia).
  assert (0 < 2 ^ k) as HQ by (apply Z.pow_pos_nonneg; lia).
  rewrite Z.div_mul_cancel_r by lia.
  rewrite Z.mul_mod_distr_r by lia.
  destruct (Z.eqb_spec (c mod 2 ^ (n + 1)) 0) as [E|E].
  - rewrite E. reflexivity.
  - destruct (Z.eqb_spec (c mod 2 ^ (n + 1) * 2 ^ k) 0); [exfalso; nia|reflexivity].
Qed.

(** Rounding to nearest even is monotone. *)
Lemma rne_mono k k' : 0 <= k -> k <= k' -> rne k <= rne k'.
Proof.
  intros H0 H. unfold rne. rewrite !Zeven_mod.
  destruct (Z.leb_spec (k mod 4) 1), (Z.leb_spec (k' mod 4) 1),
    (Z.eqb_spec (k mod 4) 2), (Z.eqb_spec (k' mod 4) 2),
    (Z.eqb_spec ((k / 4) mod 2) 0), (Z.eqb_spec ((k' / 4) mod 2) 0);
    Z.div_mod_to_equations; lia.
Qed.

Lemma rne_bounds k : 0 <= k -> k / 4 <= rne k <= k / 4 + 1.
Proof.
  intros H. unfold rne.
  destruct (Z.leb_spec (k mod 4) 1), (Z.eqb_spec (k mod 4) 2), (Z.even (k / 4)); lia.
Qed.

(** *** Binary digits *)

Lemma digits2_pos_size p : digits2_pos p = Pos.size p.
Proof. induction p; simpl; congruence. Qed.

Lemma Zdigits2_bounds m : 0 < m -> 2 ^ (Zdigits2 m - 1) <= m < 2 ^ Zdigits2 m.
Proof.
  destruct m as [|p|p]; try lia. intros _. cbn [Zdigits2].
  rewrite digits2_pos_size.
  pose proof (Pos.size_gt p) as Hgt. pose proof (Pos.size_le p) as Hle.
  assert (Z.pos (2 ^ Pos.size p) = 2 ^ Z.pos (Pos.size p)) as E
    by (rewrite Pos2Z.inj_pow; reflexivity).
  split.
  - assert (2 ^ Z.pos (Pos.size p) = 2 * 2 ^ (Z.pos (Pos.size p) - 1)) as E2.
    { rewrite <- Z.pow_succ_r by lia. f_equal. lia. }
    lia.
  - lia.
Qed.

Lemma Zdigits2_nonneg m : 0 <= Zdigits2 m.
Proof. destruct m; simpl; lia. Qed.

Lemma Zdigits2_pos m : 0 < m -> 0 < Zdigits2 m.
Proof. destruct m; simpl; lia. Qed.

(** [2 ^ n <= m] exactly when [m] has more than [n] digits. *)

Lemma Zdigits2_gt m n : 0 <= m -> 0 <= n -> (2 ^ n <= m <-> n < Zdigits2 m).
Proof.
  intros Hm Hn.
  assert (0 < 2 ^ n) by (apply Z.pow_pos_nonneg; lia).
  destruct (Z.eq_dec m 0) as [->|Hm0].
  { simpl. lia. }
  pose proof (Zdigits2_bounds m ltac:(lia)) as [Hlo Hhi].
  split; intros Hx.
  - destruct (Z.lt_ge_cases n (Zdigits2 m)) as [|Hge]; [assumption|].
    assert (2 ^ Zdigits2 m <= 2 ^ n) by (apply Z.pow_le_mono_r; lia). lia.
  - assert (2 ^ n <= 2 ^ (Zdigits2 m - 1)) by (apply Z.pow_le_mono_r; lia). lia.
Qed.

Lemma Zdigits2_mono m m' : 0 <= m -> m <= m' -> Zdigits2 m <= Zdigits2 m'.
Proof.
  intros Hm Hle.
  destruct (Z.eq_dec m 0) as [->|Hm0]; [apply Zdigits2_nonneg|].
  pose proof (Zdigits2_bounds m ltac:(lia)) as [Hlo _].
  assert (2 ^ (Zdigits2 m - 1) <= m') as H by lia.
  pose proof (Zdigits2_pos m ltac:(lia)).
  apply Zdigits2_gt in H; lia.
Qed.

Lemma Zdigits2_mul_pow2 m k : 0 < m -> 0 <= k -> Zdigits2 (m * 2 ^ k) = Zdigits2 m + k.
Proof.
  intros Hm Hk.
  assert (0 < 2 ^ k) by (apply Z.pow_pos_nonneg; lia).
  pose proof (Zdigits2_bounds m Hm) as [Hlo Hhi].
  pose proof (Zdigits2_pos m Hm).
  assert (0 < m * 2 ^ k) as Hmk by nia.
  apply Z.le_antisymm.
  - destruct (Z.lt_ge_cases (Zdigits2 m + k) (Zdigits2 (m * 2 ^ k))) as [Hlt|]; [|assumption].
    apply Zdigits2_gt in Hlt; [|lia|lia].
    rewrite Z.pow_add_r in Hlt by lia. nia.
  - assert (Zdigits2 m + k - 1 < Zdigits2 (m * 2 ^ k)); [|lia].
    apply Zdigits2_gt; [lia|lia|].
    replace (Zdigits2 m + k - 1) with ((Zdigits2 m - 1) + k) by lia.
    rewrite Z.pow_add_r by lia. nia.
Qed.

(** *** Shifting with round and sticky bits *)

Lemma rec_code_of_loc m l : rec_code (shr_record_of_loc m l) = 4 * m + loc_code l.
Proof. destruct l as [|[]]; unfold rec_code; simpl; lia. Qed.

Lemma shr_m_of_loc m l : shr_m (shr_record_of_loc m l) = m.
Proof. destruct l as [|[]]; reflexivity. Qed.

Lemma loc_code_bounds l : 0 <= loc_code l <= 3.
Proof. destruct l as [|[]]; simpl; lia. Qed.

(** One step of SpecFloat's [shr_1] is one sticky shift. *)
Lemma shr_1_code r :
  0 <= shr_m r ->
  rec_code (shr_1 r) = sticky_shift 1 (rec_code r) /\ 0 <= shr_m (shr_1 r).
Proof.
  destruct r as [m rb sb]. cbn [shr_m]. intros Hm.
  assert (forall q k, 0 <= k <= 3 ->
            sticky_shift 1 (4 * q + k) = 2 * q + (if k =? 0 then 0 else 1)) as S.
  { intros q k Hk. unfold sticky_shift. change (2 ^ (1 + 1)) with 4.
    replace ((4 * q + k) / 4) with q by (Z.div_mod_to_equations; lia).
    replace ((4 * q + k) mod 4) with k by (Z.div_mod_to_equations; lia).
    reflexivity. }
  unfold rec_code.
  destruct m as [|p|p]; [| |lia].
  - cbn [shr_1 shr_m shr_r shr_s]. split; [|lia].
    destruct rb, sb; cbn [orb];
      match goal with
      | |- _ = sticky_shift 1 (4 * 0 + ?a + ?b) =>
          replace (4 * 0 + a + b) with (4 * 0 + (a + b)) by lia; rewrite S by lia
      end; reflexivity.
  - destruct p as [p|p|]; cbn [shr_1 shr_m shr_r shr_s]; (split; [|lia]).
    + rewrite Pos2Z.inj_xI.
      destruct rb, sb; cbn [orb];
        match goal with
        | |- _ = sticky_shift 1 (4 * (2 * ?q + 1) + ?a + ?b) =>
            replace (4 * (2 * q + 1) + a + b) with (4 * (2 * q) + (4 + a + b)) by lia
        end.
      all: unfold sticky_shift; change (2 ^ (1 + 1)) with 4.
      all: match goal with
           | |- context [?x mod 4 =? 0] => destruct (Z.eqb_spec (x mod 4) 0)
           end; Z.div_mod_to_equations; lia.
    + rewrite Pos2Z.inj_xO.
      destruct rb, sb; cbn [orb].
      all: unfold sticky_shift; change (2 ^ (1 + 1)) with 4.
      all: match goal with
           | |- context [?x mod 4 =? 0] => destruct (Z.eqb_spec (x mod 4) 0)
           end; Z.div_mod_to_equations; lia.
    + destruct rb, sb; cbn [orb]; reflexivity.
Qed.

Lemma iter_pos_shr_1 p : forall r,
  0 <= shr_m r ->
  rec_code (SpecFloat.iter_pos shr_1 p r) = sticky_shift (Z.pos p) (rec_code r) /\
  0 <= shr_m (SpecFloat.iter_pos shr_1 p r).
Proof.
  induction p as [p IH|p IH|]; intros r Hr; cbn [SpecFloat.iter_pos].
  - destruct (shr_1_code r Hr) as [E1 H1].
    destruct (IH _ H1) as [E2 H2]. destruct (IH _ H2) as [E3 H3].
    split; [|exact H3].
    rewrite E3, E2, E1, !sticky_shift_add by lia. f_equal. lia.
  - destruct (IH _ Hr) as [E2 H2]. destruct (IH _ H2) as [E3 H3].
    split; [|exact H3].
    rewrite E3, E2, !sticky_shift_add by lia. f_equal. lia.
  - apply shr_1_code, Hr.
Qed.

Lemma fexp_64 e : SpecFloat.fexp prec emax e = fexp64 e.
Proof. reflexivity. Qed.

(** The first shift of [binary_round_aux] brings the mantissa to the
    exponent of its number of digits, sticky bits included. *)
Lemma shr_fexp_code m e l :
  0 <= m -> e <= fexp64 (Zdigits2 m + e) ->
  snd (shr_fexp prec emax m e l) = fexp64 (Zdigits2 m + e) /\
  rec_code (fst (shr_fexp prec emax m e l)) =
    sticky_shift (fexp64 (Zdigits2 m + e) - e) (4 * m + loc_code l) /\
  0 <= shr_m (fst (shr_fexp prec emax m e l)).
Proof.
  intros Hm He. unfold shr_fexp. rewrite fexp_64.
  set (g := fexp64 (Zdigits2 m + e)) in *.
  unfold shr. destruct (g - e) as [|p|p] eqn:En; cbn [fst snd].
  - rewrite sticky_shift_0, rec_code_of_loc, shr_m_of_loc. repeat split; lia.
  - destruct (iter_pos_shr_1 p (shr_record_of_loc m l)) as [E H].
    { rewrite shr_m_of_loc. exact Hm. }
    rewrite E, rec_code_of_loc. repeat split; [lia|exact H].
  - lia.
Qed.

Lemma rne_record r :
  0 <= shr_m r ->
  round_nearest_even (shr_m r) (loc_of_shr_record r) = rne (rec_code r).
Proof.
  destruct r as [m rb sb]. cbn [shr_m]. intros Hm. unfold rne, rec_code.
  cbn [shr_m shr_r shr_s].
  destruct rb, sb; cbn [loc_of_shr_record round_nearest_even];
    match goal with
    | |- context [(?x mod 4) <=? 1] =>
        replace (x / 4) with m by (Z.div_mod_to_equations; lia);
        destruct (Z.leb_spec (x mod 4) 1); destruct (Z.eqb_spec (x mod 4) 2)
    end; try reflexivity; Z.div_mod_to_equations; lia.
Qed.

Lemma sticky_shift_div4 n m lc :
  0 <= n -> 0 <= lc <= 3 ->
  sticky_shift n (4 * m + lc) / 4 = m / 2 ^ n.
Proof.
  intros Hn Hlc. unfold sticky_shift.
  assert (0 < 2 ^ n) as HP by (apply Z.pow_pos_nonneg; lia).
  replace (n + 1) with (1 + n) by lia.
  rewrite Z.pow_add_r by lia. change (2 ^ 1) with 2.
  set (P := 2 ^ n) in *.
  destruct (Z.eqb_spec ((4 * m + lc) mod (2 * P)) 0);
    Z.div_mod_to_equations; nia.
Qed.

Lemma fexp64_ge e : -1074 <= fexp64 e /\ e - 53 <= fexp64 e.
Proof. unfold fexp64. lia. Qed.

Lemma fexp64_mono e e' : e <= e' -> fexp64 e <= fexp64 e'.
Proof. unfold fexp64. lia. Qed.

(** The mantissa kept by the first shift has at most 53 digits. *)

Lemma shifted_mantissa_bound m e :
  0 <= m -> e <= fexp64 (Zdigits2 m + e) ->
  m / 2 ^ (fexp64 (Zdigits2 m + e) - e) < 2 ^ 53.
Proof.
  intros Hm He. set (g := fexp64 (Zdigits2 m + e)) in *.
  assert (0 < 2 ^ (g - e)) as HP by (apply Z.pow_pos_nonneg; lia).
  destruct (Z.eq_dec m 0) as [->|Hm0].
  { rewrite Z.div_0_l by lia. reflexivity. }
  pose proof (Zdigits2_bounds m ltac:(lia)) as [_ Hhi].
  pose proof (fexp64_ge (Zdigits2 m + e)) as [_ Hg]. fold g in Hg.
  assert (2 ^ Zdigits2 m <= 2 ^ (53 + (g - e))) as Hle
    by (apply Z.pow_le_mono_r; lia).
  rewrite Z.pow_add_r in Hle by lia.
  apply Z.div_lt_upper_bound; lia.
Qed.

(** [binary_round_aux] in closed form, for a mantissa whose exponent is
    not above the one its digits call for. *)
Lemma binary_round_aux_finish sx m e l :
  0 <= m -> e <= fexp64 (Zdigits2 m + e) ->
  binary_round_aux prec emax sx m e l =
  finish sx (rne (sticky_shift (fexp64 (Zdigits2 m + e) - e) (4 * m + loc_code l)))
    (fexp64 (Zdigits2 m + e)).
Proof.
  intros Hm He. unfold binary_round_aux.
  destruct (shr_fexp_code m e l Hm He) as (Ee & Ec & Hr).
  destruct (shr_fexp prec emax m e l) as [r1 e1]. cbn [fst snd] in Ee, Ec, Hr.
  rewrite (rne_record r1 Hr), Ec, Ee.
  set (g := fexp64 (Zdigits2 m + e)) in *.
  set (K := sticky_shift (g - e) (4 * m + loc_code l)).
  assert (0 <= K / 4 < 2 ^ 53) as HK.
  { unfold K. rewrite sticky_shift_div4 by (pose proof (loc_code_bounds l); lia).
    split; [apply Z.div_pos; [lia|apply Z.pow_pos_nonneg; lia]|].
    apply shifted_mantissa_bound; assumption. }
  assert (0 <= K) as HK0.
  { assert (0 <= K / 4) by lia. Z.div_mod_to_equations. lia. }
  pose proof (rne_bounds K HK0) as Hrne.
  set (r := rne K) in *.
  pose proof (fexp64_ge (Zdigits2 m + e)) as [Hg _]. fold g in Hg.
  unfold finish, shr_fexp. rewrite fexp_64.
  destruct (Z.eqb_spec r 0) as [E0|E0].
  - rewrite E0. cbn [Zdigits2]. unfold shr.
    destruct (fexp64 (0 + g) - g) as [|p|p] eqn:En;
      [reflexivity| unfold fexp64 in En; lia | reflexivity].
  - destruct (Z.ltb_spec r (2 ^ 53)) as [Hlt|Hge].
    + assert (Zdigits2 r <= 53) as Hd.
      { destruct (Z.le_gt_cases (Zdigits2 r) 53) as [|Hgt]; [assumption|].
        apply Zdigits2_gt in Hgt; lia. }
      unfold shr.
      destruct (fexp64 (Zdigits2 r + g) - g) as [|p|p] eqn:En;
        [| unfold fexp64 in En; lia |];
        cbn [shr_record_of_loc shr_m fst snd];
        (destruct r as [|pr|pr]; [lia| |lia]); rewrite Pos2Z.id; reflexivity.
    + assert (r = 2 ^ 53) as -> by lia.
      change (Zdigits2 (2 ^ 53)) with 54.
      assert (fexp64 (54 + g) - g = 1) as -> by (unfold fexp64; lia).
      reflexivity.
Qed.

Lemma sticky_shift_ge_4 n m lc :
  0 <= m -> 0 <= n -> 0 <= lc <= 3 ->
  (4 <= sticky_shift n (4 * m + lc) <-> n < Zdigits2 m).
Proof.
  intros Hm Hn Hlc.
  pose proof (sticky_shift_div4 n m lc Hn Hlc) as E.
  rewrite <- (Zdigits2_gt m n Hm Hn).
  assert (0 < 2 ^ n) as HP by (apply Z.pow_pos_nonneg; lia).
  split; intros H.
  - assert (1 <= m / 2 ^ n) as H1 by (rewrite <- E; Z.div_mod_to_equations; lia).
    Z.div_mod_to_equations. nia.
  - assert (1 <= m / 2 ^ n) as H1 by (apply Z.div_le_lower_bound; lia).
    rewrite <- E in H1. Z.div_mod_to_equations. lia.
Qed.

(** The smaller number is rounded at the smaller exponent. *)
Lemma target_exponent_mono m1 e1 l1 m2 e2 l2 :
  0 <= m1 -> 0 <= m2 ->
  e1 <= fexp64 (Zdigits2 m1 + e1) ->
  triple_le m1 e1 l1 m2 e2 l2 ->
  fexp64 (Zdigits2 m1 + e1) <= fexp64 (Zdigits2 m2 + e2).
Proof.
  intros Hm1 Hm2 He1 Hle.
  destruct (Z.le_gt_cases (Zdigits2 m1 + e1) (Zdigits2 m2 + e2)) as [|Hgt].
  { apply fexp64_mono. assumption. }
  destruct (Z.eq_dec m1 0) as [->|Hm0].
  { cbn [Zdigits2] in *. unfold fexp64 in *. lia. }
  exfalso.
  pose proof (Zdigits2_pos m1 ltac:(lia)) as Hd1.
  pose proof (Zdigits2_nonneg m2) as Hd2.
  set (G := Z.max (Zdigits2 m2 + e2) e1).
  specialize (Hle G ltac:(lia) ltac:(lia)).
  assert (4 <= sticky_shift (G - e1) (4 * m1 + loc_code l1)) as H4.
  { apply sticky_shift_ge_4; [lia|lia|apply loc_code_bounds|lia]. }
  assert (4 <= sticky_shift (G - e2) (4 * m2 + loc_code l2)) as H4' by lia.
  apply sticky_shift_ge_4 in H4'; [lia|lia|lia|apply loc_code_bounds].
Qed.

Lemma SFleb_finite_same_exponent (m1 m2 : positive) (e : Z) :
  (m1 <= m2)%positive ->
  SFleb (S754_finite false m1 e) (S754_finite false m2 e) = true.
Proof.
  intros H. unfold SFleb, SFcompare. rewrite Z.compare_refl.
  change (Pos.compare_cont Eq m1 m2) with (m1 ?= m2)%positive.
  destruct (Pos.compare_spec m1 m2); try reflexivity. lia.
Qed.

Lemma SFleb_finite_lt_exponent (m1 m2 : positive) (e1 e2 : Z) :
  e1 < e2 ->
  SFleb (S754_finite false m1 e1) (S754_finite false m2 e2) = true.
Proof.
  intros H. unfold SFleb, SFcompare.
  destruct (Z.compare_spec e1 e2); try reflexivity; lia.
Qed.

Lemma finish_le_same g r1 r2 :
  0 <= r1 -> r1 <= r2 -> r2 <= 2 ^ 53 ->
  SFleb (finish false r1 g) (finish false r2 g) = true.
Proof.
  intros H0 H12 H2. unfold finish.
  destruct (Z.eqb_spec r1 0), (Z.eqb_spec r2 0), (Z.ltb_spec r1 (2 ^ 53)),
    (Z.ltb_spec r2 (2 ^ 53)), (Z.leb_spec g 971), (Z.leb_spec (g + 1) 971);
    try lia; try reflexivity;
    try (apply SFleb_finite_same_exponent; lia);
    try (apply SFleb_finite_lt_exponent; lia).
Qed.

Lemma finish_le_lt g1 g2 r1 r2 :
  g1 < g2 -> 0 <= r1 -> r1 <= 2 ^ 53 -> 2 ^ 52 <= r2 -> r2 <= 2 ^ 53 ->
  SFleb (finish false r1 g1) (finish false r2 g2) = true.
Proof.
  intros Hg H0 H1 H2 H3. unfold finish.
  destruct (Z.eqb_spec r1 0), (Z.eqb_spec r2 0), (Z.ltb_spec r1 (2 ^ 53)),
    (Z.ltb_spec r2 (2 ^ 53)), (Z.leb_spec g1 971), (Z.leb_spec (g1 + 1) 971),
    (Z.leb_spec g2 971), (Z.leb_spec (g2 + 1) 971);
    try lia; try reflexivity;
    try (apply SFleb_finite_lt_exponent; lia);
    try (destruct (Z.eq_dec (g1 + 1) g2) as [<-|];
         [apply SFleb_finite_same_exponent; lia
         |apply SFleb_finite_lt_exponent; lia]).
Qed.

Lemma rounded_bounds m e l :
  0 <= m -> e <= fexp64 (Zdigits2 m + e) ->
  0 <= sticky_shift (fexp64 (Zdigits2 m + e) - e) (4 * m + loc_code l) /\
  0 <= rne (sticky_shift (fexp64 (Zdigits2 m + e) - e) (4 * m + loc_code l)) <= 2 ^ 53.
Proof.
  intros Hm He.
  set (g := fexp64 (Zdigits2 m + e)) in *.
  set (K := sticky_shift (g - e) (4 * m + loc_code l)).
  assert (0 <= K / 4 < 2 ^ 53) as HK.
  { unfold K. rewrite sticky_shift_div4 by (pose proof (loc_code_bounds l); lia).
    split; [apply Z.div_pos; [lia|apply Z.pow_pos_nonneg; lia]|].
    apply shifted_mantissa_bound; assumption. }
  assert (0 <= K) as HK0.
  { assert (0 <= K / 4) by lia. Z.div_mod_to_equations. lia. }
  pose proof (rne_bounds K HK0). lia.
Qed.

(** Rounding is monotone. *)
Lemma binary_round_aux_mono m1 e1 l1 m2 e2 l2 :
  0 <= m1 -> 0 <= m2 ->
  e1 <= fexp64 (Zdigits2 m1 + e1) ->
  e2 <= fexp64 (Zdigits2 m2 + e2) ->
  triple_le m1 e1 l1 m2 e2 l2 ->
  SFleb (binary_round_aux prec emax false m1 e1 l1)
        (binary_round_aux prec emax false m2 e2 l2) = true.
Proof.
  intros Hm1 Hm2 He1 He2 Hle.
  rewrite !binary_round_aux_finish by assumption.
  pose proof (target_exponent_mono _ _ _ _ _ _ Hm1 Hm2 He1 Hle) as Hg.
  destruct (rounded_bounds m1 e1 l1 Hm1 He1) as [HK1 Hr1].
  destruct (rounded_bounds m2 e2 l2 Hm2 He2) as [HK2 Hr2].
  set (g1 := fexp64 (Zdigits2 m1 + e1)) in *.
  set (g2 := fexp64 (Zdigits2 m2 + e2)) in *.
  destruct (Z.eq_dec g1 g2) as [E|N].
  - pose proof (Hle g2 ltac:(lia) ltac:(lia)) as HK.
    clearbody g1 g2. subst g1.
    apply finish_le_same; [lia| |lia].
    apply rne_mono; [lia|exact HK].
  - apply finish_le_lt; try lia.
    set (K := sticky_shift (g2 - e2) (4 * m2 + loc_code l2)) in *.
    pose proof (rne_bounds K HK2) as [Hlo _].
    assert (2 ^ 52 <= K / 4); [|lia].
    unfold K. rewrite sticky_shift_div4 by (pose proof (loc_code_bounds l2); lia).
    assert (g2 = Zdigits2 m2 + e2 - 53) as Eg.
    { pose proof (fexp64_ge (Zdigits2 m1 + e1)). unfold g1, g2, fexp64 in *. lia. }
    destruct (Z.eq_dec m2 0) as [->|Hm0].
    { cbn [Zdigits2] in *. unfold g1, g2, fexp64 in *. lia. }
    pose proof (Zdigits2_bounds m2 ltac:(lia)) as [Hlo2 _].
    apply Z.div_le_lower_bound; [apply Z.pow_pos_nonneg; lia|].
    rewrite <- Z.pow_add_r by lia.
    replace (g2 - e2 + 52) with (Zdigits2 m2 - 1) by lia. exact Hlo2.
Qed.

(** *** Quotients *)

Lemma sticky_shift_codeQ n N D :
  0 <= n -> 0 < D -> sticky_shift n (codeQ N D) = codeQ N (D * 2 ^ n).
Proof.
  intros Hn HD. unfold sticky_shift, codeQ.
  replace (n + 1) with (1 + n) by lia.
  rewrite (Z.pow_add_r 2 1 n) by lia. change (2 ^ 1) with 2.
  assert (0 < 2 ^ n) as HQ by (apply Z.pow_pos_nonneg; lia).
  set (Q := 2 ^ n) in *. set (c := 2 * N).
  rewrite <- (Z.div_div c D Q) by lia.
  rewrite (Z.rem_mul_r c D Q) by lia.
  set (u := c / D). set (v := c mod D).
  assert (0 <= v < D) as Hv by (apply Z.mod_pos_bound; lia).
  assert (0 <= u mod Q < Q) as Hu by (apply Z.mod_pos_bound; lia).
  destruct (Z.eqb_spec v 0) as [Ev|Ev].
  - rewrite Z.add_0_r.
    rewrite <- (Z.div_div (2 * u) 2 Q) by lia.
    replace (2 * u / 2) with u by (Z.div_mod_to_equations; lia).
    rewrite (Z.rem_mul_r (2 * u) 2 Q) by lia.
    replace ((2 * u) mod 2) with 0 by (Z.div_mod_to_equations; lia).
    replace (2 * u / 2) with u by (Z.div_mod_to_equations; lia).
    rewrite Ev.
    destruct (Z.eqb_spec (0 + 2 * (u mod Q)) 0), (Z.eqb_spec (0 + D * (u mod Q)) 0);
      try reflexivity; exfalso; nia.
  - rewrite <- (Z.div_div (2 * u + 1) 2 Q) by lia.
    replace ((2 * u + 1) / 2) with u by (Z.div_mod_to_equations; lia).
    rewrite (Z.rem_mul_r (2 * u + 1) 2 Q) by lia.
    replace ((2 * u + 1) mod 2) with 1 by (Z.div_mod_to_equations; lia).
    replace ((2 * u + 1) / 2) with u by (Z.div_mod_to_equations; lia).
    destruct (Z.eqb_spec (1 + 2 * (u mod Q)) 0), (Z.eqb_spec (v + D * (u mod Q)) 0);
      try reflexivity; exfalso; nia.
Qed.

Lemma codeQ_scale N D k : 0 < D -> 0 < k -> codeQ (N * k) (D * k) = codeQ N D.
Proof.
  intros HD Hk. unfold codeQ.
  replace (2 * (N * k)) with (2 * N * k) by lia.
  rewrite Z.div_mul_cancel_r by lia.
  rewrite Z.mul_mod_distr_r by lia.
  destruct (Z.eqb_spec ((2 * N) mod D) 0) as [E|E].
  - rewrite E. reflexivity.
  - destruct (Z.eqb_spec ((2 * N) mod D * k) 0); [exfalso; nia|reflexivity].
Qed.

Lemma codeQ_mono N N' D : 0 < D -> N <= N' -> codeQ N D <= codeQ N' D.
Proof.
  intros HD H. unfold codeQ.
  destruct (Z.eqb_spec ((2 * N) mod D) 0), (Z.eqb_spec ((2 * N') mod D) 0);
    Z.div_mod_to_equations; nia.
Qed.

Lemma div_mod_small_rest a b D :
  0 < D -> 0 <= b < D -> (a * D + b) / D = a /\ (a * D + b) mod D = b.
Proof.
  intros HD Hb. split.
  - symmetry. apply (Z.div_unique_pos _ _ a b); lia.
  - symmetry. apply (Z.mod_unique_pos _ _ a b); lia.
Qed.

(** The location computed by the division is the code of the quotient. *)

Lemma new_location_code D q r :
  0 < D -> 0 <= r < D ->
  4 * q + loc_code (new_location D r) = codeQ (q * D + r) D.
Proof.
  intros HD Hr. unfold codeQ.
  unfold new_location, new_location_even, new_location_odd.
  rewrite Zeven_mod.
  assert ((2 * r < D /\ 2 * (q * D + r) = (2 * q) * D + 2 * r) \/
          (D <= 2 * r /\ 2 * (q * D + r) = (2 * q + 1) * D + (2 * r - D))) as Hcase by lia.
  destruct (Z.eqb_spec r 0) as [->|Hr0].
  { destruct Hcase as [[_ ->]|[? _]]; [|lia].
    destruct (div_mod_small_rest (2 * q) (2 * 0) D) as [-> ->]; [lia|lia|].
    destruct (D mod 2 =? 0); cbn beta iota;
      change (2 * 0 =? 0) with true; change (0 =? 0) with true;
      cbn [loc_code]; lia. }
  pose proof (proj2 (Z.eqb_neq r 0) Hr0) as Hr0'.
  destruct (Z.eqb_spec (D mod 2) 0) as [Ev|Od]; rewrite Hr0'.
  - destruct (Z.compare_spec (2 * r) D) as [E|L|G]; cbn [loc_code];
      destruct Hcase as [[Hlt ->]|[Hge ->]]; try lia;
      match goal with
      | |- context [(?a * D + ?b) / D] =>
          destruct (div_mod_small_rest a b D) as [-> ->]; [lia|lia|]
      end;
      match goal with
      | |- context [?x =? 0] => destruct (Z.eqb_spec x 0)
      end; lia.
  - assert (2 * r <> D) by (intros <-; apply Od; Z.div_mod_to_equations; lia).
    destruct (Z.compare_spec (2 * r + 1) D) as [E|L|G]; cbn [loc_code];
      destruct Hcase as [[Hlt ->]|[Hge ->]]; try lia;
      match goal with
      | |- context [(?a * D + ?b) / D] =>
          destruct (div_mod_small_rest a b D) as [-> ->]; [lia|lia|]
      end;
      match goal with
      | |- context [?x =? 0] => destruct (Z.eqb_spec x 0)
      end; lia.
Qed.

(** *** Valid numbers and their order *)

Lemma valid_finite s m e :
  valid_binary (S754_finite s m e) = true ->
  fexp64 (Zdigits2 (Z.pos m) + e) = e /\ e <= 971.
Proof.
  cbn [SpecFloat.valid_binary]. unfold bounded, canonical_mantissa.
  rewrite fexp_64. intros H. apply andb_prop in H as [H1 H2].
  apply Z.eqb_eq in H1. apply Z.leb_le in H2.
  cbn [Zdigits2]. change (emax - prec) with 971 in H2. split; assumption.
Qed.

Lemma SFleb_finite_inv m1 e1 m2 e2 :
  SFleb (S754_finite false m1 e1) (S754_finite false m2 e2) = true ->
  e1 < e2 \/ (e1 = e2 /\ (m1 <= m2)%positive).
Proof.
  unfold SFleb, SFcompare.
  destruct (Z.compare_spec e1 e2) as [E|L|G]; [|left; lia|discriminate].
  change (Pos.compare_cont Eq m1 m2) with (m1 ?= m2)%positive.
  destruct (Pos.compare_spec m1 m2); try discriminate; intros _; right; lia.
Qed.

Lemma valid_le_scaled m1 e1 m2 e2 :
  valid_binary (S754_finite false m1 e1) = true ->
  valid_binary (S754_finite false m2 e2) = true ->
  SFleb (S754_finite false m1 e1) (S754_finite false m2 e2) = true ->
  e1 <= e2 /\
  Z.pos m1 <= Z.pos m2 * 2 ^ (e2 - e1) /\
  Zdigits2 (Z.pos m1) + e1 <= Zdigits2 (Z.pos m2) + e2.
Proof.
  intros V1 V2 H.
  apply valid_finite in V1 as [C1 _]. apply valid_finite in V2 as [C2 _].
  apply SFleb_finite_inv in H as [L|[-> L]].
  - pose proof (Zdigits2_bounds (Z.pos m1) ltac:(lia)) as [_ Hhi1].
    pose proof (Zdigits2_bounds (Z.pos m2) ltac:(lia)) as [Hlo2 _].
    assert (Zdigits2 (Z.pos m1) <= 53) as D1 by (unfold fexp64 in C1; lia).
    assert (Zdigits2 (Z.pos m2) = 53) as D2 by (unfold fexp64 in C1, C2; lia).
    rewrite D2 in Hlo2. change (2 ^ (53 - 1)) with (2 ^ 52) in Hlo2.
    assert (2 ^ Zdigits2 (Z.pos m1) <= 2 ^ 53) by (apply Z.pow_le_mono_r; lia).
    assert (2 ^ 1 <= 2 ^ (e2 - e1)) by (apply Z.pow_le_mono_r; lia).
    change (2 ^ 1) with 2 in *. change (2 ^ 53) with (2 * 2 ^ 52) in *.
    repeat split; [lia|nia|lia].
  - rewrite Z.sub_diag, Z.mul_1_r.
    repeat split; [lia|lia|].
    pose proof (Zdigits2_mono (Z.pos m1) (Z.pos m2) ltac:(lia) ltac:(lia)). lia.
Qed.

Lemma triple_le_exact M1 e1 M2 e2 E :
  E <= e1 -> E <= e2 ->
  M1 * 2 ^ (e1 - E) <= M2 * 2 ^ (e2 - E) ->
  triple_le M1 e1 loc_Exact M2 e2 loc_Exact.
Proof.
  intros H1 H2 H G HG1 HG2. cbn [loc_code]. rewrite !Z.add_0_r.
  rewrite <- (sticky_shift_scale (G - e1) (e1 - E)) by lia.
  rewrite <- (sticky_shift_scale (G - e2) (e2 - E) (4 * M2)) by lia.
  replace (G - e1 + (e1 - E)) with (G - E) by lia.
  replace (G - e2 + (e2 - E)) with (G - E) by lia.
  apply sticky_shift_mono; lia.
Qed.

Lemma finish_nonneg r g : nonneg_class (finish false r g) = true.
Proof.
  unfold finish.
  destruct (r =? 0), (r <? 2 ^ 53), (g <=? 971), (g + 1 <=? 971); reflexivity.
Qed.

Lemma binary_round_aux_nonneg m e l :
  0 <= m -> e <= fexp64 (Zdigits2 m + e) ->
  nonneg_class (binary_round_aux prec emax false m e l) = true.
Proof.
  intros Hm He. rewrite binary_round_aux_finish by assumption. apply finish_nonneg.
Qed.

Lemma SFleb_zero_nonneg s y : nonneg_class y = true -> SFleb (S754_zero s) y = true.
Proof. destruct y as [|[]| |[]]; try discriminate; reflexivity. Qed.

Lemma SFleb_nonneg_infinity x :
  nonneg_class x = true -> SFleb x (S754_infinity false) = true.
Proof. destruct x as [|[]| |[]]; try discriminate; reflexivity. Qed.

Lemma Zdigits2_mul_ge a b :
  0 < a -> 0 < b -> Zdigits2 a + Zdigits2 b - 1 <= Zdigits2 (a * b).
Proof.
  intros Ha Hb.
  pose proof (Zdigits2_bounds a Ha) as [La _].
  pose proof (Zdigits2_bounds b Hb) as [Lb _].
  pose proof (Zdigits2_pos a Ha). pose proof (Zdigits2_pos b Hb).
  assert (Zdigits2 a + Zdigits2 b - 2 < Zdigits2 (a * b)); [|lia].
  apply Zdigits2_gt; [nia|lia|].
  replace (Zdigits2 a + Zdigits2 b - 2) with ((Zdigits2 a - 1) + (Zdigits2 b - 1)) by lia.
  rewrite Z.pow_add_r by lia.
  assert (0 < 2 ^ (Zdigits2 a - 1)) by (apply Z.pow_pos_nonneg; lia).
  assert (0 < 2 ^ (Zdigits2 b - 1)) by (apply Z.pow_pos_nonneg; lia).
  nia.
Qed.

(** Multiplication by a normal positive constant is monotone. *)

Lemma SFmul_mono x1 x2 mc ec :
  valid_binary x1 = true -> valid_binary x2 = true ->
  nonneg_class x1 = true -> nonneg_class x2 = true ->
  Zdigits2 (Z.pos mc) = 53 ->
  SFleb x1 x2 = true ->
  SFleb (SF64mul x1 (S754_finite false mc ec)) (SF64mul x2 (S754_finite false mc ec)) = true /\
  nonneg_class (SF64mul x1 (S754_finite false mc ec)) = true /\
  nonneg_class (SF64mul x2 (S754_finite false mc ec)) = true.
Proof.
  intros V1 V2 N1 N2 Dc H.
  assert (forall m e, valid_binary (S754_finite false m e) = true ->
            e + ec <= fexp64 (Zdigits2 (Z.pos (m * mc)) + (e + ec))) as Fine.
  { intros m e V. apply valid_finite in V as [C _].
    pose proof (Zdigits2_mul_ge (Z.pos m) (Z.pos mc) ltac:(lia) ltac:(lia)) as Hd.
    pose proof (Zdigits2_pos (Z.pos m) ltac:(lia)).
    rewrite Pos2Z.inj_mul. unfold fexp64 in *. lia. }
  unfold SF64mul.
  destruct x1 as [s1|[]| |[] m1 e1]; try discriminate;
    destruct x2 as [s2|[]| |[] m2 e2]; try discriminate;
    cbn [SFmul xorb];
    try (repeat split; reflexivity).
  - (* zero, finite *)
    pose proof (binary_round_aux_nonneg (Z.pos (m2 * mc)) (e2 + ec) loc_Exact
                  ltac:(lia) (Fine _ _ V2)) as Hn.
    repeat split; [apply SFleb_zero_nonneg; exact Hn|exact Hn].
  - (* finite, infinity *)
    pose proof (binary_round_aux_nonneg (Z.pos (m1 * mc)) (e1 + ec) loc_Exact
                  ltac:(lia) (Fine _ _ V1)) as Hn.
    repeat split; [apply SFleb_nonneg_infinity; exact Hn|exact Hn].
  - (* finite, finite *)
    destruct (valid_le_scaled m1 e1 m2 e2 V1 V2 H) as (He & Hm & _).
    repeat split;
      [|apply binary_round_aux_nonneg; [lia|apply Fine; assumption]
       |apply binary_round_aux_nonneg; [lia|apply Fine; assumption]].
    apply binary_round_aux_mono; [lia|lia|apply Fine; assumption|apply Fine; assumption|].
    apply (triple_le_exact _ _ _ _ (e1 + ec)); [lia|lia|].
    rewrite Z.sub_diag, Z.mul_1_r, !Pos2Z.inj_mul.
    replace (e2 + ec - (e1 + ec)) with (e2 - e1) by lia. nia.
Qed.

(** *** Division *)

Lemma Zdigits2_div_ge a b :
  0 < a -> 0 < b -> Zdigits2 a - Zdigits2 b <= Zdigits2 (a / b).
Proof.
  intros Ha Hb.
  pose proof (Zdigits2_nonneg (a / b)).
  destruct (Z.le_gt_cases (Zdigits2 a - Zdigits2 b) 0) as [|Hgt]; [lia|].
  pose proof (Zdigits2_bounds a Ha) as [La _].
  pose proof (Zdigits2_bounds b Hb) as [_ Ub].
  assert (Zdigits2 a - Zdigits2 b - 1 < Zdigits2 (a / b)); [|lia].
  apply Zdigits2_gt; [apply Z.div_pos; lia|lia|].
  apply Z.div_le_lower_bound; [lia|].
  assert (0 < 2 ^ (Zdigits2 a - Zdigits2 b - 1)) by (apply Z.pow_pos_nonneg; lia).
  assert (2 ^ (Zdigits2 a - 1) = 2 ^ (Zdigits2 a - Zdigits2 b - 1) * 2 ^ Zdigits2 b) as E.
  { rewrite <- Z.pow_add_r by (pose proof (Zdigits2_nonneg b); lia). f_equal. lia. }
  nia.
Qed.

Lemma SFdiv_core_binary_code (mx my : positive) (ex ey : Z) :
  exists q l,
    SFdiv_core_binary prec emax (Z.pos mx) ex (Z.pos my) ey =
      (q, div_exponent (Z.pos mx) ex (Z.pos my) ey, l) /\
    q = div_numerator (Z.pos mx) ex (Z.pos my) ey / Z.pos my /\
    4 * q + loc_code l = codeQ (div_numerator (Z.pos mx) ex (Z.pos my) ey) (Z.pos my).
Proof.
  unfold SFdiv_core_binary, div_numerator, div_exponent. rewrite fexp_64.
  set (e' := Z.min _ _).
  assert (0 <= ex - ey - e') as Hs by (unfold e'; lia).
  set (s := ex - ey - e') in *.
  set (m' := match s with Z.pos _ => Z.shiftl (Z.pos mx) s | 0 => Z.pos mx | Z.neg _ => 0 end).
  assert (m' = Z.pos mx * 2 ^ s) as Em.
  { unfold m'. destruct s as [|p|p] eqn:Es.
    - rewrite Z.mul_1_r. reflexivity.
    - apply Z.shiftl_mul_pow2. lia.
    - lia. }
  pose proof (Z_div_mod m' (Z.pos my) ltac:(lia)) as Hdm.
  destruct (Z.div_eucl m' (Z.pos my)) as [q r]. destruct Hdm as [Eq Hr].
  exists q, (new_location (Z.pos my) r).
  rewrite <- Em. repeat split.
  - apply (Z.div_unique_pos m' (Z.pos my) q r); lia.
  - rewrite new_location_code by lia. f_equal. lia.
Qed.

Lemma div_fine (mx my : positive) (ex ey : Z) :
  div_exponent (Z.pos mx) ex (Z.pos my) ey <=
  fexp64 (Zdigits2 (div_numerator (Z.pos mx) ex (Z.pos my) ey / Z.pos my) +
          div_exponent (Z.pos mx) ex (Z.pos my) ey).
Proof.
  set (e' := div_exponent (Z.pos mx) ex (Z.pos my) ey).
  assert (0 <= ex - ey - e') as Hs by (unfold e', div_exponent; lia).
  unfold div_numerator. fold e'.
  assert (0 < 2 ^ (ex - ey - e')) by (apply Z.pow_pos_nonneg; lia).
  pose proof (Zdigits2_div_ge (Z.pos mx * 2 ^ (ex - ey - e')) (Z.pos my)
                ltac:(nia) ltac:(lia)) as Hd.
  rewrite Zdigits2_mul_pow2 in Hd by lia.
  etransitivity; [|apply fexp64_mono with (e := Zdigits2 (Z.pos mx) + ex - (Zdigits2 (Z.pos my) + ey)); lia].
  unfold e', div_exponent. lia.
Qed.

(** Division by a positive finite number is monotone. *)

Lemma SFdiv_mono x1 x2 my ey :
  valid_binary x1 = true -> valid_binary x2 = true ->
  nonneg_class x1 = true -> nonneg_class x2 = true ->
  SFleb x1 x2 = true ->
  SFleb (SF64div x1 (S754_finite false my ey)) (SF64div x2 (S754_finite false my ey)) = true /\
  nonneg_class (SF64div x1 (S754_finite false my ey)) = true /\
  nonneg_class (SF64div x2 (S754_finite false my ey)) = true.
Proof.
  intros V1 V2 N1 N2 H.
  assert (forall mx ex,
            exists q l,
              SF64div (S754_finite false mx ex) (S754_finite false my ey) =
                binary_round_aux prec emax false q (div_exponent (Z.pos mx) ex (Z.pos my) ey) l /\
              0 <= q /\
              div_exponent (Z.pos mx) ex (Z.pos my) ey <=
                fexp64 (Zdigits2 q + div_exponent (Z.pos mx) ex (Z.pos my) ey) /\
              4 * q + loc_code l = codeQ (div_numerator (Z.pos mx) ex (Z.pos my) ey) (Z.pos my))
    as Div.
  { intros mx ex. destruct (SFdiv_core_binary_code mx my ex ey) as (q & l & E & Eq & Ec).
    exists q, l. unfold SF64div. cbn [SFdiv xorb]. rewrite E.
    repeat split; [|rewrite Eq; apply div_fine|exact Ec].
    rewrite Eq. apply Z.div_pos; [|lia].
    unfold div_numerator.
    assert (0 <= 2 ^ (ex - ey - div_exponent (Z.pos mx) ex (Z.pos my) ey))
      by (apply Z.pow_nonneg; lia).
    nia. }
  destruct x1 as [s1|[]| |[] m1 e1]; try discriminate;
    destruct x2 as [s2|[]| |[] m2 e2]; try discriminate;
    try (repeat split; reflexivity).
  - (* zero, finite *)
    destruct (Div m2 e2) as (q & l & -> & Hq & Hf & _).
    pose proof (binary_round_aux_nonneg q _ l Hq Hf) as Hn.
    repeat split; [apply SFleb_zero_nonneg; exact Hn|exact Hn].
  - (* finite, infinity *)
    destruct (Div m1 e1) as (q & l & -> & Hq & Hf & _).
    pose proof (binary_round_aux_nonneg q _ l Hq Hf) as Hn.
    repeat split; [apply SFleb_nonneg_infinity; exact Hn|exact Hn].
  - (* finite, finite *)
    destruct (valid_le_scaled m1 e1 m2 e2 V1 V2 H) as (He & Hm & Hd).
    destruct (Div m1 e1) as (q1 & l1 & -> & Hq1 & Hf1 & Hc1).
    destruct (Div m2 e2) as (q2 & l2 & -> & Hq2 & Hf2 & Hc2).
    repeat split; [|apply binary_round_aux_nonneg; assumption
                   |apply binary_round_aux_nonneg; assumption].
    apply binary_round_aux_mono; try assumption.
    intros G HG1 HG2. rewrite Hc1, Hc2.
    rewrite !sticky_shift_codeQ by lia.
    set (E1 := div_exponent (Z.pos m1) e1 (Z.pos my) ey) in *.
    set (E2 := div_exponent (Z.pos m2) e2 (Z.pos my) ey) in *.
    assert (E1 <= E2) as HE.
    { unfold E1, E2, div_exponent.
      pose proof (fexp64_mono (Zdigits2 (Z.pos m1) + e1 - (Zdigits2 (Z.pos my) + ey))
                    (Zdigits2 (Z.pos m2) + e2 - (Zdigits2 (Z.pos my) + ey)) ltac:(lia)).
      lia. }
    assert (0 < 2 ^ (E2 - E1)) as HP by (apply Z.pow_pos_nonneg; lia).
    assert (0 < 2 ^ (G - E2)) as HP2 by (apply Z.pow_pos_nonneg; lia).
    rewrite <- (codeQ_scale (div_numerator (Z.pos m2) e2 (Z.pos my) ey)
                  (Z.pos my * 2 ^ (G - E2)) (2 ^ (E2 - E1))) by nia.
    replace (Z.pos my * 2 ^ (G - E2) * 2 ^ (E2 - E1)) with (Z.pos my * 2 ^ (G - E1)).
    2:{ rewrite <- Z.mul_assoc, <- Z.pow_add_r by lia. do 2 f_equal. lia. }
    apply codeQ_mono; [apply Z.mul_pos_pos; [lia|apply Z.pow_pos_nonneg; lia]|].
    unfold div_numerator. fold E1 E2.
    assert (0 <= e1 - ey - E1) as Hs1 by (unfold E1, div_exponent; lia).
    assert (0 <= e2 - ey - E2) as Hs2 by (unfold E2, div_exponent; lia).
    rewrite <- Z.mul_assoc, <- Z.pow_add_r by lia.
    replace (e2 - ey - E2 + (E2 - E1)) with ((e2 - e1) + (e1 - ey - E1)) by lia.
    rewrite Z.pow_add_r by lia.
    assert (0 < 2 ^ (e1 - ey - E1)) by (apply Z.pow_pos_nonneg; lia).
    nia.
Qed.

(** *** Subtraction *)

Lemma iter_xO_pow2 (m d : positive) : Z.pos (Pos.iter xO m d) = Z.pos m * 2 ^ Z.pos d.
Proof.
  induction d as [|d IH] using Pos.peano_ind.
  - cbn [Pos.iter]. rewrite Pos2Z.inj_xO. change (2 ^ 1) with 2. lia.
  - rewrite Pos.iter_succ, Pos2Z.inj_xO, IH, Pos2Z.inj_succ, Z.pow_succ_r by lia. lia.
Qed.

(** [shl_align] towards a smaller exponent keeps the value. *)

Lemma shl_align_spec (m : positive) (e e' : Z) :
  exists m' : positive,
    shl_align m e e' = (m', Z.min e e') /\
    Z.pos m' = Z.pos m * 2 ^ (e - Z.min e e').
Proof.
  unfold shl_align. destruct (e' - e) as [|p|p] eqn:E.
  - exists m. replace (Z.min e e') with e by lia.
    rewrite Z.sub_diag, Z.mul_1_r. split; reflexivity.
  - exists m. replace (Z.min e e') with e by lia.
    rewrite Z.sub_diag, Z.mul_1_r. split; reflexivity.
  - exists (Pos.iter xO m p). replace (Z.min e e') with e' by lia.
    split; [reflexivity|]. rewrite iter_xO_pow2. do 2 f_equal. lia.
Qed.

Lemma binary_round_aux_form (m : positive) (e : Z) :
  exists (m' : positive) (e' : Z),
    (forall sx, binary_round prec emax sx m e =
                binary_round_aux prec emax sx (Z.pos m') e' loc_Exact) /\
    e' <= e /\
    Z.pos m' = Z.pos m * 2 ^ (e - e') /\
    e' <= fexp64 (Zdigits2 (Z.pos m') + e').
Proof.
  unfold binary_round. rewrite fexp_64.
  change (Z.pos (digits2_pos m)) with (Zdigits2 (Z.pos m)).
  destruct (shl_align_spec m e (fexp64 (Zdigits2 (Z.pos m) + e))) as (m' & E & Em).
  rewrite E. exists m', (Z.min e (fexp64 (Zdigits2 (Z.pos m) + e))).
  repeat split; [lia|exact Em|].
  rewrite Em, Zdigits2_mul_pow2 by lia.
  replace (Zdigits2 (Z.pos m) + (e - Z.min e (fexp64 (Zdigits2 (Z.pos m) + e))) +
           Z.min e (fexp64 (Zdigits2 (Z.pos m) + e)))
    with (Zdigits2 (Z.pos m) + e) by lia.
  lia.
Qed.

Lemma finish_opp r g : finish true r g = SFopp (finish false r g).
Proof.
  unfold finish.
  destruct (r =? 0), (r <? 2 ^ 53), (g <=? 971), (g + 1 <=? 971); reflexivity.
Qed.

Lemma binary_round_opp (m : positive) (e : Z) :
  binary_round prec emax true m e = SFopp (binary_round prec emax false m e).
Proof.
  destruct (binary_round_aux_form m e) as (m1 & e1 & E1 & _ & _ & F1).
  rewrite !E1, !binary_round_aux_finish by (assumption || lia).
  apply finish_opp.
Qed.

Lemma binary_round_nonneg (m : positive) (e : Z) :
  nonneg_class (binary_round prec emax false m e) = true.
Proof.
  destruct (binary_round_aux_form m e) as (m1 & e1 & E1 & _ & _ & F1).
  rewrite E1. apply binary_round_aux_nonneg; [lia|assumption].
Qed.

(** Rounding positive integers scaled by powers of two is monotone. *)

Lemma binary_round_mono (m1 m2 : positive) (e1 e2 E : Z) :
  E <= e1 -> E <= e2 ->
  Z.pos m1 * 2 ^ (e1 - E) <= Z.pos m2 * 2 ^ (e2 - E) ->
  SFleb (binary_round prec emax false m1 e1) (binary_round prec emax false m2 e2) = true.
Proof.
  intros H1 H2 H.
  destruct (binary_round_aux_form m1 e1) as (a1 & f1 & -> & L1 & M1 & F1).
  destruct (binary_round_aux_form m2 e2) as (a2 & f2 & -> & L2 & M2 & F2).
  apply binary_round_aux_mono; [lia|lia|assumption|assumption|].
  apply (triple_le_exact _ _ _ _ (Z.min E (Z.min f1 f2))); [lia|lia|].
  set (F := Z.min E (Z.min f1 f2)).
  rewrite M1, M2, <- !Z.mul_assoc, <- !Z.pow_add_r by lia.
  replace (e1 - f1 + (f1 - F)) with ((e1 - E) + (E - F)) by lia.
  replace (e2 - f2 + (f2 - F)) with ((e2 - E) + (E - F)) by lia.
  rewrite !Z.pow_add_r by lia.
  assert (0 < 2 ^ (E - F)) by (apply Z.pow_pos_nonneg; lia).
  nia.
Qed.

(** Negation reverses the order of non-negative numbers. *)

Lemma SFleb_opp a b :
  nonneg_class a = true -> nonneg_class b = true ->
  SFleb a b = true -> SFleb (SFopp b) (SFopp a) = true.
Proof.
  destruct a as [sa|[]| |[] ma ea]; try discriminate;
    destruct b as [sb|[]| |[] mb eb]; try discriminate;
    intros _ _ H; try reflexivity; try discriminate.
  apply SFleb_finite_inv in H as [L|[-> L]];
    unfold SFleb, SFopp, SFcompare; cbn [negb].
  - destruct (Z.compare_spec eb ea); try reflexivity; lia.
  - rewrite Z.compare_refl.
    change (Pos.compare_cont Eq mb ma) with (mb ?= ma)%positive.
    destruct (Pos.compare_spec mb ma); try reflexivity. lia.
Qed.

Lemma SFleb_neg_nonneg a b :
  nonneg_class a = true -> nonneg_class b = true -> SFleb (SFopp a) b = true.
Proof.
  destruct a as [sa|[]| |[] ma ea]; try discriminate;
    destruct b as [sb|[]| |[] mb eb]; try discriminate; reflexivity.
Qed.

(** Rounding an integer scaled by a power of two is monotone. *)

Lemma binary_normalize_mono (z1 z2 e1 e2 E : Z) :
  E <= e1 -> E <= e2 ->
  z1 * 2 ^ (e1 - E) <= z2 * 2 ^ (e2 - E) ->
  SFleb (binary_normalize prec emax z1 e1 false)
        (binary_normalize prec emax z2 e2 false) = true.
Proof.
  intros H1 H2 H.
  assert (0 < 2 ^ (e1 - E)) by (apply Z.pow_pos_nonneg; lia).
  assert (0 < 2 ^ (e2 - E)) by (apply Z.pow_pos_nonneg; lia).
  destruct z1 as [|p1|p1], z2 as [|p2|p2]; cbn [binary_normalize];
    try (exfalso; nia); try reflexivity.
  - apply SFleb_zero_nonneg, binary_round_nonneg.
  - apply (binary_round_mono _ _ _ _ E); assumption.
  - rewrite binary_round_opp.
    apply SFleb_neg_nonneg; [apply binary_round_nonneg|reflexivity].
  - rewrite binary_round_opp.
    apply SFleb_neg_nonneg; apply binary_round_nonneg.
  - rewrite !binary_round_opp.
    apply SFleb_opp; try apply binary_round_nonneg.
    apply (binary_round_mono _ _ _ _ E); [assumption|assumption|lia].
Qed.

(** The difference of two positive finite numbers is the rounding of the
    exact difference of their aligned mantissas. *)
Lemma SFsub_finite_form (mc my : positive) (ec ey : Z) :
  SF64sub (S754_finite false mc ec) (S754_finite false my ey) =
  binary_normalize prec emax
    (Z.pos mc * 2 ^ (ec - Z.min ec ey) - Z.pos my * 2 ^ (ey - Z.min ec ey))
    (Z.min ec ey) false.
Proof.
  unfold SF64sub. cbn [SFsub cond_Zopp].
  destruct (shl_align_spec mc ec (Z.min ec ey)) as (a & Ea & Ma).
  destruct (shl_align_spec my ey (Z.min ec ey)) as (b & Eb & Mb).
  rewrite Ea, Eb. cbn [fst].
  rewrite Ma, Mb.
  replace (Z.min ec (Z.min ec ey)) with (Z.min ec ey) by lia.
  replace (Z.min ey (Z.min ec ey)) with (Z.min ec ey) by lia.
  reflexivity.
Qed.

Lemma SFleb_neg_infinity_normalize z e :
  SFleb (S754_infinity true) (binary_normalize prec emax z e false) = true.
Proof.
  destruct z as [|p|p]; cbn [binary_normalize].
  - reflexivity.
  - change (S754_infinity true) with (SFopp (S754_infinity false)).
    apply SFleb_neg_nonneg; [reflexivity|apply binary_round_nonneg].
  - rewrite binary_round_opp.
    change (S754_infinity true) with (SFopp (S754_infinity false)).
    apply SFleb_opp; [apply binary_round_nonneg|reflexivity|].
    apply SFleb_nonneg_infinity, binary_round_nonneg.
Qed.

(** Subtraction from a positive constant is antitone. *)

Lemma SFsub_antitone (mc : positive) (ec : Z) y1 y2 :
  binary_normalize prec emax (Z.pos mc) ec false = S754_finite false mc ec ->
  valid_binary y1 = true -> valid_binary y2 = true ->
  nonneg_class y1 = true -> nonneg_class y2 = true ->
  SFleb y1 y2 = true ->
  SFleb (SF64sub (S754_finite false mc ec) y2) (SF64sub (S754_finite false mc ec) y1) = true.
Proof.
  intros Hc V1 V2 N1 N2 H.
  destruct y1 as [s1|[]| |[] m1 e1]; try discriminate;
    destruct y2 as [s2|[]| |[] m2 e2]; try discriminate;
    try reflexivity.
  - (* zero, zero *)
    cbn. apply SFleb_finite_same_exponent. lia.
  - (* zero, finite *)
    rewrite SFsub_finite_form.
    change (SF64sub (S754_finite false mc ec) (S754_zero s1)) with (S754_finite false mc ec).
    rewrite <- Hc.
    apply (binary_normalize_mono _ _ _ _ (Z.min ec e2)); [lia|lia|].
    rewrite Z.sub_diag, Z.mul_1_r.
    assert (0 <= 2 ^ (e2 - Z.min ec e2)) by (apply Z.pow_nonneg; lia). nia.
  - (* finite, infinity *)
    rewrite SFsub_finite_form.
    change (SF64sub (S754_finite false mc ec) (S754_infinity false)) with (S754_infinity true).
    apply SFleb_neg_infinity_normalize.
  - (* finite, finite *)
    destruct (valid_le_scaled m1 e1 m2 e2 V1 V2 H) as (He & Hm & _).
    rewrite !SFsub_finite_form.
    apply (binary_normalize_mono _ _ _ _ (Z.min ec e1)); [lia|lia|].
    rewrite Z.sub_diag, Z.mul_1_r.
    set (z1 := Z.min ec e1). set (z2 := Z.min ec e2).
    assert (z1 <= z2) by (unfold z1, z2; lia).
    rewrite Z.mul_sub_distr_r, <- !Z.mul_assoc, <- !Z.pow_add_r by (unfold z1, z2; lia).
    replace (ec - z2 + (z2 - z1)) with (ec - z1) by lia.
    replace (e2 - z2 + (z2 - z1)) with ((e2 - e1) + (e1 - z1)) by lia.
    rewrite Z.pow_add_r by (unfold z1; lia).
    assert (0 < 2 ^ (e1 - z1)) by (apply Z.pow_pos_nonneg; unfold z1; lia).
    nia.
Qed.

(** *** The primitive operations *)

Local Open Scope float_scope.

Lemma nonneg_of_leb_zero (x : float) :
  (0 <=? x) = true -> nonneg_class (Prim2SF x) = true.
Proof.
  rewrite leb_spec. change (Prim2SF 0) with (S754_zero false).
  destruct (Prim2SF x) as [s|[]| |[] m e]; try discriminate; reflexivity.
Qed.

Lemma nonneg_of_leb (x y : float) :
  nonneg_class (Prim2SF x) = true -> (x <=? y) = true ->
  nonneg_class (Prim2SF y) = true.
Proof.
  rewrite leb_spec.
  destruct (Prim2SF x) as [s|[]| |[] m e]; try discriminate;
    destruct (Prim2SF y) as [s'|[]| |[] m' e']; try discriminate; reflexivity.
Qed.

Lemma positive_finite (t : float) :
  (0 <? t) = true -> (t <? infinity) = true ->
  exists m e, Prim2SF t = S754_finite false m e.
Proof.
  rewrite !ltb_spec. change (Prim2SF 0) with (S754_zero false).
  change (Prim2SF infinity) with (S754_infinity false).
  destruct (Prim2SF t) as [s|[]| |[] m e]; try discriminate; eauto.
Qed.

(** The similarity never grows with the number of mismatched pixels:
    in double precision, for counts [0 <= m1 <= m2] and a positive finite
    number of pixels. *)
Theorem similarity_of_antitone (m1 m2 width height : float) :
  (0 <=? m1) = true -> (m1 <=? m2) = true ->
  (0 <? width * height) = true -> (width * height <? infinity) = true ->
  (similarity_of m2 width height <=? similarity_of m1 width height) = true.
Proof.
  intros H0 H12 Hpos Hfin. unfold similarity_of.
  set (t := width * height) in *.
  destruct (positive_finite _ Hpos Hfin) as (mt & et & Et).
  pose proof (nonneg_of_leb_zero m1 H0) as N1.
  pose proof (nonneg_of_leb m1 m2 N1 H12) as N2.
  rewrite leb_spec in H12.
  destruct (SFdiv_mono (Prim2SF m1) (Prim2SF m2) mt et
              (Prim2SF_valid _) (Prim2SF_valid _) N1 N2 H12) as (Hd & Nd1 & Nd2).
  rewrite <- Et in Hd, Nd1, Nd2.
  rewrite <- (div_spec m1 t) in Hd, Nd1. rewrite <- (div_spec m2 t) in Hd, Nd2.
  destruct (SFmul_mono _ _ 7036874417766400 (-46)
              (Prim2SF_valid _) (Prim2SF_valid _) Nd1 Nd2 eq_refl Hd) as (Hm & Nm1 & Nm2).
  change (S754_finite false 7036874417766400 (-46)) with (Prim2SF 100) in Hm, Nm1, Nm2.
  rewrite <- (mul_spec (m1 / t) 100) in Hm, Nm1. rewrite <- (mul_spec (m2 / t) 100) in Hm, Nm2.
  pose proof (SFsub_antitone 7036874417766400 (-46) _ _ eq_refl
                (Prim2SF_valid _) (Prim2SF_valid _) Nm1 Nm2 Hm) as Hs.
  change (S754_finite false 7036874417766400 (-46)) with (Prim2SF 100) in Hs.
  rewrite <- !sub_spec in Hs.
  rewrite leb_spec. exact Hs.
Qed.

(** Zero divided by a positive number, finite or not, is zero. *)
Lemma zero_div_positive (t : float) :
  (0 <? t)%float = true -> (0 / t)%float = 0%float.
Proof.
  intros H. apply Prim2SF_inj. rewrite div_spec. rewrite ltb_spec in H.
  change (Prim2SF 0) with (S754_zero false) in *.
  destruct (Prim2SF t) as [s|s| |s m e]; try discriminate;
    destruct s; try discriminate; reflexivity.
Qed.

(** No mismatch on a non-empty image is a similarity of 100. *)
Lemma similarity_of_no_mismatch (width height : float) :
  (0 <? width * height)%float = true -> similarity_of 0 width height = 100%float.
Proof.
  intros H. unfold similarity_of. rewrite (zero_div_positive _ H). reflexivity.
Qed.

End Binary64.

(** ** The comparison and the baseline checks *)

Section ComparatorFacts.

Variable PNG_sync_read : Buffer -> Error + PNG.
Variable pixelmatch : Buffer -> Buffer -> float -> float -> float -> Error + float.

Abbreviation compare := (compareScreenshots PNG_sync_read pixelmatch).
Abbreviation outcome := (compare_outcome PNG_sync_read pixelmatch).

(** [compareScreenshots] leaves the files alone, prints its first line
    in every case, and then either rejects with the error of
    [compare_outcome] or prints the similarity and resolves to the
    verdict. *)
Lemma compareScreenshots_outcome (w : World) (o c : string) :
  compare o c w =
  match outcome w o c with
  | inl e => (inl e, mkWorld (files w) (console w ++ [comparing_line o c]))
  | inr s =>
      (inr (90 <=? s)%float,
       mkWorld (files w) (console w ++ [comparing_line o c; result_line s]))
  end.
Proof.
  unfold compareScreenshots, compare_outcome, await, log, readFile, try_sync,
    resolve; cbn [files console].
  change (if startsWith o _ then _ else _) with (screenshot_path o).
  change (if startsWith c _ then _ else _) with (screenshot_path c).
  destruct (files w !! screenshot_path o) as [bo|];
    cbn [files console]; [|reflexivity].
  destruct (files w !! screenshot_path c) as [bc|];
    cbn [files console]; [|reflexivity].
  destruct (PNG_sync_read bo) as [e|po]; [reflexivity|].
  destruct (PNG_sync_read bc) as [e|pc]; [reflexivity|].
  destruct (pixelmatch _ _ _ _ _) as [e|m]; [reflexivity|].
  cbn [files console]. unfold similarity_of, comparing_line, result_line.
  rewrite <- app_assoc. reflexivity.
Qed.

(** The outcome of a comparison depends on the files only. *)
Lemma compare_outcome_console (fs : gmap string Buffer) (cs cs' : list Message) (o c : string) :
  outcome (mkWorld fs cs) o c = outcome (mkWorld fs cs') o c.
Proof. reflexivity. Qed.

Lemma compare_result (w : World) (o c : string) :
  (compare o c w).1 =
  match outcome w o c with
  | inl e => inl e
  | inr s => inr (90 <=? s)%float
  end.
Proof. rewrite compareScreenshots_outcome. destruct (outcome w o c); reflexivity. Qed.

Lemma compare_files (w : World) (o c : string) :
  files (compare o c w).2 = files w.
Proof. rewrite compareScreenshots_outcome. destruct (outcome w o c); reflexivity. Qed.

Lemma logged_similarity_snoc (fs : gmap string Buffer) (cs : list Message) (m : Message) :
  logged_similarity (mkWorld fs (cs ++ [m])) =
  match m with
  | [Text _; Number s; Text _] => Some s
  | _ => None
  end.
Proof. unfold logged_similarity. cbn [console]. rewrite last_snoc. reflexivity. Qed.

Lemma compare_logged_similarity (w : World) (o c : string) :
  logged_similarity (compare o c w).2 =
  match outcome w o c with
  | inl _ => None
  | inr s => Some s
  end.
Proof.
  rewrite compareScreenshots_outcome. destruct (outcome w o c) as [e|s]; cbn [snd].
  - apply logged_similarity_snoc.
  - change (console w ++ [comparing_line o c; result_line s])
      with (console w ++ [comparing_line o c] ++ [result_line s]).
    rewrite app_assoc. apply logged_similarity_snoc.
Qed.

(** The outcome once both files are read and decoded. *)
Lemma compare_outcome_decoded (w : World) (o c : string) (bo bc : Buffer) (po pc : PNG) :
  files w !! screenshot_path o = Some bo ->
  files w !! screenshot_path c = Some bc ->
  PNG_sync_read bo = inr po ->
  PNG_sync_read bc = inr pc ->
  outcome w o c =
  match pixelmatch (data po) (data pc) (width po) (height po) 0.1%float with
  | inl e => inl e
  | inr m => inr (similarity_of m (width po) (height po))
  end.
Proof.
  intros Ho Hc Hpo Hpc. unfold compare_outcome. rewrite Ho, Hc, Hpo, Hpc. reflexivity.
Qed.

(** *** The baseline checks *)

Lemma compared_name_path (k : Key) (ts : string) :
  screenshot_path (compared_name k ts) = screenshot_file k ts.
Proof. destruct k; reflexivity. Qed.

Lemma baseline_name_path (k : Key) :
  screenshot_path (baseline_name k) = baseline_path k.
Proof. destruct k; reflexivity. Qed.

(** Without a baseline the check saves the screenshot as the baseline. *)
Lemma main_baseline_establishes (k : Key) (ts : string) (w : World) (shot : Buffer) :
  files w !! baseline_path k = None ->
  files w !! screenshot_file k ts = Some shot ->
  main_baseline PNG_sync_read pixelmatch k ts w =
  (inr tt, mkWorld (<[baseline_path k := shot]> (files w)) (console w ++ [saved_line k])).
Proof.
  intros Hb Hs.
  destruct k; unfold main_baseline, main_initial_baseline, main_final_baseline,
    await, existsSync, readFile, writeFile, log;
    cbn [files console fst snd];
    [change ("screenshots/baseline_initial.png") with (baseline_path initial);
     change ("screenshots/" +:+ screenshotNameInitial ts) with (screenshot_file initial ts)
    |change ("screenshots/baseline_final.png") with (baseline_path final);
     change ("screenshots/" +:+ screenshotNameFinal ts) with (screenshot_file final ts)];
    rewrite Hb; rewrite bool_decide_false by (intros [? ?]; discriminate);
    cbn beta iota; rewrite Hs; reflexivity.
Qed.

(** With a baseline the check is the comparison: its error, the error
    of a verdict below 90, or success. *)
Lemma main_baseline_compares (k : Key) (ts : string) (w : World) :
  is_Some (files w !! baseline_path k) ->
  (main_baseline PNG_sync_read pixelmatch k ts w).1 =
  match outcome w (baseline_name k) (compared_name k ts) with
  | inl e => inl e
  | inr s => if (90 <=? s)%float then inr tt else inl (comparison_failed k)
  end.
Proof.
  destruct w as [fs cs]. cbn [files]. intros Hb.
  destruct k; unfold main_baseline, main_initial_baseline, main_final_baseline,
    await, existsSync, log;
    cbn [files console fst snd];
    [change ("screenshots/baseline_initial.png") with (baseline_path initial)
    |change ("screenshots/baseline_final.png") with (baseline_path final)];
    rewrite bool_decide_true by assumption; cbn beta iota;
    rewrite compareScreenshots_outcome; cbn [files console];
    match goal with
    | |- context [compare_outcome _ _ (mkWorld fs ?cs') ?o ?c] =>
        rewrite (compare_outcome_console fs cs' cs o c)
    end;
    cbn [baseline_name compared_name];
    match goal with
    | |- context [compare_outcome _ _ ?w' ?o ?c] =>
        destruct (compare_outcome PNG_sync_read pixelmatch w' o c) as [e|sim]
    end; cbn; try reflexivity;
    destruct (90 <=? sim)%float; reflexivity.
Qed.

(** *** Files are never removed *)

Lemma main_initial_baseline_keeps (name : string) (w : World) (p : string) :
  is_Some (files w !! p) ->
  is_Some (files (main_initial_baseline PNG_sync_read pixelmatch name w).2 !! p).
Proof.
  destruct w as [fs cs]. cbn [files]. intros Hp.
  unfold main_initial_baseline, await, existsSync, readFile, writeFile, log.
  cbn [files console fst snd].
  destruct (bool_decide _); cbn beta iota.
  - match goal with
    | |- context [compareScreenshots _ _ ?o ?c ?w'] =>
        pose proof (compare_files w' o c) as F;
        destruct (compareScreenshots PNG_sync_read pixelmatch o c w') as [[e|b] w'']
    end; cbn [fst snd files] in *.
    + rewrite F. exact Hp.
    + destruct b; cbn; rewrite F; exact Hp.
  - match goal with
    | |- context [match ?x with Some _ => _ | None => _ end] =>
        destruct x as [shot|]
    end; cbn [fst snd files]; [|exact Hp].
    apply lookup_insert_is_Some'. right. exact Hp.
Qed.

Lemma main_final_baseline_keeps (name : string) (w : World) (p : string) :
  is_Some (files w !! p) ->
  is_Some (files (main_final_baseline PNG_sync_read pixelmatch name w).2 !! p).
Proof.
  destruct w as [fs cs]. cbn [files]. intros Hp.
  unfold main_final_baseline, await, existsSync, readFile, writeFile, log.
  cbn [files console fst snd].
  destruct (bool_decide _); cbn beta iota.
  - match goal with
    | |- context [compareScreenshots _ _ ?o ?c ?w'] =>
        pose proof (compare_files w' o c) as F;
        destruct (compareScreenshots PNG_sync_read pixelmatch o c w') as [[e|b] w'']
    end; cbn [fst snd files] in *.
    + rewrite F. exact Hp.
    + destruct b; cbn; rewrite F; exact Hp.
  - match goal with
    | |- context [match ?x with Some _ => _ | None => _ end] =>
        destruct x as [shot|]
    end; cbn [fst snd files]; [|exact Hp].
    apply lookup_insert_is_Some'. right. exact Hp.
Qed.

Lemma script_step_keeps (w w' : World) (p : string) :
  script_step PNG_sync_read pixelmatch w w' ->
  is_Some (files w !! p) -> is_Some (files w' !! p).
Proof.
  intros Hstep Hp. destruct Hstep as [m w|path b w|path w|path w|o c w|name w|name w].
  - exact Hp.
  - cbn. apply lookup_insert_is_Some'. right. exact Hp.
  - unfold readFile. destruct (files w !! path); exact Hp.
  - exact Hp.
  - rewrite compare_files. exact Hp.
  - apply main_initial_baseline_keeps, Hp.
  - apply main_final_baseline_keeps, Hp.
Qed.

Lemma script_steps_keep (w w' : World) (p : string) :
  rtc (script_step PNG_sync_read pixelmatch) w w' ->
  is_Some (files w !! p) -> is_Some (files w' !! p).
Proof.
  induction 1 as [w|w w1 w2 Hstep _ IH]; [trivial|].
  intros Hp. apply IH. exact (script_step_keeps _ _ _ Hstep Hp).
Qed.

(** *** The specified properties *)



(** C2 (as amended).  [compareScreenshots] has no dimension check of its
    own: once both files are decoded, it rejects exactly when pixelmatch
    throws on the two pixel buffers and the baseline's width and height,
    with pixelmatch's error, and otherwise resolves to the verdict
    computed with the baseline's width and height, whatever the width
    and height of the candidate. *)
Theorem compare_rejects_exactly_when_pixelmatch_throws
  (w : World) (o c : string) (bo bc : Buffer) (po pc : PNG) :
  files w !! screenshot_path o = Some bo ->
  files w !! screenshot_path c = Some bc ->
  PNG_sync_read bo = inr po ->
  PNG_sync_read bc = inr pc ->
  (compare o c w).1 =
  match pixelmatch (data po) (data pc) (width po) (height po) 0.1%float with
  | inl e => inl e
  | inr m => inr (90 <=? similarity_of m (width po) (height po))%float
  end.
Proof.
  intros Ho Hc Hpo Hpc.
  rewrite compare_result.
  rewrite (compare_outcome_decoded w o c bo bc po pc Ho Hc Hpo Hpc).
  destruct (pixelmatch _ _ _ _ _); reflexivity.
Qed.

(** C3.  Whenever a comparison returns a verdict, the verdict is [true]
    exactly when the similarity it printed is at least 90. *)
Theorem passed_iff_similarity_at_least_90
  (w w' : World) (o c : string) (passed : bool) :
  compare o c w = (inr passed, w') ->
  exists similarity : float,
    logged_similarity w' = Some similarity /\
    (passed = true <-> (90 <=? similarity)%float = true).
Proof.
  intros H.
  pose proof (compare_logged_similarity w o c) as Hlog.
  pose proof (compare_result w o c) as Hres.
  rewrite H in Hlog, Hres. cbn [fst snd] in Hlog, Hres.
  destruct (outcome w o c) as [e|s]; [discriminate|].
  exists s. split; [exact Hlog|].
  injection Hres as ->. reflexivity.
Qed.

(** C4.  The width and the height handed to pixelmatch, and the number
    of pixels the similarity is divided by, are the baseline's: whatever
    pixelmatch is, it is called on the two pixel buffers with the width
    and the height of the first image, and its count is divided by
    their product.  Those of the candidate are never read: two
    candidates that decode to the same pixel buffer, whatever their
    widths and heights, give the same result (error or verdict) and the
    same printed similarity against any baseline. *)
Theorem candidate_dimensions_are_never_read
  (w : World) (o c1 c2 : string) (b1 b2 : Buffer) (p1 p2 : PNG) :
  files w !! screenshot_path c1 = Some b1 ->
  files w !! screenshot_path c2 = Some b2 ->
  PNG_sync_read b1 = inr p1 ->
  PNG_sync_read b2 = inr p2 ->
  data p1 = data p2 ->
  (forall (bo : Buffer) (po : PNG),
     files w !! screenshot_path o = Some bo ->
     PNG_sync_read bo = inr po ->
     (compare o c1 w).1 =
       match pixelmatch (data po) (data p1) (width po) (height po) 0.1%float with
       | inl e => inl e
       | inr m => inr (90 <=? 100 - (m / (width po * height po)) * 100)%float
       end /\
     logged_similarity (compare o c1 w).2 =
       match pixelmatch (data po) (data p1) (width po) (height po) 0.1%float with
       | inl _ => None
       | inr m => Some (100 - (m / (width po * height po)) * 100)%float
       end) /\
  (compare o c1 w).1 = (compare o c2 w).1 /\
  logged_similarity (compare o c1 w).2 = logged_similarity (compare o c2 w).2.
Proof.
  intros H1 H2 Hp1 Hp2 Hdata. split.
  - intros bo po Ho Hpo.
    rewrite compare_result, compare_logged_similarity.
    rewrite (compare_outcome_decoded w o c1 bo b1 po p1 Ho H1 Hpo Hp1).
    destruct (pixelmatch _ _ _ _ _); split; reflexivity.
  - assert (outcome w o c1 = outcome w o c2) as E.
    { unfold compare_outcome. rewrite H1, H2.
      destruct (files w !! screenshot_path o) as [bo|]; [|reflexivity].
      destruct (PNG_sync_read bo) as [e|po]; [reflexivity|].
      rewrite Hp1, Hp2, Hdata. reflexivity. }
    rewrite !compare_result, !compare_logged_similarity, E. split; reflexivity.
Qed.

(** C5.  An image of at least one pixel compared against a copy that
    decodes to the same image, pixelmatch finding no mismatch between a
    buffer and itself, has similarity 100 and passes. *)
Theorem identical_copy_is_fully_similar
  (w : World) (o c : string) (bo bc : Buffer) (p : PNG) :
  files w !! screenshot_path o = Some bo ->
  files w !! screenshot_path c = Some bc ->
  PNG_sync_read bo = inr p ->
  PNG_sync_read bc = inr p ->
  pixelmatch (data p) (data p) (width p) (height p) 0.1%float = inr 0%float ->
  (0 <? width p * height p)%float = true ->
  logged_similarity (compare o c w).2 = Some 100%float /\
  (compare o c w).1 = inr true.
Proof.
  intros Ho Hc Hpo Hpc Hm Hpos.
  rewrite compare_result, compare_logged_similarity.
  rewrite (compare_outcome_decoded w o c bo bc p p Ho Hc Hpo Hpc), Hm.
  rewrite (similarity_of_no_mismatch _ _ Hpos). split; reflexivity.
Qed.

(** C6.  For either key, when no baseline exists the check of [main]
    stores the screenshot as the baseline, and comparing that same
    screenshot against the stored baseline right afterwards, with the
    arguments [main] uses, prints similarity 100 and passes. *)
Theorem establish_then_compare_is_fully_similar
  (k : Key) (ts : string) (w : World) (shot : Buffer) (p : PNG) :
  files w !! baseline_path k = None ->
  files w !! screenshot_file k ts = Some shot ->
  PNG_sync_read shot = inr p ->
  pixelmatch (data p) (data p) (width p) (height p) 0.1%float = inr 0%float ->
  (0 <? width p * height p)%float = true ->
  exists w1 : World,
    main_baseline PNG_sync_read pixelmatch k ts w = (inr tt, w1) /\
    files w1 !! baseline_path k = Some shot /\
    logged_similarity (compare (baseline_name k) (compared_name k ts) w1).2 = Some 100%float /\
    (compare (baseline_name k) (compared_name k ts) w1).1 = inr true.
Proof.
  intros Hb Hs Hp Hm Hpos.
  eexists. split; [exact (main_baseline_establishes k ts w shot Hb Hs)|].
  cbn [files].
  assert (<[baseline_path k := shot]> (files w) !! baseline_path k = Some shot) as Hb'
    by apply lookup_insert_eq.
  assert (<[baseline_path k := shot]> (files w) !! screenshot_file k ts = Some shot) as Hs'.
  { rewrite lookup_insert_ne; [exact Hs|]. destruct k; discriminate. }
  split; [exact Hb'|].
  rewrite compare_result, compare_logged_similarity.
  erewrite compare_outcome_decoded;
    [ | cbn [files]; rewrite baseline_name_path; exact Hb'
      | cbn [files]; rewrite compared_name_path; exact Hs'
      | exact Hp | exact Hp ].
  rewrite Hm, (similarity_of_no_mismatch _ _ Hpos). split; reflexivity.
Qed.

(** C7.  Against one baseline of at least one pixel and of finite size,
    a candidate for which pixelmatch counts at least as many mismatched
    pixels as for another (as it does when its mismatched pixels
    include the other's) has a similarity that is not greater. *)
Theorem more_mismatches_never_more_similar
  (w : World) (o c1 c2 : string) (bo b1 b2 : Buffer) (po p1 p2 : PNG) (m1 m2 : float) :
  files w !! screenshot_path o = Some bo ->
  files w !! screenshot_path c1 = Some b1 ->
  files w !! screenshot_path c2 = Some b2 ->
  PNG_sync_read bo = inr po ->
  PNG_sync_read b1 = inr p1 ->
  PNG_sync_read b2 = inr p2 ->
  pixelmatch (data po) (data p1) (width po) (height po) 0.1%float = inr m1 ->
  pixelmatch (data po) (data p2) (width po) (height po) 0.1%float = inr m2 ->
  (0 <=? m1)%float = true ->
  (m1 <=? m2)%float = true ->
  (0 <? width po * height po)%float = true ->
  (width po * height po <? infinity)%float = true ->
  exists s1 s2 : float,
    logged_similarity (compare o c1 w).2 = Some s1 /\
    logged_similarity (compare o c2 w).2 = Some s2 /\
    (s2 <=? s1)%float = true.
Proof.
  intros Ho H1 H2 Hpo Hp1 Hp2 Hm1 Hm2 H0 H12 Hpos Hfin.
  exists (similarity_of m1 (width po) (height po)),
         (similarity_of m2 (width po) (height po)).
  rewrite !compare_logged_similarity.
  rewrite (compare_outcome_decoded w o c1 bo b1 po p1 Ho H1 Hpo Hp1), Hm1.
  rewrite (compare_outcome_decoded w o c2 bo b2 po p2 Ho H2 Hpo Hp2), Hm2.
  repeat split. apply similarity_of_antitone; assumption.
Qed.

(** C8.  Baseline 2x2 all white, candidate the same image with one of
    its four pixels turned fully black, pixelmatch reporting that one
    mismatched pixel: the similarity is 75 and the comparison does not
    pass. *)
Theorem one_black_pixel_of_four (w : World) (o c : string) (bo bc : Buffer) :
  files w !! screenshot_path o = Some bo ->
  files w !! screenshot_path c = Some bc ->
  PNG_sync_read bo = inr (mkPNG 2 2 white_2x2) ->
  PNG_sync_read bc = inr (mkPNG 2 2 one_black_2x2) ->
  pixelmatch white_2x2 one_black_2x2 2 2 0.1%float = inr 1%float ->
  logged_similarity (compare o c w).2 = Some 75%float /\
  (compare o c w).1 = inr false.
Proof.
  intros Ho Hc Hpo Hpc Hm.
  rewrite compare_result, compare_logged_similarity.
  rewrite (compare_outcome_decoded w o c bo bc _ _ Ho Hc Hpo Hpc).
  cbn [data width height]. rewrite Hm. split; reflexivity.
Qed.

(** C9.  Unreadable or corrupt image data makes [compareScreenshots]
    reject with the error of the read or of the decoder, and whatever
    error [compareScreenshots] rejects with, pixelmatch's included, the
    baseline check of [main] that called it rejects with that same
    error: no verdict is produced. *)
Theorem undecodable_input_is_reported (w : World) (o c : string) (e : Error) :
  undecodable PNG_sync_read w o c e ->
  (compare o c w).1 = inl e /\
  forall (k : Key) (ts : string) (e' : Error),
    is_Some (files w !! baseline_path k) ->
    (compare (baseline_name k) (compared_name k ts) w).1 = inl e' ->
    (main_baseline PNG_sync_read pixelmatch k ts w).1 = inl e'.
Proof.
  intros H.
  assert (outcome w o c = inl e) as E.
  { unfold compare_outcome.
    destruct H as [Ho|bo Ho Hc|bo bc e Ho Hc Hpo|bo bc po e Ho Hc Hpo Hpc];
      rewrite ?Ho, ?Hc, ?Hpo, ?Hpc; reflexivity. }
  split.
  - rewrite compare_result, E. reflexivity.
  - intros k ts e' Hb. rewrite compare_result, (main_baseline_compares k ts w Hb).
    destruct (outcome w (baseline_name k) (compared_name k ts));
      [intros [= ->]; reflexivity|discriminate].
Qed.

(** C10.  For either key, if no baseline exists and the screenshot of
    the run has been taken, the check of [main] establishes the
    baseline: it resolves and stores the bytes of the screenshot; and
    from then on, after any further operations of the script, the
    baseline exists. *)
Theorem established_baseline_persists (k : Key) (ts : string) (w : World) (shot : Buffer) :
  (existsSync (baseline_path k) w).1 = inr false ->
  files w !! screenshot_file k ts = Some shot ->
  exists w1 : World,
    main_baseline PNG_sync_read pixelmatch k ts w = (inr tt, w1) /\
    files w1 !! baseline_path k = Some shot /\
    forall w2 : World,
      rtc (script_step PNG_sync_read pixelmatch) w1 w2 ->
      (existsSync (baseline_path k) w2).1 = inr true.
Proof.
  unfold existsSync. cbn [fst]. intros Hno Hshot.
  apply (f_equal (fun r => match r with inr b => b | inl _ => true end)) in Hno.
  apply bool_decide_eq_false in Hno.
  assert (files w !! baseline_path k = None) as Hb.
  { destruct (files w !! baseline_path k) eqn:E; [|reflexivity].
    exfalso. apply Hno. eauto. }
  clear Hno.
  eexists. split; [exact (main_baseline_establishes k ts w shot Hb Hshot)|].
  cbn [files]. split; [apply lookup_insert_eq|].
  intros w2 Hsteps. f_equal. apply bool_decide_eq_true.
  apply (script_steps_keep _ w2 _ Hsteps).
  cbn [files]. rewrite lookup_insert_eq. eauto.
Qed.

End ComparatorFacts.

(** ** The reference instance on concrete images *)


(** C2, counterexample.  A 3x2 candidate compared against a 2x3 baseline
    is not rejected: it passes with similarity 100. *)
Lemma transposed_candidate_passes :
  PNG_sync_read_model (encode x02 x03 six_white) = inr (mkPNG 2 3 six_white) /\
  PNG_sync_read_model (encode x03 x02 six_white) = inr (mkPNG 3 2 six_white) /\
  run (compare_model "baseline_initial.png" (screenshotNameInitial ts0))
      (world_of (Some (encode x02 x03 six_white)) (encode x03 x02 six_white)) =
  (inr true,
   [comparing_line "baseline_initial.png" (screenshotNameInitial ts0); result_line 100]).
Proof. repeat split; vm_compute; reflexivity. Qed.

(** *** The theorems at concrete inputs *)


Lemma compare_rejects_exactly_when_pixelmatch_throws_witness :
  (compare_model "baseline_initial.png" (screenshotNameInitial ts0)
     (world_of (Some (encode x02 x02 white_2x2)) (encode x01 x01 white))).1 =
  inl (mkError "Image sizes do not match.").
Proof.
  apply (compare_rejects_exactly_when_pixelmatch_throws PNG_sync_read_model pixelmatch_model
           _ _ _ (encode x02 x02 white_2x2) (encode x01 x01 white)
           (mkPNG 2 2 white_2x2) (mkPNG 1 1 white));
    vm_compute; reflexivity.
Defined.

Lemma passed_iff_similarity_at_least_90_witness :
  exists similarity : float,
    logged_similarity
      (compare_model "baseline_initial.png" (screenshotNameInitial ts0)
         (world_of (Some (encode x02 x02 white_2x2)) (encode x02 x02 one_black_2x2))).2 =
    Some similarity /\
    (false = true <-> (90 <=? similarity)%float = true).
Proof.
  apply (passed_iff_similarity_at_least_90 PNG_sync_read_model pixelmatch_model
           (world_of (Some (encode x02 x02 white_2x2)) (encode x02 x02 one_black_2x2))
           _ "baseline_initial.png" (screenshotNameInitial ts0) false).
  vm_compute; reflexivity.
Defined.

Lemma candidate_dimensions_are_never_read_witness :
  (forall (bo : Buffer) (po : PNG),
     files (world_of (Some (encode x02 x03 six_white)) (encode x03 x02 six_white))
       !! screenshot_path "baseline_initial.png" = Some bo ->
     PNG_sync_read_model bo = inr po ->
     (compare_model "baseline_initial.png" (screenshotNameInitial ts0)
        (world_of (Some (encode x02 x03 six_white)) (encode x03 x02 six_white))).1 =
       match pixelmatch_model (data po) six_white (width po) (height po) 0.1%float with
       | inl e => inl e
       | inr m => inr (90 <=? 100 - (m / (width po * height po)) * 100)%float
       end /\
     logged_similarity
       (compare_model "baseline_initial.png" (screenshotNameInitial ts0)
          (world_of (Some (encode x02 x03 six_white)) (encode x03 x02 six_white))).2 =
       match pixelmatch_model (data po) six_white (width po) (height po) 0.1%float with
       | inl _ => None
       | inr m => Some (100 - (m / (width po * height po)) * 100)%float
       end) /\
  (compare_model "baseline_initial.png" (screenshotNameInitial ts0)
     (world_of (Some (encode x02 x03 six_white)) (encode x03 x02 six_white))).1 =
  (compare_model "baseline_initial.png" "baseline_initial.png"
     (world_of (Some (encode x02 x03 six_white)) (encode x03 x02 six_white))).1 /\
  logged_similarity
    (compare_model "baseline_initial.png" (screenshotNameInitial ts0)
       (world_of (Some (encode x02 x03 six_white)) (encode x03 x02 six_white))).2 =
  logged_similarity
    (compare_model "baseline_initial.png" "baseline_initial.png"
       (world_of (Some (encode x02 x03 six_white)) (encode x03 x02 six_white))).2.
Proof.
  apply (candidate_dimensions_are_never_read PNG_sync_read_model pixelmatch_model
           _ _ _ _ (encode x03 x02 six_white) (encode x02 x03 six_white)
           (mkPNG 3 2 six_white) (mkPNG 2 3 six_white));
    vm_compute; reflexivity.
Defined.

Lemma identical_copy_is_fully_similar_witness :
  logged_similarity
    (compare_model "baseline_initial.png" (screenshotNameInitial ts0)
       (world_of (Some (encode x02 x02 white_2x2)) (encode x02 x02 white_2x2))).2 =
  Some 100%float /\
  (compare_model "baseline_initial.png" (screenshotNameInitial ts0)
     (world_of (Some (encode x02 x02 white_2x2)) (encode x02 x02 white_2x2))).1 = inr true.
Proof.
  apply (identical_copy_is_fully_similar PNG_sync_read_model pixelmatch_model
           _ _ _ (encode x02 x02 white_2x2) (encode x02 x02 white_2x2)
           (mkPNG 2 2 white_2x2));
    vm_compute; reflexivity.
Defined.

Lemma establish_then_compare_is_fully_similar_witness :
  exists w1 : World,
    main_baseline_model initial ts0 (world_of None (encode x02 x02 white_2x2)) = (inr tt, w1) /\
    files w1 !! baseline_path initial = Some (encode x02 x02 white_2x2) /\
    logged_similarity
      (compare_model (baseline_name initial) (compared_name initial ts0) w1).2 =
    Some 100%float /\
    (compare_model (baseline_name initial) (compared_name initial ts0) w1).1 = inr true.
Proof.
  apply (establish_then_compare_is_fully_similar PNG_sync_read_model pixelmatch_model
           initial ts0 (world_of None (encode x02 x02 white_2x2))
           (encode x02 x02 white_2x2) (mkPNG 2 2 white_2x2));
    vm_compute; reflexivity.
Defined.

Lemma more_mismatches_never_more_similar_witness :
  exists s1 s2 : float,
    logged_similarity
      (compare_model "baseline_initial.png" "baseline_initial.png"
         (world_of (Some (encode x02 x02 white_2x2)) (encode x02 x02 one_black_2x2))).2 =
    Some s1 /\
    logged_similarity
      (compare_model "baseline_initial.png" (screenshotNameInitial ts0)
         (world_of (Some (encode x02 x02 white_2x2)) (encode x02 x02 one_black_2x2))).2 =
    Some s2 /\
    (s2 <=? s1)%float = true.
Proof.
  apply (more_mismatches_never_more_similar PNG_sync_read_model pixelmatch_model
           _ _ _ _ (encode x02 x02 white_2x2) (encode x02 x02 white_2x2)
           (encode x02 x02 one_black_2x2)
           (mkPNG 2 2 white_2x2) (mkPNG 2 2 white_2x2) (mkPNG 2 2 one_black_2x2)
           0%float 1%float);
    vm_compute; reflexivity.
Defined.

Lemma one_black_pixel_of_four_witness :
  logged_similarity
    (compare_model "baseline_initial.png" (screenshotNameInitial ts0)
       (world_of (Some (encode x02 x02 white_2x2)) (encode x02 x02 one_black_2x2))).2 =
  Some 75%float /\
  (compare_model "baseline_initial.png" (screenshotNameInitial ts0)
     (world_of (Some (encode x02 x02 white_2x2)) (encode x02 x02 one_black_2x2))).1 =
  inr false.
Proof.
  apply (one_black_pixel_of_four PNG_sync_read_model pixelmatch_model
           _ _ _ (encode x02 x02 white_2x2) (encode x02 x02 one_black_2x2));
    vm_compute; reflexivity.
Defined.

Lemma undecodable_input_is_reported_witness :
  (compare_model "baseline_initial.png" (screenshotNameInitial ts0)
     (world_of (Some (encode x02 x02 white_2x2)) [x89; x50; x4e; x47]%byte)).1 =
  inl (mkError "unrecognised content at end of stream") /\
  forall (k : Key) (ts : string) (e' : Error),
    is_Some (files (world_of (Some (encode x02 x02 white_2x2)) [x89; x50; x4e; x47]%byte)
               !! baseline_path k) ->
    (compare_model (baseline_name k) (compared_name k ts)
       (world_of (Some (encode x02 x02 white_2x2)) [x89; x50; x4e; x47]%byte)).1 = inl e' ->
    (main_baseline_model k ts
       (world_of (Some (encode x02 x02 white_2x2)) [x89; x50; x4e; x47]%byte)).1 = inl e'.
Proof.
  apply (undecodable_input_is_reported PNG_sync_read_model pixelmatch_model).
  apply (current_corrupt PNG_sync_read_model _ _ _
           (encode x02 x02 white_2x2) [x89; x50; x4e; x47]%byte (mkPNG 2 2 white_2x2));
    vm_compute; reflexivity.
Defined.

Lemma established_baseline_persists_witness :
  (exists w1 : World,
     main_baseline_model initial ts0 (world_of None (encode x02 x02 white_2x2)) = (inr tt, w1) /\
     files w1 !! baseline_path initial = Some (encode x02 x02 white_2x2) /\
     forall w2 : World,
       rtc (script_step PNG_sync_read_model pixelmatch_model) w1 w2 ->
       (existsSync (baseline_path initial) w2).1 = inr true) /\
  (exists w1 : World,
     main_baseline_model final ts0
       (empty_console (<[screenshot_file final ts0 := encode x02 x02 one_black_2x2]> ∅)) =
     (inr tt, w1) /\
     files w1 !! baseline_path final = Some (encode x02 x02 one_black_2x2) /\
     forall w2 : World,
       rtc (script_step PNG_sync_read_model pixelmatch_model) w1 w2 ->
       (existsSync (baseline_path final) w2).1 = inr true).
Proof.
  split.
  - apply (established_baseline_persists PNG_sync_read_model pixelmatch_model
             initial ts0 (world_of None (encode x02 x02 white_2x2)));
      vm_compute; reflexivity.
  - apply (established_baseline_persists PNG_sync_read_model pixelmatch_model
             final ts0
             (empty_console (<[screenshot_file final ts0 := encode x02 x02 one_black_2x2]> ∅)));
      vm_compute; reflexivity.
Defined.

(** * The rest of the scripts

    Properties of the code around the comparison: the delays, the
    baseline checks case by case, the commands each script issues and
    what its [main] comes to. *)

(** ** The delays *)

Section Delays.

Local Open Scope Z_scope.

Lemma SFleb_finite_refl (m : positive) (e : Z) :
  SFleb (S754_finite false m e) (S754_finite false m e) = true.
Proof. apply SFleb_finite_same_exponent. lia. Qed.

Lemma SFadd_finite_form (mx mc : positive) (ex ec : Z) :
  SF64add (S754_finite false mx ex) (S754_finite false mc ec) =
  binary_normalize prec emax
    (Z.pos mx * 2 ^ (ex - Z.min ex ec) + Z.pos mc * 2 ^ (ec - Z.min ex ec))
    (Z.min ex ec) false.
Proof.
  unfold SF64add. cbn [SFadd cond_Zopp].
  destruct (shl_align_spec mx ex (Z.min ex ec)) as (a & Ea & Ma).
  destruct (shl_align_spec mc ec (Z.min ex ec)) as (b & Eb & Mb).
  rewrite Ea, Eb. cbn [fst].
  rewrite Ma, Mb.
  replace (Z.min ex (Z.min ex ec)) with (Z.min ex ec) by lia.
  replace (Z.min ec (Z.min ex ec)) with (Z.min ex ec) by lia.
  reflexivity.
Qed.

Lemma binary_normalize_pos_nonneg (z e : Z) :
  0 < z -> nonneg_class (binary_normalize prec emax z e false) = true.
Proof.
  intros H. destruct z as [|p|p]; try lia. cbn [binary_normalize].
  apply binary_round_nonneg.
Qed.

Lemma SFadd_mono x1 x2 (mc : positive) (ec : Z) :
  binary_normalize prec emax (Z.pos mc) ec false = S754_finite false mc ec ->
  valid_binary x1 = true -> valid_binary x2 = true ->
  nonneg_class x1 = true -> nonneg_class x2 = true ->
  SFleb x1 x2 = true ->
  SFleb (SF64add x1 (S754_finite false mc ec)) (SF64add x2 (S754_finite false mc ec)) = true.
Proof.
  intros Hc V1 V2 N1 N2 H.
  destruct x1 as [s1|[]| |[] m1 e1]; try discriminate;
    destruct x2 as [s2|[]| |[] m2 e2]; try discriminate.
  - destruct s1, s2; apply SFleb_finite_refl.
  - destruct s1; reflexivity.
  - rewrite SFadd_finite_form.
    replace (SF64add (S754_zero s1) (S754_finite false mc ec)) with (S754_finite false mc ec)
      by (destruct s1; reflexivity).
    rewrite <- Hc at 1.
    apply (binary_normalize_mono _ _ _ _ (Z.min e2 ec)); [lia|lia|].
    replace (Z.min e2 ec - Z.min e2 ec) with 0 by lia. rewrite Z.mul_1_r.
    assert (0 <= Z.pos m2 * 2 ^ (e2 - Z.min e2 ec)) by (apply Z.mul_nonneg_nonneg; [lia|apply Z.pow_nonneg; lia]).
    lia.
  - reflexivity.
  - rewrite SFadd_finite_form. apply SFleb_nonneg_infinity.
    apply binary_normalize_pos_nonneg.
    assert (0 <= Z.pos mc * 2 ^ (ec - Z.min e1 ec)) by (apply Z.mul_nonneg_nonneg; [lia|apply Z.pow_nonneg; lia]).
    assert (0 < Z.pos m1 * 2 ^ (e1 - Z.min e1 ec)) by (apply Z.mul_pos_pos; [lia|apply Z.pow_pos_nonneg; lia]).
    lia.
  - rewrite !SFadd_finite_form.
    destruct (valid_le_scaled _ _ _ _ V1 V2 H) as (He & Hm & _).
    apply (binary_normalize_mono _ _ _ _ (Z.min e1 ec)); [lia|lia|].
    replace (Z.min e1 ec - Z.min e1 ec) with 0 by lia. rewrite Z.mul_1_r.
    assert (Z.min e1 ec <= Z.min e2 ec) by lia.
    rewrite Z.mul_add_distr_r.
    rewrite <- !Z.mul_assoc, <- !Z.pow_add_r by lia.
    replace (e2 - Z.min e2 ec + (Z.min e2 ec - Z.min e1 ec)) with (e2 - e1 + (e1 - Z.min e1 ec)) by lia.
    replace (ec - Z.min e2 ec + (Z.min e2 ec - Z.min e1 ec)) with (ec - Z.min e1 ec) by lia.
    rewrite Z.pow_add_r by lia. rewrite Z.mul_assoc.
    assert (0 < 2 ^ (e1 - Z.min e1 ec)) by (apply Z.pow_pos_nonneg; lia).
    nia.
Qed.

Local Open Scope float_scope.

(** The largest double below 1. *)

Lemma SFltb_finite_inv m1 e1 m2 e2 :
  SFltb (S754_finite false m1 e1) (S754_finite false m2 e2) = true ->
  (e1 < e2 \/ (e1 = e2 /\ Z.pos m1 < Z.pos m2))%Z.
Proof.
  unfold SFltb, SFcompare.
  destruct (Z.compare_spec e1 e2) as [E|L|G]; [|left; lia|discriminate].
  change (Pos.compare_cont Eq m1 m2) with (m1 ?= m2)%positive.
  destruct (Pos.compare_spec m1 m2); try discriminate; intros _; right; lia.
Qed.

Lemma SFleb_finite_same_exponent_Z (m1 m2 : positive) (e : Z) :
  (Z.pos m1 <= Z.pos m2)%Z ->
  SFleb (S754_finite false m1 e) (S754_finite false m2 e) = true.
Proof. intros H. apply SFleb_finite_same_exponent. lia. Qed.

Lemma below_one (r : float) :
  (r <? 1) = true -> (r <=? 0.99999999999999989) = true.
Proof.
  rewrite ltb_spec, leb_spec. pose proof (Prim2SF_valid r) as V.
  change (Prim2SF 1) with (S754_finite false 4503599627370496 (-52)).
  change (Prim2SF 0.99999999999999989) with (S754_finite false 9007199254740991 (-53)).
  destruct (Prim2SF r) as [s|[]| |[] m e]; intros H; try discriminate; try reflexivity.
  destruct (valid_finite _ _ _ V) as (Hf & _).
  unfold fexp64 in Hf.
  apply SFltb_finite_inv in H.
  assert (Hd : (Zdigits2 (Z.pos m) <= 53)%Z) by (clear - Hf; lia).
  assert (He : (e = -52 -> Zdigits2 (Z.pos m) = 53)%Z) by (clear - Hf; lia).
  clear Hf V.
  pose proof (Zdigits2_bounds (Z.pos m) (Pos2Z.is_pos m)) as Hb.
  destruct H as [H|[H Hm]].
  - destruct (Z.eq_dec e (-53)%Z) as [->|Hne].
    + apply SFleb_finite_same_exponent_Z.
      assert (Hp : (2 ^ Zdigits2 (Z.pos m) <= 2 ^ 53)%Z) by (apply Z.pow_le_mono_r; lia).
      change (2 ^ 53)%Z with 9007199254740992%Z in Hp.
      destruct Hb as [_ Hb]. clear - Hb Hp. lia.
    + apply SFleb_finite_lt_exponent. clear - H Hne. lia.
  - exfalso. rewrite (He H) in Hb.
    change (2 ^ (53 - 1))%Z with 4503599627370496%Z in Hb.
    destruct Hb as [Hb _]. clear - Hb Hm. lia.
Qed.

(** [x * a + b] never decreases with [x >= 0], for positive constants
    [a], normal, and [b]. *)
Lemma scaled_shifted_mono (x1 x2 a b : float) (ma mb : positive) (ea eb : Z) :
  Prim2SF a = S754_finite false ma ea -> Zdigits2 (Z.pos ma) = 53%Z ->
  Prim2SF b = S754_finite false mb eb ->
  binary_normalize prec emax (Z.pos mb) eb false = S754_finite false mb eb ->
  (0 <=? x1) = true -> (x1 <=? x2) = true ->
  (x1 * a + b <=? x2 * a + b) = true.
Proof.
  intros Ea Da Eb Hn H0 H12.
  pose proof (nonneg_of_leb_zero x1 H0) as N1.
  pose proof (nonneg_of_leb x1 x2 N1 H12) as N2.
  rewrite leb_spec in H12.
  destruct (SFmul_mono _ _ ma ea (Prim2SF_valid _) (Prim2SF_valid _) N1 N2 Da H12)
    as (Hm & Nm1 & Nm2).
  rewrite <- Ea in Hm, Nm1, Nm2.
  rewrite <- (mul_spec x1 a) in Hm, Nm1. rewrite <- (mul_spec x2 a) in Hm, Nm2.
  pose proof (SFadd_mono _ _ mb eb Hn (Prim2SF_valid _) (Prim2SF_valid _) Nm1 Nm2 Hm) as Ha.
  rewrite <- Eb in Ha. rewrite <- !add_spec in Ha.
  rewrite leb_spec. exact Ha.
Qed.

Lemma randomDelay_bounds (random : float) :
  (0 <=? random) = true -> (random <=? 0.99999999999999989) = true ->
  (0.5 <=? randomDelay random) = true /\ (randomDelay random <=? 1.5) = true.
Proof.
  intros H0 H1. unfold randomDelay. split.
  - exact (scaled_shifted_mono 0 random (1.5 - 0.5) 0.5
             4503599627370496 4503599627370496 (-52) (-53)
             eq_refl eq_refl eq_refl eq_refl eq_refl H0).
  - exact (scaled_shifted_mono random 0.99999999999999989 (1.5 - 0.5) 0.5
             4503599627370496 4503599627370496 (-52) (-53)
             eq_refl eq_refl eq_refl eq_refl H0 H1).
Qed.

(** [x * a] never decreases with [x >= 0], for a positive normal constant [a]. *)
Lemma scaled_mono (x1 x2 a : float) (ma : positive) (ea : Z) :
  Prim2SF a = S754_finite false ma ea -> Zdigits2 (Z.pos ma) = 53%Z ->
  nonneg_class (Prim2SF x1) = true -> (x1 <=? x2) = true ->
  (x1 * a <=? x2 * a) = true.
Proof.
  intros Ea Da N1 H12.
  pose proof (nonneg_of_leb x1 x2 N1 H12) as N2.
  rewrite leb_spec in H12.
  destruct (SFmul_mono _ _ ma ea (Prim2SF_valid _) (Prim2SF_valid _) N1 N2 Da H12)
    as (Hm & _ & _).
  rewrite <- Ea in Hm.
  rewrite <- (mul_spec x1 a), <- (mul_spec x2 a) in Hm.
  rewrite leb_spec. exact Hm.
Qed.

(** X1.  For a draw [0 <= random < 1], [randomDelay] lies between 0.5 and
    1.5, both ends included, in double precision. *)
Theorem randomDelay_range (random : float) :
  (0 <=? random) = true -> (random <? 1) = true ->
  (0.5 <=? randomDelay random) = true /\ (randomDelay random <=? 1.5) = true.
Proof.
  intros H0 H1. apply below_one in H1. exact (randomDelay_bounds random H0 H1).
Qed.

(** X2.  The pause after each Tab, [randomDelay() * 1000], lies between
    500 and 1500 milliseconds. *)
Theorem key_delay_ms_range (random : float) :
  (0 <=? random) = true -> (random <? 1) = true ->
  (500 <=? key_delay_ms random) = true /\ (key_delay_ms random <=? 1500) = true.
Proof.
  intros H0 H1. apply below_one in H1.
  destruct (randomDelay_bounds random H0 H1) as [Hlo Hhi].
  unfold key_delay_ms. split.
  - exact (scaled_mono 0.5 (randomDelay random) 1000 8796093022208000 (-43)
             eq_refl eq_refl eq_refl Hlo).
  - refine (scaled_mono (randomDelay random) 1.5 1000 8796093022208000 (-43)
              eq_refl eq_refl _ Hhi).
    exact (nonneg_of_leb 0.5 (randomDelay random) eq_refl Hlo).
Qed.

(** X3.  The two waits announced as "7-10 seconds",
    [Math.random() * 3000 + 7000], lie between 7000 and 10000
    milliseconds. *)
Theorem page_delay_ms_range (random : float) :
  (0 <=? random) = true -> (random <? 1) = true ->
  (7000 <=? page_delay_ms random) = true /\ (page_delay_ms random <=? 10000) = true.
Proof.
  intros H0 H1. apply below_one in H1. unfold page_delay_ms. split.
  - exact (scaled_shifted_mono 0 random 3000 7000
             6597069766656000 7696581394432000 (-41) (-40)
             eq_refl eq_refl eq_refl eq_refl eq_refl H0).
  - exact (scaled_shifted_mono random 0.99999999999999989 3000 7000
             6597069766656000 7696581394432000 (-41) (-40)
             eq_refl eq_refl eq_refl eq_refl H0 H1).
Qed.

(** X4.  The waits of the other three scripts: the one announced as
    "5-10 seconds" lies between 5000 and 10000 milliseconds, the one
    announced as "10-15 seconds" between 10000 and 15000, and the
    unannounced [Math.random() * 3000] between 0 and 2999.9999999999995,
    the largest value it takes. *)
Theorem other_waits_ranges (random : float) :
  (0 <=? random) = true -> (random <? 1) = true ->
  ((5000 <=? settle_delay_ms random) = true /\
   (settle_delay_ms random <=? 10000) = true) /\
  ((10000 <=? redirect_delay_ms random) = true /\
   (redirect_delay_ms random <=? 15000) = true) /\
  ((0 <=? draft_delay_ms random) = true /\
   (draft_delay_ms random <=? 2999.9999999999995) = true).
Proof.
  intros H0 H1. apply below_one in H1.
  unfold settle_delay_ms, redirect_delay_ms, draft_delay_ms.
  repeat split.
  - exact (scaled_shifted_mono 0 random 5000 5000
             5497558138880000 5497558138880000 (-40) (-40)
             eq_refl eq_refl eq_refl eq_refl eq_refl H0).
  - exact (scaled_shifted_mono random 0.99999999999999989 5000 5000
             5497558138880000 5497558138880000 (-40) (-40)
             eq_refl eq_refl eq_refl eq_refl H0 H1).
  - exact (scaled_shifted_mono 0 random 5000 10000
             5497558138880000 5497558138880000 (-40) (-39)
             eq_refl eq_refl eq_refl eq_refl eq_refl H0).
  - exact (scaled_shifted_mono random 0.99999999999999989 5000 10000
             5497558138880000 5497558138880000 (-40) (-39)
             eq_refl eq_refl eq_refl eq_refl H0 H1).
  - exact (scaled_mono 0 random 3000 6597069766656000 (-41) eq_refl eq_refl eq_refl H0).
  - exact (scaled_mono random 0.99999999999999989 3000 6597069766656000 (-41)
             eq_refl eq_refl (nonneg_of_leb_zero random H0) H1).
Qed.

End Delays.

(** ** The baseline checks, case by case *)

Section BaselineFacts.

Variable PNG_sync_read : Buffer -> Error + PNG.
Variable pixelmatch : Buffer -> Buffer -> float -> float -> float -> Error + float.

Abbreviation check := (main_baseline PNG_sync_read pixelmatch).
Abbreviation verdict := (compare_outcome PNG_sync_read pixelmatch).

(** With a baseline in place the check writes nothing. *)
Lemma main_baseline_files_kept (k : Key) (ts : string) (w : World) :
  is_Some (files w !! baseline_path k) -> files (check k ts w).2 = files w.
Proof.
  intros Hb.
  destruct k; unfold main_baseline, main_initial_baseline, main_final_baseline,
    await, existsSync, log;
    cbn [files console fst snd];
    [change ("screenshots/baseline_initial.png") with (baseline_path initial)
    |change ("screenshots/baseline_final.png") with (baseline_path final)];
    rewrite bool_decide_true by assumption; cbn beta iota;
    rewrite compareScreenshots_outcome; cbn [files console];
    match goal with
    | |- context [compare_outcome _ _ ?w' ?o ?c] =>
        destruct (compare_outcome PNG_sync_read pixelmatch w' o c) as [e|sim]
    end; cbn; try reflexivity;
    destruct (90 <=? sim)%float; reflexivity.
Qed.

Lemma prefix_append (p s : string) : String.prefix p (p +:+ s) = true.
Proof.
  induction p as [|a p IH].
  - change (EmptyString +:+ s) with s. destruct s; reflexivity.
  - change (String a p +:+ s) with (String a (p +:+ s)). cbn [String.prefix].
    destruct (Ascii.ascii_dec a a); [exact IH|contradiction].
Qed.

Lemma screenshot_path_idempotent (name : string) :
  screenshot_path (screenshot_path name) = screenshot_path name.
Proof.
  unfold screenshot_path, startsWith.
  destruct (String.prefix "screenshots/" name) eqn:E.
  - rewrite E. reflexivity.
  - rewrite (prefix_append "screenshots/" name). reflexivity.
Qed.

(** X5.  Once a baseline exists, its check is a comparison and nothing
    else: it leaves every file as it is, whatever the comparison says,
    so a baseline is never refreshed; and it resolves exactly when the
    comparison reaches a similarity of at least 90. *)
Theorem existing_baseline_is_never_replaced (k : Key) (ts : string) (w : World) :
  is_Some (files w !! baseline_path k) ->
  files (check k ts w).2 = files w /\
  ((check k ts w).1 = inr tt <->
   exists s, verdict w (baseline_name k) (compared_name k ts) = inr s /\
             (90 <=? s)%float = true).
Proof.
  intros Hb. split; [exact (main_baseline_files_kept k ts w Hb)|].
  rewrite (main_baseline_compares _ _ k ts w Hb).
  destruct (verdict w (baseline_name k) (compared_name k ts)) as [e|s].
  - split; [discriminate|]. intros (s & [=] & _).
  - destruct (90 <=? s)%float eqn:E.
    + split; [eauto|reflexivity].
    + split; [destruct k; discriminate|].
      intros (s' & [= <-] & H). congruence.
Qed.

(** X6.  The first screenshot becomes the baseline without being decoded:
    when it is corrupt the check still resolves and stores it, and from
    then on every check of that key, against any screenshot that exists,
    rejects with the decoder's error for the stored baseline. *)
Theorem corrupt_first_screenshot_becomes_baseline
  (k : Key) (ts : string) (w : World) (shot : Buffer) (e : Error) :
  files w !! baseline_path k = None ->
  files w !! screenshot_file k ts = Some shot ->
  PNG_sync_read shot = inl e ->
  exists w1 : World,
    check k ts w = (inr tt, w1) /\
    files w1 !! baseline_path k = Some shot /\
    forall (ts' : string) (w2 : World),
      files w2 !! baseline_path k = Some shot ->
      is_Some (files w2 !! screenshot_file k ts') ->
      (check k ts' w2).1 = inl e.
Proof.
  intros Hb Hs He. eexists. split; [exact (main_baseline_establishes _ _ k ts w shot Hb Hs)|].
  cbn [files]. split; [apply lookup_insert_eq|].
  intros ts' w2 Hb2 [b2 Hs2].
  rewrite (main_baseline_compares _ _ k ts' w2) by (rewrite Hb2; eauto).
  unfold compare_outcome. rewrite baseline_name_path, compared_name_path, Hb2, Hs2, He.
  reflexivity.
Qed.

(** X7.  Without a baseline and without the screenshot the check rejects
    with the error of the missing file and changes nothing: no baseline
    is created and nothing is printed. *)
Theorem missing_screenshot_creates_no_baseline (k : Key) (ts : string) (w : World) :
  files w !! baseline_path k = None ->
  files w !! screenshot_file k ts = None ->
  check k ts w = (inl (ENOENT (screenshot_file k ts)), w).
Proof.
  intros Hb Hs.
  destruct k; unfold main_baseline, main_initial_baseline, main_final_baseline,
    await, existsSync, readFile, writeFile, log;
    cbn [files console fst snd];
    [change ("screenshots/baseline_initial.png") with (baseline_path initial);
     change ("screenshots/" +:+ screenshotNameInitial ts) with (screenshot_file initial ts)
    |change ("screenshots/baseline_final.png") with (baseline_path final);
     change ("screenshots/" +:+ screenshotNameFinal ts) with (screenshot_file final ts)];
    rewrite Hb; rewrite bool_decide_false by (intros [? ?]; discriminate);
    cbn beta iota; rewrite Hs; reflexivity.
Qed.

(** X8.  A comparison never writes a file.  It prints the line that
    names the two files and, exactly when it returns a verdict, one
    further line: the line of the similarity, and the verdict is
    whether that similarity is at least 90. *)
Theorem comparison_only_prints (w : World) (o c : string) :
  files (compareScreenshots PNG_sync_read pixelmatch o c w).2 = files w /\
  match (compareScreenshots PNG_sync_read pixelmatch o c w).1 with
  | inl _ =>
      console (compareScreenshots PNG_sync_read pixelmatch o c w).2 =
        console w ++ [comparing_line o c]
  | inr passed =>
      exists similarity : float,
        console (compareScreenshots PNG_sync_read pixelmatch o c w).2 =
          console w ++ [comparing_line o c; result_line similarity] /\
        passed = (90 <=? similarity)%float
  end.
Proof.
  rewrite compareScreenshots_outcome.
  destruct (compare_outcome PNG_sync_read pixelmatch w o c) as [e|s]; cbn.
  - split; reflexivity.
  - split; [reflexivity|]. exists s. split; reflexivity.
Qed.

(** X9.  A name is resolved to the same file whether it is passed bare or
    already under [screenshots/], so the verdict is the same. *)
Theorem bare_and_prefixed_names_agree (w : World) (o c : string) :
  verdict w (screenshot_path o) (screenshot_path c) = verdict w o c.
Proof. unfold compare_outcome. rewrite !screenshot_path_idempotent. reflexivity. Qed.

End BaselineFacts.

(** ** The names of the screenshots *)

Lemma includes_colon_cons (c : Ascii.ascii) (s : string) :
  includes (String c s) ":" = Ascii.eqb c colon || includes s ":".
Proof.
  cbn [includes String.prefix]. f_equal.
  match goal with |- context [Ascii.ascii_dec ?a c] =>
    destruct (Ascii.ascii_dec a c) as [<-|Hne] end.
  - destruct s; reflexivity.
  - symmetry. apply Ascii.eqb_neq. intros ->. apply Hne. reflexivity.
Qed.

Lemma includes_colon_append (a b : string) :
  includes (a +:+ b) ":" = includes a ":" || includes b ":".
Proof.
  induction a as [|c a IH].
  - change (EmptyString +:+ b) with b. destruct b; reflexivity.
  - change (String c a +:+ b) with (String c (a +:+ b)).
    rewrite !includes_colon_cons, IH, orb_assoc. reflexivity.
Qed.

Lemma replace_colons_no_colon (s : string) : includes (replace_colons s) ":" = false.
Proof.
  induction s as [|c s IH]; [reflexivity|].
  cbn [replace_colons]. rewrite includes_colon_cons, IH, orb_false_r.
  destruct (Ascii.eqb c colon) eqn:E; [reflexivity|exact E].
Qed.

(** X10.  Whatever the clock returns, the names of the two screenshots
    hold no colon: every colon of the timestamp is replaced, not just
    the first. *)
Theorem screenshot_names_have_no_colon (k : Key) (iso : string) :
  includes (screenshot_file k (replace_colons iso)) ":" = false.
Proof.
  destruct k; unfold screenshot_file, screenshot_name, screenshotNameInitial,
    screenshotNameFinal;
    rewrite !includes_colon_append, replace_colons_no_colon; reflexivity.
Qed.

(** ** The script and the commands it issues *)

Section ScriptFacts.

Local Open Scope script_scope.

Variable PNG_sync_read : Buffer -> Error + PNG.
Variable pixelmatch : Buffer -> Buffer -> float -> float -> float -> Error + float.
Variable shell : string -> Async ExecOutput.
Variable toLowerCase : string -> string.
Variable cwd : string.
Variable stack : Error -> string.
Variable Math_random : float.
Variables isoInitial isoFinal isoReport : string.

Abbreviation the_try :=
  (main_try PNG_sync_read pixelmatch shell toLowerCase cwd Math_random
     isoInitial isoFinal isoReport).
Abbreviation the_main :=
  (main PNG_sync_read pixelmatch shell toLowerCase cwd stack Math_random
     isoInitial isoFinal isoReport).
Abbreviation the_success := (success_report isoInitial isoFinal isoReport).

(** *** Rules for [issues] *)

Lemma issues_finish {A} (a : A) (Q : A -> list string -> Prop) :
  Q a [] -> issues (finish_with a) Q [].
Proof.
  intros H m. exists []. cbn. rewrite app_nil_r.
  split; [reflexivity|]. split; [reflexivity|]. intros b [= <-]. exact H.
Qed.

Lemma issues_lift {A} (c : Async A) (Q : A -> list string -> Prop) :
  (forall a, Q a []) -> issues (lift c) Q [].
Proof.
  intros H m. exists []. cbn. rewrite app_nil_r.
  split; [reflexivity|]. split; [reflexivity|]. intros b _. apply H.
Qed.

Lemma issues_exec (command : string) :
  issues (exec shell command) (fun _ l => l = [command]) [command].
Proof.
  intros m. exists [command]. cbn. split; [reflexivity|]. split; [reflexivity|].
  intros; reflexivity.
Qed.

Lemma issues_and_then {A B} (c : Script A) (k : A -> Script B)
    (Q : B -> list string -> Prop) (l1 l2 : list string) :
  issues c (fun _ l => l = l1) l1 ->
  (forall a, issues (k a) (fun b l => Q b (l1 ++ l)) l2) ->
  issues (and_then c k) Q (l1 ++ l2).
Proof.
  intros Hc Hk m. destruct (Hc m) as (l & Hi & Hp & Hr). unfold and_then.
  destruct (c m) as [[e|a] m1]; cbn in *.
  - exists l. split; [assumption|]. split; [|discriminate].
    apply prefix_app_r. assumption.
  - specialize (Hr a eq_refl). subst l.
    destruct (Hk a m1) as (l' & Hi' & Hp' & Hr').
    exists (l1 ++ l'). rewrite Hi', Hi, app_assoc.
    split; [reflexivity|]. split; [apply prefix_app; assumption|].
    exact Hr'.
Qed.

Lemma issues_weaken {A} (c : Script A) (Q Q' : A -> list string -> Prop)
    (bound bound' : list string) :
  issues c Q bound -> (forall a l, Q a l -> Q' a l) -> bound `prefix_of` bound' ->
  issues c Q' bound'.
Proof.
  intros H HQ Hb m. destruct (H m) as (l & Hi & Hp & Hr).
  exists l. split; [assumption|]. split; [etrans; eassumption|]. auto.
Qed.

Lemma issues_bound {A} (c : Script A) (Q : A -> list string -> Prop)
    (bound bound' : list string) :
  issues c Q bound -> bound `prefix_of` bound' -> issues c Q bound'.
Proof. intros H Hb. apply (issues_weaken c Q Q bound bound'); auto. Qed.

Lemma issues_say (m : Message) : issues (say m) (fun _ l => l = []) [].
Proof. apply issues_lift. reflexivity. Qed.

Lemma issues_sleep (ms : float) : issues (sleep ms) (fun _ l => l = []) [].
Proof. apply issues_finish. reflexivity. Qed.

Lemma issues_mkdir (path : string) : issues (mkdir path) (fun _ l => l = []) [].
Proof. apply issues_finish. reflexivity. Qed.

(** Steps through a sequence of calls whose commands are known. *)
Ltac issue_step lem :=
  eapply issues_and_then; [exact lem|intros ?; cbn [app]].

Ltac issue_say := eapply issues_and_then; [apply issues_say|intros ?; cbn [app]].

Ltac issue_end := first [apply issues_finish|apply issues_lift; intros ?]; reflexivity.

Lemma issues_focus :
  issues (focusNewestChromeWindow shell) (fun _ l => l = [focus_command]) [focus_command].
Proof.
  unfold focusNewestChromeWindow. eapply issues_bound.
  - issue_say. issue_step (issues_exec focus_command). issue_end.
  - reflexivity.
Qed.

Lemma issues_checkForLoginText :
  issues (checkForLoginText shell toLowerCase)
    (fun _ l => l = [focus_command; copy_command; paste_command])
    [focus_command; copy_command; paste_command].
Proof.
  unfold checkForLoginText. eapply issues_bound.
  - issue_say. issue_step issues_focus. issue_step (issues_exec copy_command).
    issue_step (issues_exec paste_command). issue_say.
    match goal with |- context [if ?b then _ else _] => destruct b end.
    + issue_say. issue_end.
    + issue_say. issue_end.
  - reflexivity.
Qed.

Lemma issues_pressEnter :
  issues (pressEnter shell) (fun _ l => l = [focus_command; return_command])
    [focus_command; return_command].
Proof.
  unfold pressEnter. eapply issues_bound.
  - issue_step issues_focus. issue_step (issues_exec return_command). issue_end.
  - reflexivity.
Qed.

Lemma issues_typeText (text : string) :
  issues (typeText shell text) (fun _ l => l = [focus_command; type_command text])
    [focus_command; type_command text].
Proof.
  unfold typeText. eapply issues_bound.
  - issue_step issues_focus. issue_step (issues_exec (type_command text)). issue_end.
  - reflexivity.
Qed.

Lemma issues_openChrome :
  issues (openChrome shell) (fun _ l => l = [chrome_command]) [chrome_command].
Proof.
  unfold openChrome. eapply issues_bound.
  - issue_say. issue_step (issues_exec chrome_command). issue_say. issue_end.
  - reflexivity.
Qed.

Lemma issues_press_tabs (times : nat) :
  issues (press_tabs shell Math_random times)
    (fun _ l => l = replicate times tab_command) (replicate times tab_command).
Proof.
  induction times as [|n IH]; cbn [press_tabs replicate].
  - issue_end.
  - change (tab_command :: replicate n tab_command)
      with ([tab_command] ++ [] ++ replicate n tab_command).
    issue_step (issues_exec tab_command).
    apply (issues_and_then _ _ _ [] (replicate n tab_command)); [apply issues_sleep|].
    intros _. eapply issues_weaken; [exact IH|intros ? ? ->; reflexivity|reflexivity].
Qed.

Lemma issues_pressTabRandomly (times : nat) :
  issues (pressTabRandomly shell Math_random times)
    (fun _ l => l = focus_command :: replicate times tab_command)
    (focus_command :: replicate times tab_command).
Proof.
  unfold pressTabRandomly.
  change (focus_command :: replicate times tab_command)
    with ([focus_command] ++ replicate times tab_command).
  issue_step issues_focus.
  eapply issues_weaken;
    [apply issues_press_tabs|intros ? ? ->; reflexivity|reflexivity].
Qed.

Lemma issues_takeScreenshot (filename : string) :
  issues (takeScreenshot shell filename)
    (fun _ l => l = [import_command ("screenshots/" +:+ filename)])
    [import_command ("screenshots/" +:+ filename)].
Proof.
  unfold takeScreenshot. eapply issues_bound.
  - issue_step (issues_exec (import_command ("screenshots/" +:+ filename))).
    intros m. exists []. unfold try_catch, and_then, lift, say, throw, access, log. cbn.
    destruct (files (world m) !! _); cbn; rewrite app_nil_r;
      (split; [reflexivity|]); (split; [reflexivity|]); intros; reflexivity.
  - reflexivity.
Qed.

Ltac issue_lift := eapply issues_and_then; [apply issues_lift; reflexivity|intros ?; cbn [app]].

Ltac issue_pause := eapply issues_and_then; [apply issues_sleep|intros ?; cbn [app]].

(** The [try] block issues nothing but the posting sequence, up to the
    point where it stops, and resolves in two ways only. *)
Lemma issues_main_try :
  issues the_try
    (fun r l => (r = login_required_report /\ l = opening_commands) \/
                (r = the_success /\ l = posting_commands isoInitial isoFinal))
    (posting_commands isoInitial isoFinal).
Proof.
  unfold main_try. eapply issues_bound.
  - issue_say. issue_say.
    eapply issues_and_then; [apply issues_mkdir|intros ?; cbn [app]].
    issue_step issues_openChrome. issue_say. issue_pause.
    issue_step issues_checkForLoginText.
    match goal with a : bool |- _ => destruct a end; cycle 1.
    + issue_say.
      issue_step (issues_takeScreenshot (screenshotNameInitial (replace_colons isoInitial))).
      issue_lift. issue_step issues_focus.
      issue_say. issue_step (issues_pressTabRandomly 18).
      issue_say. issue_step (issues_typeText title_text).
      issue_say. issue_step (issues_pressTabRandomly 2).
      issue_say. issue_step (issues_typeText body_text).
      issue_say. issue_step (issues_pressTabRandomly 4).
      issue_say. issue_step issues_pressEnter.
      issue_say. issue_pause. issue_say.
      issue_step (issues_takeScreenshot (screenshotNameFinal (replace_colons isoFinal))).
      issue_lift. issue_say.
      apply issues_finish. right. split; reflexivity.
    + apply issues_bound with (bound := [] ++ []); [|apply prefix_nil].
      issue_say. apply issues_finish. left. split; reflexivity.
  - reflexivity.
Qed.

(** *** The three blocks of [main] *)

Lemma main_catch_run (e : Error) (m : Machine) :
  exists m', main_catch stack e m = (inr (failure_report stack e), m') /\
             files (world m') = files (world m) /\ issued m' = issued m.
Proof. eexists. split; [reflexivity|]. split; reflexivity. Qed.

(** The [finally] block always asks for the focus, and closes the
    window unless that fails; it rejects only with an error of one of
    its two commands. *)
Lemma main_finally_run (m : Machine) :
  (exists m', main_finally shell m = (inr tt, m') /\
              issued m' = issued m ++ closing_commands) \/
  (exists e m', main_finally shell m = (inl e, m') /\
     ((issued m' = issued m ++ [focus_command] /\
       exists w, (shell focus_command w).1 = inl e) \/
      (issued m' = issued m ++ closing_commands /\
       exists w, (shell close_command w).1 = inl e))).
Proof.
  unfold main_finally, focusNewestChromeWindow, and_then, say, lift, log, exec. cbn.
  match goal with |- context [shell focus_command ?w] =>
    destruct (shell focus_command w) as [[e|out] w1] eqn:E1 end; cbn.
  - right. eexists _, _. split; [reflexivity|]. left. split; [reflexivity|].
    eexists. rewrite E1. reflexivity.
  - match goal with |- context [shell ?c ?w] =>
      change c with close_command;
      destruct (shell close_command w) as [[e|out2] w2] eqn:E2 end; cbn.
    + right. eexists _, _. split; [reflexivity|]. right.
      rewrite <- app_assoc. split; [reflexivity|].
      eexists. rewrite E2. reflexivity.
    + left. eexists. split; [reflexivity|]. cbn. rewrite <- app_assoc. reflexivity.
Qed.

Lemma try_finally_machine {A} (c : Script A) (f : Script unit) (m : Machine) :
  (try_finally c f m).2 = (f (c m).2).2.
Proof. unfold try_finally. destruct (f (c m).2) as [[e|u] m']; reflexivity. Qed.

Lemma try_finally_resolved {A} (c : Script A) (f : Script unit) (m : Machine) (a : A) :
  (try_finally c f m).1 = inr a ->
  (c m).1 = inr a /\ exists m', f (c m).2 = (inr tt, m').
Proof.
  unfold try_finally. destruct (f (c m).2) as [[e|[]] m']; cbn; [discriminate|].
  intros H. split; [exact H|]. eexists. reflexivity.
Qed.


(** What a [try] block and the [catch] block of [main] together come to. *)
Lemma guarded_run (body : Script Report) (Q : Report -> list string -> Prop)
    (bound : list string) (m : Machine) :
  issues body Q bound ->
  exists (r : Report) (m1 : Machine) (l : list string),
    try_catch body (main_catch stack) m = (inr r, m1) /\
    issued m1 = issued m ++ l /\
    l `prefix_of` bound /\
    ((Q r l /\ (body m).1 = inr r) \/
     (exists e, r = failure_report stack e /\ (body m).1 = inl e)).
Proof.
  intros Hbody. destruct (Hbody m) as (l & Hi & Hp & Hr). unfold try_catch.
  destruct (body m) as [[e|r] m1] eqn:E; cbn [fst snd] in *; cbn beta iota.
  - destruct (main_catch_run e m1) as (m' & -> & _ & Hi').
    exists (failure_report stack e), m', l. rewrite Hi', Hi.
    split; [reflexivity|]. split; [reflexivity|]. split; [assumption|].
    right. eauto.
  - exists r, m1, l. split; [reflexivity|]. split; [assumption|]. split; [assumption|].
    left. auto.
Qed.

Lemma guarded_try_run (m : Machine) :
  exists (r : Report) (m1 : Machine) (l : list string),
    try_catch the_try (main_catch stack) m = (inr r, m1) /\
    issued m1 = issued m ++ l /\
    l `prefix_of` posting_commands isoInitial isoFinal /\
    ((r = login_required_report /\ l = opening_commands /\ (the_try m).1 = inr r) \/
     (r = the_success /\ l = posting_commands isoInitial isoFinal /\ (the_try m).1 = inr r) \/
     (exists e, r = failure_report stack e /\ (the_try m).1 = inl e)).
Proof.
  destruct (guarded_run _ _ _ m issues_main_try) as (r & m1 & l & E & Hi & Hp & H).
  exists r, m1, l. split; [exact E|]. split; [exact Hi|]. split; [exact Hp|].
  destruct H as [[[[-> ->]|[-> ->]] Hr]|H]; auto.
Qed.

Lemma main_machine (m : Machine) :
  (the_main m).2 =
  (main_finally shell (try_catch the_try (main_catch stack) m).2).2.
Proof. apply try_finally_machine. Qed.

Lemma focus_issued (m : Machine) :
  issued (focusNewestChromeWindow shell m).2 = issued m ++ [focus_command].
Proof.
  unfold focusNewestChromeWindow, and_then, say, lift, log, exec.
  cbn [fst snd world issued files console].
  match goal with |- context [shell focus_command ?w] =>
    destruct (shell focus_command w) as [[e|out] w1] end; reflexivity.
Qed.

(** *** Properties of the helpers *)

(** X11.  [takeScreenshot] resolves exactly when the [import] command
    succeeds and the file it names exists afterwards; in every case
    [import] is the one command it issues. *)
Theorem takeScreenshot_resolves_iff_file_saved (filename : string) (m : Machine) :
  let command := import_command ("screenshots/" +:+ filename) in
  ((takeScreenshot shell filename m).1 = inr tt <->
   (exists out, (shell command (world m)).1 = inr out) /\
   is_Some (files (shell command (world m)).2 !! ("screenshots/" +:+ filename))) /\
  issued (takeScreenshot shell filename m).2 = issued m ++ [command].
Proof.
  cbn zeta. unfold takeScreenshot, try_catch, and_then, exec, lift, say, throw, access, log.
  change ("import -window root " +:+ "screenshots/" +:+ filename)
    with (import_command ("screenshots/" +:+ filename)).
  destruct (shell (import_command ("screenshots/" +:+ filename)) (world m))
    as [[e|out] w1]; cbn.
  - split; [|reflexivity]. split; [discriminate|]. intros [[out [=]] _].
  - destruct (files w1 !! ("screenshots/" +:+ filename)) as [b|] eqn:E; cbn; rewrite ?E.
    + split; [|reflexivity]. split; [eauto|reflexivity].
    + split; [|reflexivity]. split; [discriminate|].
      intros [_ [b [=]]].
Qed.


(** *** Properties of [main] *)

(** The [finally] block, by the outcome of its request for the focus:
    when the request fails the block rejects with its error and the
    window is not closed; otherwise the command that closes the window
    is issued next. *)
Lemma main_finally_by_focus (m : Machine) :
  match (focusNewestChromeWindow shell (say [Text "Closing browser"] m).2).1 with
  | inr _ => issued (main_finally shell m).2 = issued m ++ closing_commands
  | inl e =>
      issued (main_finally shell m).2 = issued m ++ [focus_command] /\
      (main_finally shell m).1 = inl e
  end.
Proof.
  pose proof (focus_issued (say [Text "Closing browser"] m).2) as Hf.
  assert (E : main_finally shell m =
    match focusNewestChromeWindow shell (say [Text "Closing browser"] m).2 with
    | (inl e, m') => (inl e, m')
    | (inr _, m') =>
        (exec shell close_command ;; say [Text "Browser closed"]) m'
    end) by reflexivity.
  rewrite E. clear E.
  destruct (focusNewestChromeWindow shell (say [Text "Closing browser"] m).2)
    as [[e|u] m'] eqn:Ef; cbn [fst snd] in *.
  - split; [exact Hf|reflexivity].
  - unfold and_then, exec, say, lift, log. cbn [fst snd world issued].
    destruct (shell close_command (world m')) as [[e|out] w1]; cbn [fst snd issued];
      rewrite Hf, <- app_assoc; reflexivity.
Qed.

Lemma try_finally_rejects {A} (c : Script A) (f : Script unit) (m : Machine) (e : Error) :
  (f (c m).2).1 = inl e -> (try_finally c f m).1 = inl e.
Proof.
  unfold try_finally. destruct (f (c m).2) as [[e'|u] m']; cbn [fst]; [|discriminate].
  intros [= ->]. reflexivity.
Qed.

(** X13.  Whatever the shell does, [main] issues an initial segment of the
    posting sequence up to the end of its [try] and [catch] blocks, and
    then the commands of its [finally] block, by the outcome of the
    request for the focus made there: when the request succeeds, the
    request and the command that closes the window; when it fails, the
    request alone, and [main] rejects with its error, the window left
    open. *)
Theorem main_issues_only_the_posting_sequence (m : Machine) :
  let after_try := (try_catch the_try (main_catch stack) m).2 in
  let at_focus := (say [Text "Closing browser"] after_try).2 in
  exists l : list string,
    l `prefix_of` posting_commands isoInitial isoFinal /\
    issued after_try = issued m ++ l /\
    match (focusNewestChromeWindow shell at_focus).1 with
    | inr _ => issued (the_main m).2 = issued m ++ l ++ closing_commands
    | inl e =>
        issued (the_main m).2 = issued m ++ l ++ [focus_command] /\
        (the_main m).1 = inl e
    end.
Proof.
  cbn zeta.
  destruct (guarded_try_run m) as (r & m1 & l & E & Hi & Hp & _).
  exists l. split; [assumption|]. rewrite E. cbn [snd]. split; [assumption|].
  pose proof (main_finally_by_focus m1) as H.
  rewrite main_machine, E. cbn [snd].
  destruct (focusNewestChromeWindow shell (say [Text "Closing browser"] m1).2).1 as [e|u].
  - destruct H as [H He]. split.
    + rewrite H, Hi, <- app_assoc. reflexivity.
    + apply try_finally_rejects. rewrite E. exact He.
  - rewrite H, Hi, <- app_assoc. reflexivity.
Qed.


(** X15.  A success report is only ever returned after the whole posting
    sequence and the two closing commands have been issued, in order. *)
Theorem success_report_after_whole_sequence (m : Machine) (r : Report) :
  (the_main m).1 = inr r -> report_success r = true ->
  issued (the_main m).2 =
    issued m ++ posting_commands isoInitial isoFinal ++ closing_commands.
Proof.
  intros E Hs. rewrite main_machine.
  apply try_finally_resolved in E. destruct E as [E [m' Hf]].
  destruct (guarded_try_run m) as (r' & m1 & l & Hg & Hi & _ & H). rewrite Hg in E, Hf |- *.
  cbn [fst snd] in *. injection E as ->.
  destruct (main_finally_run m1) as [(m2 & Hf' & Hc)|(e & m2 & Hf' & _)];
    rewrite Hf' in Hf; [|discriminate]. rewrite Hf'. cbn [snd]. rewrite Hc, Hi.
  destruct H as [(-> & _)|[(_ & -> & _)|(e & -> & _)]]; try discriminate.
  rewrite <- app_assoc. reflexivity.
Qed.

(** X16.  The login report is only returned when nothing but the opening
    commands and the two closing commands has been issued: no
    screenshot is taken, no key of the form is pressed. *)
Theorem login_report_after_opening_only (m : Machine) :
  (the_main m).1 = inr login_required_report ->
  issued (the_main m).2 = issued m ++ opening_commands ++ closing_commands.
Proof.
  intros E. rewrite main_machine.
  apply try_finally_resolved in E. destruct E as [E [m' Hf]].
  destruct (guarded_try_run m) as (r' & m1 & l & Hg & Hi & _ & H). rewrite Hg in E, Hf |- *.
  cbn [fst snd] in *. injection E as ->.
  destruct (main_finally_run m1) as [(m2 & Hf' & Hc)|(e & m2 & Hf' & _)];
    rewrite Hf' in Hf; [|discriminate]. rewrite Hf'. cbn [snd]. rewrite Hc, Hi.
  destruct H as [(_ & -> & _)|[(H & _)|(e & H & _)]]; try discriminate.
  rewrite <- app_assoc. reflexivity.
Qed.

(** *** The other three scripts *)

Abbreviation upvote_try :=
  (Upvote.main_try shell cwd Math_random isoInitial isoFinal isoReport).
Abbreviation upvote_main :=
  (Upvote.main shell cwd stack Math_random isoInitial isoFinal isoReport).
Abbreviation message_try :=
  (IgMessage.main_try shell cwd Math_random isoInitial isoFinal isoReport).
Abbreviation message_main :=
  (IgMessage.main shell cwd stack Math_random isoInitial isoFinal isoReport).
Abbreviation login_try :=
  (Login.main_try shell cwd Math_random isoInitial isoFinal isoReport).
Abbreviation login_main :=
  (Login.main shell cwd stack Math_random isoInitial isoFinal isoReport).

Lemma issues_plain_pressEnter :
  issues (Plain.pressEnter shell) (fun _ l => l = [return_command]) [return_command].
Proof.
  unfold Plain.pressEnter. eapply issues_bound.
  - issue_step (issues_exec return_command). issue_end.
  - reflexivity.
Qed.

Lemma issues_plain_typeText (text : string) :
  issues (Plain.typeText shell text) (fun _ l => l = [type_command text])
    [type_command text].
Proof.
  unfold Plain.typeText. eapply issues_bound.
  - issue_step (issues_exec (type_command text)). issue_end.
  - reflexivity.
Qed.


Lemma issues_pressCtrlF :
  issues (Upvote.pressCtrlF shell) (fun _ l => l = [focus_command; "xdotool key ctrl+f"])
    [focus_command; "xdotool key ctrl+f"].
Proof.
  unfold Upvote.pressCtrlF. eapply issues_bound.
  - issue_say. issue_step issues_focus. issue_step (issues_exec "xdotool key ctrl+f").
    issue_end.
  - reflexivity.
Qed.


Lemma issues_press_shift_tabs (times : nat) :
  issues (Upvote.press_shift_tabs shell Math_random times)
    (fun _ l => l = replicate times "xdotool key shift+Tab")
    (replicate times "xdotool key shift+Tab").
Proof.
  induction times as [|n IH]; cbn [Upvote.press_shift_tabs replicate].
  - issue_end.
  - change ("xdotool key shift+Tab" :: replicate n "xdotool key shift+Tab")
      with (["xdotool key shift+Tab"] ++ [] ++ replicate n "xdotool key shift+Tab").
    issue_step (issues_exec "xdotool key shift+Tab").
    apply (issues_and_then _ _ _ [] (replicate n "xdotool key shift+Tab"));
      [apply issues_sleep|].
    intros _. eapply issues_weaken; [exact IH|intros ? ? ->; reflexivity|reflexivity].
Qed.

Lemma issues_pressShiftTab (times : nat) :
  issues (Upvote.pressShiftTab shell Math_random times)
    (fun _ l => l = focus_command :: replicate times "xdotool key shift+Tab")
    (focus_command :: replicate times "xdotool key shift+Tab").
Proof.
  unfold Upvote.pressShiftTab. eapply issues_bound.
  - issue_say. issue_step issues_focus.
    eapply issues_and_then; [apply issues_press_shift_tabs|intros ?].
    apply issues_lift. intros _. rewrite !app_nil_r. reflexivity.
  - rewrite !app_nil_r. reflexivity.
Qed.

Lemma issues_upvote_try :
  issues upvote_try
    (fun r l => r = Upvote.success_report isoInitial isoFinal isoReport /\
                l = upvote_commands isoInitial isoFinal)
    (upvote_commands isoInitial isoFinal).
Proof.
  unfold Upvote.main_try. eapply issues_bound.
  - issue_say. eapply issues_and_then; [apply issues_mkdir|intros ?; cbn [app]].
    issue_say. issue_say.
    issue_step (issues_exec ("google-chrome --new-window " +:+ Upvote.url)).
    issue_say. issue_pause.
    issue_step (issues_takeScreenshot (Upvote.screenshotNameInitial (replace_colons isoInitial))).
    issue_say. issue_step issues_pressCtrlF. issue_pause.
    issue_step (issues_plain_typeText "reply").
    issue_step (issues_exec "xdotool key Escape").
    issue_say. issue_step (issues_pressShiftTab 2).
    issue_say. issue_step issues_plain_pressEnter.
    issue_say. issue_pause. issue_say.
    issue_step (issues_takeScreenshot (Upvote.screenshotNameFinal (replace_colons isoFinal))).
    issue_say. apply issues_finish. split; reflexivity.
  - reflexivity.
Qed.




(** X23.  Whatever the shell does, the upvote script issues an initial
    segment of its sequence up to the end of its [try] and [catch]
    blocks, and then the commands of its [finally] block, by the outcome
    of the request for the focus made there: when the request succeeds,
    the request and the command that closes the window; when it fails,
    the request alone, and [main] rejects with its error, the window
    left open. *)
Theorem upvote_issues_only_its_sequence (m : Machine) :
  let after_try := (try_catch upvote_try (main_catch stack) m).2 in
  let at_focus := (say [Text "Closing browser"] after_try).2 in
  exists l : list string,
    l `prefix_of` upvote_commands isoInitial isoFinal /\
    issued after_try = issued m ++ l /\
    match (focusNewestChromeWindow shell at_focus).1 with
    | inr _ => issued (upvote_main m).2 = issued m ++ l ++ closing_commands
    | inl e =>
        issued (upvote_main m).2 = issued m ++ l ++ [focus_command] /\
        (upvote_main m).1 = inl e
    end.
Proof.
  cbn zeta. unfold Upvote.main.
  destruct (guarded_run _ _ _ m issues_upvote_try) as (r & m1 & l & E & Hi & Hp & _).
  exists l. split; [assumption|]. rewrite E. cbn [snd]. split; [assumption|].
  pose proof (main_finally_by_focus m1) as H.
  rewrite try_finally_machine, E. cbn [snd].
  destruct (focusNewestChromeWindow shell (say [Text "Closing browser"] m1).2).1 as [e|u].
  - destruct H as [H He]. split.
    + rewrite H, Hi, <- app_assoc. reflexivity.
    + apply try_finally_rejects. rewrite E. exact He.
  - rewrite H, Hi, <- app_assoc. reflexivity.
Qed.



(** *** Runs on a responsive shell *)

Lemma resolves_and_then {A B} (c : Script A) (k : A -> Script B) (m : Machine)
    (P : A -> Machine -> Prop) (Q : B -> Machine -> Prop) :
  resolves c m P -> (forall a m1, P a m1 -> resolves (k a) m1 Q) ->
  resolves (and_then c k) m Q.
Proof.
  intros (a & m1 & E & HP) Hk. unfold resolves, and_then. rewrite E. exact (Hk a m1 HP).
Qed.

Lemma rejects_and_then {A B} (c : Script A) (k : A -> Script B) (m : Machine)
    (P : A -> Machine -> Prop) (Q : Error -> Machine -> Prop) :
  resolves c m P -> (forall a m1, P a m1 -> rejects (k a) m1 Q) ->
  rejects (and_then c k) m Q.
Proof.
  intros (a & m1 & E & HP) Hk. unfold rejects, and_then. rewrite E. exact (Hk a m1 HP).
Qed.

Lemma rejects_at_once {A B} (c : Script A) (k : A -> Script B) (m : Machine)
    (Q : Error -> Machine -> Prop) :
  rejects c m Q -> rejects (and_then c k) m Q.
Proof.
  intros (e & m1 & E & HQ). unfold rejects, and_then. rewrite E. eauto.
Qed.

Lemma resolves_finish {A} (a : A) (m : Machine) (Q : A -> Machine -> Prop) :
  Q a m -> resolves (finish_with a) m Q.
Proof. intros H. exists a, m. auto. Qed.

Lemma resolves_say (msg : Message) (m0 m : Machine) fs l :
  reaches m0 fs l m -> resolves (say msg) m (fun _ m' => reaches m0 fs l m').
Proof. intros [Hf Hi]. eexists _, _. split; [reflexivity|]. split; assumption. Qed.

Lemma resolves_sleep (ms : float) (m0 m : Machine) fs l :
  reaches m0 fs l m -> resolves (sleep ms) m (fun _ m' => reaches m0 fs l m').
Proof. intros H. apply resolves_finish. exact H. Qed.

Lemma resolves_mkdir (path : string) (m0 m : Machine) fs l :
  reaches m0 fs l m -> resolves (mkdir path) m (fun _ m' => reaches m0 fs l m').
Proof. intros H. apply resolves_finish. exact H. Qed.

Lemma import_command_inj (p q : string) : import_command p = import_command q -> p = q.
Proof. unfold import_command. cbn. intros [=]. assumption. Qed.

Section Responsive.

Hypothesis shell_responsive : responsive shell.

Lemma resolves_exec (command : string) (m0 m : Machine) fs l :
  (forall path, command <> import_command path) ->
  reaches m0 fs l m ->
  resolves (exec shell command) m
    (fun out m' => reaches m0 fs (l ++ [command]) m' /\
                   exists w w', shell command w = (inr out, w')).
Proof.
  intros Hc [Hf Hi].
  destruct (commands_succeed shell shell_responsive command (world m)) as (out & w' & E).
  pose proof (keys_keep_files shell shell_responsive command (world m) Hc) as Hk.
  unfold resolves, exec. rewrite E in Hk |- *. cbn [fst snd] in *.
  eexists _, _. split; [reflexivity|]. split.
  - split; cbn [world issued]; [congruence|]. rewrite Hi, app_assoc. reflexivity.
  - eauto.
Qed.

Lemma resolves_import (path : string) (m0 m : Machine) fs l :
  reaches m0 fs l m ->
  resolves (exec shell (import_command path)) m
    (fun _ m' => exists shot, reaches m0 (<[path := shot]> fs) (l ++ [import_command path]) m' /\
                 exists w, files (shell (import_command path) w).2 !! path = Some shot).
Proof.
  intros [Hf Hi].
  destruct (commands_succeed shell shell_responsive (import_command path) (world m))
    as (out & w' & E).
  destruct (import_saves shell shell_responsive path (world m)) as (shot & Hs).
  unfold resolves, exec.
  eexists out, _. rewrite E. cbn [fst snd]. split; [reflexivity|].
  exists shot. split.
  - split; cbn [world issued].
    + rewrite E in Hs. cbn [snd] in Hs. rewrite Hs, Hf. reflexivity.
    + rewrite Hi, app_assoc. reflexivity.
  - exists (world m). rewrite Hs. apply lookup_insert_eq.
Qed.

Lemma reaches_commands (m0 m : Machine) fs l l' :
  reaches m0 fs l m -> l = l' -> reaches m0 fs l' m.
Proof. intros H <-. exact H. Qed.

Lemma resolves_try_catch {A} (c : Script A) (h : Error -> Script A) (m : Machine)
    (Q : A -> Machine -> Prop) :
  resolves c m Q -> resolves (try_catch c h) m Q.
Proof. intros (a & m1 & E & HQ). unfold resolves, try_catch. rewrite E. eauto. Qed.

Ltac not_import :=
  let p := fresh "p" in let H := fresh "H" in
  intros p H; vm_compute in H; discriminate H.

Ltac run_say :=
  eapply resolves_and_then; [eapply resolves_say; eassumption|intros ? ? ?; cbn beta in *].

Ltac run_exec :=
  eapply resolves_and_then;
    [eapply resolves_exec; [not_import|eassumption]|intros ? ? [? ?]; cbn beta in *].

Ltac run lem :=
  eapply resolves_and_then; [eapply lem; eassumption|intros ? ? ?; cbn beta in *].

Lemma resolves_focus (m0 m : Machine) fs l :
  reaches m0 fs l m ->
  resolves (focusNewestChromeWindow shell) m
    (fun _ m' => reaches m0 fs (l ++ [focus_command]) m').
Proof.
  intros H. unfold focusNewestChromeWindow.
  run_say. run_exec. eapply resolves_say. eassumption.
Qed.

Lemma resolves_checkForLoginText (b : bool) (m0 m : Machine) fs l :
  (forall w out w', shell paste_command w = (inr out, w') ->
     includes (toLowerCase (stdout out)) "log in" = b) ->
  reaches m0 fs l m ->
  resolves (checkForLoginText shell toLowerCase) m
    (fun v m' => v = b /\
       reaches m0 fs (l ++ [focus_command; copy_command; paste_command]) m').
Proof.
  intros Hb H. unfold checkForLoginText.
  run_say. run resolves_focus. run_exec.
  eapply resolves_and_then;
    [eapply resolves_exec; [not_import|eassumption]|intros out m4 [H4 (w & w' & Hout)]; cbn beta in *].
  run_say.
  change "xclip -o -selection clipboard" with paste_command in Hout.
  rewrite (Hb w out w' Hout).
  destruct b; run_say; apply resolves_finish; (split; [reflexivity|]);
    (eapply reaches_commands; [eassumption|]); rewrite <- !app_assoc; reflexivity.
Qed.

Lemma resolves_takeScreenshot (filename : string) (m0 m : Machine) fs l :
  reaches m0 fs l m ->
  resolves (takeScreenshot shell filename) m
    (fun _ m' => exists shot,
       reaches m0 (<[("screenshots/" +:+ filename) := shot]> fs)
         (l ++ [import_command ("screenshots/" +:+ filename)]) m' /\
       exists w, files (shell (import_command ("screenshots/" +:+ filename)) w).2
                   !! ("screenshots/" +:+ filename) = Some shot).
Proof.
  intros H. unfold takeScreenshot.
  eapply resolves_and_then; [eapply (resolves_import ("screenshots/" +:+ filename)); eassumption|].
  intros ? m1 (shot & H1 & Hw). apply resolves_try_catch.
  eapply resolves_and_then.
  - destruct H1 as [Hf Hi]. unfold resolves, lift, access. rewrite Hf, lookup_insert_eq.
    cbn [fst snd]. eexists tt, _. split; [reflexivity|].
    instantiate (1 := fun _ m' => reaches m0 (<[("screenshots/" +:+ filename) := shot]> fs)
                          (l ++ [import_command ("screenshots/" +:+ filename)]) m').
    split; cbn [world issued]; assumption.
  - intros ? m2 H2. cbn beta in H2. eapply resolves_say in H2.
    destruct H2 as (u & m3 & E & H3). exists u, m3. split; [exact E|]. eauto.
Qed.

Lemma resolves_press_tabs (times : nat) (m0 : Machine) fs :
  forall l m, reaches m0 fs l m ->
  resolves (press_tabs shell Math_random times) m
    (fun _ m' => reaches m0 fs (l ++ replicate times tab_command) m').
Proof.
  induction times as [|n IH]; intros l m H; cbn [press_tabs replicate].
  - apply resolves_finish. rewrite app_nil_r. exact H.
  - run_exec. run resolves_sleep.
    eapply IH in H2. destruct H2 as (u & m' & E & H').
    exists u, m'. split; [exact E|].
    eapply reaches_commands; [exact H'|]. rewrite <- app_assoc. reflexivity.
Qed.

Lemma resolves_pressTabRandomly (times : nat) (m0 m : Machine) fs l :
  reaches m0 fs l m ->
  resolves (pressTabRandomly shell Math_random times) m
    (fun _ m' => reaches m0 fs (l ++ focus_command :: replicate times tab_command) m').
Proof.
  intros H. unfold pressTabRandomly. run resolves_focus.
  eapply resolves_press_tabs in H0. destruct H0 as (u & m' & E & H').
  exists u, m'. split; [exact E|].
  eapply reaches_commands; [exact H'|]. rewrite <- app_assoc. reflexivity.
Qed.

Lemma resolves_typeText (text : string) (m0 m : Machine) fs l :
  reaches m0 fs l m ->
  resolves (typeText shell text) m
    (fun _ m' => reaches m0 fs (l ++ [focus_command; type_command text]) m').
Proof.
  intros H. unfold typeText. run resolves_focus.
  eapply resolves_and_then.
  - eapply (resolves_exec (type_command text)); [|eassumption].
    intros p Hp. apply (f_equal (fun s => String.get 0 s)) in Hp. discriminate Hp.
  - intros out m2 [H2 _]. apply resolves_finish.
    eapply reaches_commands; [exact H2|]. rewrite <- app_assoc. reflexivity.
Qed.

Lemma resolves_pressEnter (m0 m : Machine) fs l :
  reaches m0 fs l m ->
  resolves (pressEnter shell) m
    (fun _ m' => reaches m0 fs (l ++ [focus_command; return_command]) m').
Proof.
  intros H. unfold pressEnter. run resolves_focus. run_exec.
  apply resolves_finish.
  eapply reaches_commands; [eassumption|]. rewrite <- app_assoc. reflexivity.
Qed.

Lemma resolves_openChrome (m0 m : Machine) fs l :
  reaches m0 fs l m ->
  resolves (openChrome shell) m
    (fun _ m' => reaches m0 fs (l ++ [chrome_command]) m').
Proof.
  intros H. unfold openChrome. run_say. run_exec. run_say.
  eapply resolves_sleep. eassumption.
Qed.

(** The check of a key that has no baseline yet, after its screenshot. *)
Lemma resolves_establish (k : Key) (ts : string) (shot : Buffer) (m0 m : Machine) fs l :
  reaches m0 fs l m ->
  fs !! baseline_path k = None ->
  fs !! screenshot_file k ts = Some shot ->
  resolves (lift (main_baseline PNG_sync_read pixelmatch k ts)) m
    (fun _ m' => reaches m0 (<[baseline_path k := shot]> fs) l m').
Proof.
  intros [Hf Hi] Hb Hs. unfold resolves, lift.
  rewrite (main_baseline_establishes PNG_sync_read pixelmatch k ts (world m) shot)
    by (rewrite Hf; assumption).
  cbn [fst snd]. eexists _, _. split; [reflexivity|].
  split; cbn [world issued files]; [rewrite Hf; reflexivity|assumption].
Qed.

(** The check of a key whose baseline exists: it passes or rejects with
    the verdict, and writes nothing. *)
Lemma lift_compare (k : Key) (ts : string) (m0 m : Machine) fs l :
  reaches m0 fs l m ->
  is_Some (fs !! baseline_path k) ->
  exists m',
    lift (main_baseline PNG_sync_read pixelmatch k ts) m =
      (match compare_outcome PNG_sync_read pixelmatch (mkWorld fs [])
               (baseline_name k) (compared_name k ts) with
       | inl e => inl e
       | inr s => if (90 <=? s)%float then inr tt else inl (comparison_failed k)
       end, m') /\
    reaches m0 fs l m'.
Proof.
  intros [Hf Hi] Hb. unfold lift. eexists. split.
  - f_equal. rewrite main_baseline_compares by (rewrite Hf; assumption).
    destruct (world m) as [fs' cs]. cbn [files] in Hf. subst fs'. reflexivity.
  - split; cbn [world issued]; [|assumption].
    rewrite main_baseline_files_kept by (rewrite Hf; assumption). assumption.
Qed.

Lemma verdict_of_similarity (k : Key) (ts : string) fs (base shot : Buffer) (s : float) :
  fs !! baseline_path k = Some base ->
  fs !! screenshot_file k ts = Some shot ->
  similarity_between PNG_sync_read pixelmatch base shot = Some s ->
  compare_outcome PNG_sync_read pixelmatch (mkWorld fs []) (baseline_name k) (compared_name k ts)
    = inr s.
Proof.
  intros Hb Hs. unfold similarity_between, compare_outcome.
  rewrite baseline_name_path, compared_name_path. cbn [files]. rewrite Hb, Hs.
  destruct (PNG_sync_read base) as [e|p0]; [discriminate|].
  destruct (PNG_sync_read shot) as [e|p1]; [discriminate|].
  destruct (pixelmatch _ _ _ _ _) as [e|n]; [discriminate|].
  intros [= <-]. reflexivity.
Qed.

Lemma resolves_compare (k : Key) (ts : string) (base shot : Buffer) (s : float)
    (m0 m : Machine) fs l :
  reaches m0 fs l m ->
  fs !! baseline_path k = Some base ->
  fs !! screenshot_file k ts = Some shot ->
  similarity_between PNG_sync_read pixelmatch base shot = Some s ->
  (90 <=? s)%float = true ->
  resolves (lift (main_baseline PNG_sync_read pixelmatch k ts)) m
    (fun _ m' => reaches m0 fs l m').
Proof.
  intros H Hb Hs Hsim Hpass.
  destruct (lift_compare k ts m0 m fs l H) as (m' & E & H'); [rewrite Hb; eauto|].
  rewrite (verdict_of_similarity k ts fs base shot s Hb Hs Hsim), Hpass in E.
  exists tt, m'. auto.
Qed.

Lemma rejects_compare (k : Key) (ts : string) (base shot : Buffer) (s : float)
    (m0 m : Machine) fs l :
  reaches m0 fs l m ->
  fs !! baseline_path k = Some base ->
  fs !! screenshot_file k ts = Some shot ->
  similarity_between PNG_sync_read pixelmatch base shot = Some s ->
  (90 <=? s)%float = false ->
  rejects (lift (main_baseline PNG_sync_read pixelmatch k ts)) m
    (fun e m' => e = comparison_failed k /\ reaches m0 fs l m').
Proof.
  intros H Hb Hs Hsim Hfail.
  destruct (lift_compare k ts m0 m fs l H) as (m' & E & H'); [rewrite Hb; eauto|].
  rewrite (verdict_of_similarity k ts fs base shot s Hb Hs Hsim), Hfail in E.
  exists (comparison_failed k), m'. auto.
Qed.

Lemma resolves_main_finally (m0 m : Machine) fs l :
  reaches m0 fs l m ->
  resolves (main_finally shell) m
    (fun _ m' => reaches m0 fs (l ++ closing_commands) m').
Proof.
  intros H. unfold main_finally. run_say. run resolves_focus. run_exec.
  eapply resolves_say.
  eapply reaches_commands; [eassumption|]. rewrite <- app_assoc. reflexivity.
Qed.

Lemma reaches_start (m : Machine) : reaches m (files (world m)) [] m.
Proof. split; [reflexivity|]. rewrite app_nil_r. reflexivity. Qed.

(** [main] after a [try] block that resolves, and after one that rejects. *)
Lemma main_after_resolved (m : Machine) (r : Report) fs l :
  resolves the_try m (fun r' m1 => r' = r /\ reaches m fs l m1) ->
  exists m', the_main m = (inr r, m') /\ reaches m fs (l ++ closing_commands) m'.
Proof.
  intros (r' & m1 & E & -> & H). unfold main, try_finally, try_catch. rewrite E.
  cbn [fst snd].
  destruct (resolves_main_finally m m1 fs l H) as ([] & m' & -> & H').
  exists m'. split; [reflexivity|exact H'].
Qed.

Lemma main_after_rejected (m : Machine) (e : Error) fs l :
  rejects the_try m (fun e' m1 => e' = e /\ reaches m fs l m1) ->
  exists m', the_main m = (inr (failure_report stack e), m') /\
             reaches m fs (l ++ closing_commands) m'.
Proof.
  intros (e' & m1 & E & -> & H). unfold main, try_finally, try_catch. rewrite E.
  destruct (main_catch_run e m1) as (m2 & E2 & Hf2 & Hi2). rewrite E2. cbn [fst snd].
  assert (H2 : reaches m fs l m2).
  { destruct H as [Hf Hi]. split; congruence. }
  destruct (resolves_main_finally m m2 fs l H2) as ([] & m' & -> & H').
  exists m'. split; [reflexivity|exact H'].
Qed.

Ltac path_neq := let H := fresh "H" in intros H; vm_compute in H; discriminate H.

Ltac solve_lookup :=
  repeat (rewrite lookup_insert_ne by path_neq);
  first [apply lookup_insert_eq|assumption].

Ltac run_check b Hlogin :=
  eapply resolves_and_then;
    [eapply (resolves_checkForLoginText b); [exact Hlogin|eassumption]
    |intros ? ? [-> ?]; cbn beta iota in *].

(** X17.  On a responsive shell, when the page that opens shows the words
    "log in" in any letter case, [main] resolves with the login report
    after the opening and closing commands only, and no file has
    changed. *)
Theorem login_page_stops_the_run (m : Machine) :
  (forall w out w', shell paste_command w = (inr out, w') ->
     includes (toLowerCase (stdout out)) "log in" = true) ->
  exists m',
    the_main m = (inr login_required_report, m') /\
    files (world m') = files (world m) /\
    issued m' = issued m ++ opening_commands ++ closing_commands.
Proof.
  intros Hlogin.
  destruct (main_after_resolved m login_required_report (files (world m)) opening_commands)
    as (m' & E & Hf & Hi).
  - pose proof (reaches_start m) as H0. unfold main_try.
    run_say. run_say. run resolves_mkdir. run resolves_openChrome. run_say.
    run resolves_sleep. run_check true Hlogin. run_say.
    apply resolves_finish. split; [reflexivity|]. eassumption.
  - exists m'. auto.
Qed.

(** X18.  On a responsive shell, with no login text on the page and no
    baseline on disk, [main] resolves with the success report; both
    screenshots have been saved, each has become the baseline of its
    key, nothing else has changed, and the whole posting sequence has
    been issued. *)
Theorem first_run_establishes_both_baselines (m : Machine) :
  (forall w out w', shell paste_command w = (inr out, w') ->
     includes (toLowerCase (stdout out)) "log in" = false) ->
  files (world m) !! baseline_path initial = None ->
  files (world m) !! baseline_path final = None ->
  exists m' shot1 shot2,
    the_main m = (inr the_success, m') /\
    files (world m') =
      <[baseline_path final := shot2]>
        (<[screenshot_file final (replace_colons isoFinal) := shot2]>
           (<[baseline_path initial := shot1]>
              (<[screenshot_file initial (replace_colons isoInitial) := shot1]>
                 (files (world m))))) /\
    issued m' = issued m ++ posting_commands isoInitial isoFinal ++ closing_commands.
Proof.
  intros Hlogin Hbi Hbf.
  assert (Hrun : resolves the_try m (fun r m1 => exists shot1 shot2,
    r = the_success /\
    reaches m
      (<[baseline_path final := shot2]>
        (<[screenshot_file final (replace_colons isoFinal) := shot2]>
           (<[baseline_path initial := shot1]>
              (<[screenshot_file initial (replace_colons isoInitial) := shot1]>
                 (files (world m))))))
      (posting_commands isoInitial isoFinal) m1)).
  { pose proof (reaches_start m) as H0. unfold main_try.
    run_say. run_say. run resolves_mkdir. run resolves_openChrome. run_say.
    run resolves_sleep. run_check false Hlogin. run_say.
    eapply resolves_and_then; [eapply resolves_takeScreenshot; eassumption|].
    intros ? ? (shot1 & ? & _).
    eapply resolves_and_then.
    { eapply (resolves_establish initial (replace_colons isoInitial) shot1);
        [eassumption|solve_lookup|solve_lookup]. }
    intros ? ? ?; cbn beta in *.
    run resolves_focus. run_say. run (resolves_pressTabRandomly 18).
    run_say. run (resolves_typeText title_text).
    run_say. run (resolves_pressTabRandomly 2).
    run_say. run (resolves_typeText body_text).
    run_say. run (resolves_pressTabRandomly 4).
    run_say. run resolves_pressEnter. run_say. run resolves_sleep. run_say.
    eapply resolves_and_then; [eapply resolves_takeScreenshot; eassumption|].
    intros ? ? (shot2 & ? & _).
    eapply resolves_and_then.
    { eapply (resolves_establish final (replace_colons isoFinal) shot2);
        [eassumption|solve_lookup|solve_lookup]. }
    intros ? ? ?; cbn beta in *.
    run_say. apply resolves_finish. exists shot1, shot2. split; [reflexivity|].
    eassumption. }
  destruct Hrun as (r & m1 & E & shot1 & shot2 & -> & H).
  destruct (main_after_resolved m the_success _ _
              (ex_intro _ the_success (ex_intro _ m1 (conj E (conj eq_refl H)))))
    as (m' & E' & Hf & Hi).
  exists m', shot1, shot2. split; [exact E'|]. split; [exact Hf|exact Hi].
Qed.

Ltac fail_say :=
  eapply rejects_and_then; [eapply resolves_say; eassumption|intros ? ? ?; cbn beta in *].

Ltac fail_after lem :=
  eapply rejects_and_then; [eapply lem; eassumption|intros ? ? ?; cbn beta in *].

Ltac fail_after_check b Hlogin :=
  eapply rejects_and_then;
    [eapply (resolves_checkForLoginText b); [exact Hlogin|eassumption]
    |intros ? ? [-> ?]; cbn beta iota in *].

(** X19.  On a responsive shell, when the initial screenshot is less than
    90 percent similar to the initial baseline, [main] resolves with the
    failure report of the comparison; apart from the opening commands,
    the screenshot and the closing commands nothing has been issued, so
    no key of the form has been pressed, and the only file that has
    changed is the screenshot. *)
Theorem initial_mismatch_stops_before_any_key
    (m : Machine) (base shot : Buffer) (s : float) :
  (forall w out w', shell paste_command w = (inr out, w') ->
     includes (toLowerCase (stdout out)) "log in" = false) ->
  files (world m) !! baseline_path initial = Some base ->
  (forall w,
     files (shell (import_command (screenshot_file initial (replace_colons isoInitial))) w).2
       !! screenshot_file initial (replace_colons isoInitial) = Some shot) ->
  similarity_between PNG_sync_read pixelmatch base shot = Some s ->
  (90 <=? s)%float = false ->
  exists m',
    the_main m = (inr (failure_report stack (comparison_failed initial)), m') /\
    files (world m') =
      <[screenshot_file initial (replace_colons isoInitial) := shot]> (files (world m)) /\
    issued m' =
      issued m ++ opening_commands ++
      [import_command (screenshot_file initial (replace_colons isoInitial))] ++
      closing_commands.
Proof.
  intros Hlogin Hb Hshot Hsim Hfail.
  destruct (main_after_rejected m (comparison_failed initial)
              (<[screenshot_file initial (replace_colons isoInitial) := shot]> (files (world m)))
              (opening_commands ++
               [import_command (screenshot_file initial (replace_colons isoInitial))]))
    as (m' & E & Hf & Hi).
  - pose proof (reaches_start m) as H0. unfold main_try.
    fail_say. fail_say. fail_after resolves_mkdir. fail_after resolves_openChrome. fail_say.
    fail_after resolves_sleep. fail_after_check false Hlogin. fail_say.
    eapply rejects_and_then; [eapply resolves_takeScreenshot; eassumption|].
    intros ? ? (shot1 & ? & w & Hw). rewrite Hshot in Hw. injection Hw as <-.
    apply rejects_at_once.
    eapply (rejects_compare initial (replace_colons isoInitial) base shot s);
      [eassumption|solve_lookup|solve_lookup|assumption|assumption].
  - exists m'. split; [exact E|]. split; [exact Hf|].
    rewrite Hi, <- !app_assoc. reflexivity.
Qed.

(** X20.  On a responsive shell, when both baselines exist and each
    screenshot is at least 90 percent similar to its baseline, [main]
    resolves with the success report after the whole posting sequence;
    the two screenshots are the only files that have changed, and the
    baselines are the ones it started with. *)
Theorem matching_run_keeps_the_baselines
    (m : Machine) (base1 base2 shot1 shot2 : Buffer) (s1 s2 : float) :
  (forall w out w', shell paste_command w = (inr out, w') ->
     includes (toLowerCase (stdout out)) "log in" = false) ->
  files (world m) !! baseline_path initial = Some base1 ->
  files (world m) !! baseline_path final = Some base2 ->
  (forall w,
     files (shell (import_command (screenshot_file initial (replace_colons isoInitial))) w).2
       !! screenshot_file initial (replace_colons isoInitial) = Some shot1) ->
  (forall w,
     files (shell (import_command (screenshot_file final (replace_colons isoFinal))) w).2
       !! screenshot_file final (replace_colons isoFinal) = Some shot2) ->
  similarity_between PNG_sync_read pixelmatch base1 shot1 = Some s1 ->
  similarity_between PNG_sync_read pixelmatch base2 shot2 = Some s2 ->
  (90 <=? s1)%float = true ->
  (90 <=? s2)%float = true ->
  exists m',
    the_main m = (inr the_success, m') /\
    files (world m') =
      <[screenshot_file final (replace_colons isoFinal) := shot2]>
        (<[screenshot_file initial (replace_colons isoInitial) := shot1]> (files (world m))) /\
    issued m' = issued m ++ posting_commands isoInitial isoFinal ++ closing_commands.
Proof.
  intros Hlogin Hb1 Hb2 Hshot1 Hshot2 Hsim1 Hsim2 Hpass1 Hpass2.
  destruct (main_after_resolved m the_success
              (<[screenshot_file final (replace_colons isoFinal) := shot2]>
                 (<[screenshot_file initial (replace_colons isoInitial) := shot1]>
                    (files (world m))))
              (posting_commands isoInitial isoFinal))
    as (m' & E & Hf & Hi).
  - pose proof (reaches_start m) as H0. unfold main_try.
    run_say. run_say. run resolves_mkdir. run resolves_openChrome. run_say.
    run resolves_sleep. run_check false Hlogin. run_say.
    eapply resolves_and_then; [eapply resolves_takeScreenshot; eassumption|].
    intros ? ? (shot & ? & w & Hw). rewrite Hshot1 in Hw. injection Hw as <-.
    eapply resolves_and_then.
    { eapply (resolves_compare initial (replace_colons isoInitial) base1 shot1 s1);
        [eassumption|solve_lookup|solve_lookup|assumption|assumption]. }
    intros ? ? ?; cbn beta in *.
    run resolves_focus. run_say. run (resolves_pressTabRandomly 18).
    run_say. run (resolves_typeText title_text).
    run_say. run (resolves_pressTabRandomly 2).
    run_say. run (resolves_typeText body_text).
    run_say. run (resolves_pressTabRandomly 4).
    run_say. run resolves_pressEnter. run_say. run resolves_sleep. run_say.
    eapply resolves_and_then; [eapply resolves_takeScreenshot; eassumption|].
    intros ? ? (shot & ? & w' & Hw'). rewrite Hshot2 in Hw'. injection Hw' as <-.
    eapply resolves_and_then.
    { eapply (resolves_compare final (replace_colons isoFinal) base2 shot2 s2);
        [eassumption|solve_lookup|solve_lookup|assumption|assumption]. }
    intros ? ? ?; cbn beta in *.
    run_say. apply resolves_finish. split; [reflexivity|]. eassumption.
  - exists m'. auto.
Qed.

(** X21.  On a responsive shell, when the final screenshot is less than 90
    percent similar to the final baseline, [main] resolves with the
    failure report of that comparison although the whole posting
    sequence, the Return key that submits the post included, has been
    issued by then. *)
Theorem final_mismatch_is_reported_after_submitting
    (m : Machine) (base shot : Buffer) (s : float) :
  (forall w out w', shell paste_command w = (inr out, w') ->
     includes (toLowerCase (stdout out)) "log in" = false) ->
  files (world m) !! baseline_path initial = None ->
  files (world m) !! baseline_path final = Some base ->
  (forall w,
     files (shell (import_command (screenshot_file final (replace_colons isoFinal))) w).2
       !! screenshot_file final (replace_colons isoFinal) = Some shot) ->
  similarity_between PNG_sync_read pixelmatch base shot = Some s ->
  (90 <=? s)%float = false ->
  exists m',
    the_main m = (inr (failure_report stack (comparison_failed final)), m') /\
    files (world m') !! baseline_path final = Some base /\
    is_Some (files (world m') !! baseline_path initial) /\
    issued m' = issued m ++ posting_commands isoInitial isoFinal ++ closing_commands.
Proof.
  intros Hlogin Hb1 Hb2 Hshot Hsim Hfail.
  assert (Hrun : rejects the_try m (fun e m1 => exists shot1,
    e = comparison_failed final /\
    reaches m
      (<[screenshot_file final (replace_colons isoFinal) := shot]>
         (<[baseline_path initial := shot1]>
            (<[screenshot_file initial (replace_colons isoInitial) := shot1]>
               (files (world m)))))
      (posting_commands isoInitial isoFinal) m1)).
  { pose proof (reaches_start m) as H0. unfold main_try.
    fail_say. fail_say. fail_after resolves_mkdir. fail_after resolves_openChrome. fail_say.
    fail_after resolves_sleep. fail_after_check false Hlogin. fail_say.
    eapply rejects_and_then; [eapply resolves_takeScreenshot; eassumption|].
    intros ? ? (shot1 & ? & _).
    eapply rejects_and_then.
    { eapply (resolves_establish initial (replace_colons isoInitial) shot1);
        [eassumption|solve_lookup|solve_lookup]. }
    intros ? ? ?; cbn beta in *.
    fail_after resolves_focus. fail_say. fail_after (resolves_pressTabRandomly 18).
    fail_say. fail_after (resolves_typeText title_text).
    fail_say. fail_after (resolves_pressTabRandomly 2).
    fail_say. fail_after (resolves_typeText body_text).
    fail_say. fail_after (resolves_pressTabRandomly 4).
    fail_say. fail_after resolves_pressEnter. fail_say. fail_after resolves_sleep. fail_say.
    eapply rejects_and_then; [eapply resolves_takeScreenshot; eassumption|].
    intros ? ? (shot2 & ? & w & Hw). rewrite Hshot in Hw. injection Hw as <-.
    apply rejects_at_once.
    destruct (rejects_compare final (replace_colons isoFinal) base shot s _ _ _ _
                ltac:(eassumption) ltac:(solve_lookup) ltac:(solve_lookup) Hsim Hfail)
      as (e & m' & E & -> & H').
    exists (comparison_failed final), m'. split; [exact E|]. exists shot1. split; [reflexivity|].
    exact H'. }
  destruct Hrun as (e & m1 & E & shot1 & -> & H).
  destruct (main_after_rejected m (comparison_failed final) _ _
              (ex_intro _ _ (ex_intro _ m1 (conj E (conj eq_refl H)))))
    as (m' & E' & Hf & Hi).
  exists m'. split; [exact E'|]. rewrite Hf. split; [solve_lookup|].
  split; [|exact Hi]. exists shot1. solve_lookup.
Qed.

(** *** The other three scripts on a responsive shell *)

Lemma resolves_plain_pressEnter (m0 m : Machine) fs l :
  reaches m0 fs l m ->
  resolves (Plain.pressEnter shell) m
    (fun _ m' => reaches m0 fs (l ++ [return_command]) m').
Proof.
  intros H. unfold Plain.pressEnter. run_exec. apply resolves_finish. assumption.
Qed.

Lemma resolves_plain_typeText (text : string) (m0 m : Machine) fs l :
  reaches m0 fs l m ->
  resolves (Plain.typeText shell text) m
    (fun _ m' => reaches m0 fs (l ++ [type_command text]) m').
Proof.
  intros H. unfold Plain.typeText.
  eapply resolves_and_then.
  - eapply (resolves_exec (type_command text)); [|eassumption].
    intros p Hp. apply (f_equal (fun s => String.get 0 s)) in Hp. discriminate Hp.
  - intros out m2 [H2 _]. apply resolves_finish. exact H2.
Qed.

Lemma resolves_plain_pressTabRandomly (times : nat) (m0 m : Machine) fs l :
  reaches m0 fs l m ->
  resolves (Plain.pressTabRandomly shell Math_random times) m
    (fun _ m' => reaches m0 fs (l ++ replicate times tab_command) m').
Proof. exact (resolves_press_tabs times m0 fs l m). Qed.

Lemma resolves_pressCtrlF (m0 m : Machine) fs l :
  reaches m0 fs l m ->
  resolves (Upvote.pressCtrlF shell) m
    (fun _ m' => reaches m0 fs (l ++ [focus_command; "xdotool key ctrl+f"]) m').
Proof.
  intros H. unfold Upvote.pressCtrlF. run_say. run resolves_focus. run_exec.
  eapply resolves_say.
  eapply reaches_commands; [eassumption|]. rewrite <- app_assoc. reflexivity.
Qed.

Lemma resolves_pressCtrlA (m0 m : Machine) fs l :
  reaches m0 fs l m ->
  resolves (IgMessage.pressCtrlA shell) m
    (fun _ m' => reaches m0 fs (l ++ [focus_command; "xdotool key ctrl+a"]) m').
Proof.
  intros H. unfold IgMessage.pressCtrlA. run_say. run resolves_focus. run_exec.
  eapply resolves_say.
  eapply reaches_commands; [eassumption|]. rewrite <- app_assoc. reflexivity.
Qed.

Lemma resolves_press_shift_tabs (times : nat) (m0 : Machine) fs :
  forall l m, reaches m0 fs l m ->
  resolves (Upvote.press_shift_tabs shell Math_random times) m
    (fun _ m' => reaches m0 fs (l ++ replicate times "xdotool key shift+Tab") m').
Proof.
  induction times as [|n IH]; intros l m H; cbn [Upvote.press_shift_tabs replicate].
  - apply resolves_finish. rewrite app_nil_r. exact H.
  - run_exec. run resolves_sleep.
    eapply IH in H2. destruct H2 as (u & m' & E & H').
    exists u, m'. split; [exact E|].
    eapply reaches_commands; [exact H'|]. rewrite <- app_assoc. reflexivity.
Qed.

Lemma resolves_pressShiftTab (times : nat) (m0 m : Machine) fs l :
  reaches m0 fs l m ->
  resolves (Upvote.pressShiftTab shell Math_random times) m
    (fun _ m' =>
       reaches m0 fs (l ++ focus_command :: replicate times "xdotool key shift+Tab") m').
Proof.
  intros H. unfold Upvote.pressShiftTab. run_say. run resolves_focus.
  run (resolves_press_shift_tabs times). eapply resolves_say.
  eapply reaches_commands; [eassumption|]. rewrite <- app_assoc. reflexivity.
Qed.

Lemma resolves_plain_finally (m0 m : Machine) fs l :
  reaches m0 fs l m ->
  resolves (Plain.main_finally shell) m
    (fun _ m' => reaches m0 fs (l ++ [close_command]) m').
Proof.
  intros H. unfold Plain.main_finally. run_say. run_exec.
  eapply resolves_say. eassumption.
Qed.

(** A [try] block that resolves, between the [catch] block of [main] and
    a [finally] block that resolves. *)
Lemma guarded_after_resolved (body : Script Report) (finalizer : Script unit)
    (closing : list string) (m : Machine) (r : Report) fs l :
  (forall m1, reaches m fs l m1 ->
     resolves finalizer m1 (fun _ m' => reaches m fs (l ++ closing) m')) ->
  resolves body m (fun r' m1 => r' = r /\ reaches m fs l m1) ->
  exists m',
    try_finally (try_catch body (main_catch stack)) finalizer m = (inr r, m') /\
    reaches m fs (l ++ closing) m'.
Proof.
  intros Hfin (r' & m1 & E & -> & H). unfold try_finally, try_catch. rewrite E.
  cbn [fst snd].
  destruct (Hfin m1 H) as ([] & m' & -> & H').
  exists m'. split; [reflexivity|exact H'].
Qed.

Ltac run_shot shot :=
  eapply resolves_and_then; [eapply resolves_takeScreenshot; eassumption|];
  intros ? ? (shot & ? & _).

(** X26.  On a responsive shell the upvote script resolves with its
    success report after its whole sequence and the two closing
    commands; its two screenshots are the only files that have changed,
    so it never creates a baseline. *)
Theorem upvote_run_on_responsive_shell (m : Machine) :
  exists m' shot1 shot2,
    upvote_main m = (inr (Upvote.success_report isoInitial isoFinal isoReport), m') /\
    files (world m') =
      <[("screenshots/" +:+ Upvote.screenshotNameFinal (replace_colons isoFinal)) := shot2]>
        (<[("screenshots/" +:+ Upvote.screenshotNameInitial (replace_colons isoInitial))
             := shot1]> (files (world m))) /\
    issued m' = issued m ++ upvote_commands isoInitial isoFinal ++ closing_commands.
Proof.
  assert (Hrun : resolves upvote_try m (fun r m1 => exists shot1 shot2,
    r = Upvote.success_report isoInitial isoFinal isoReport /\
    reaches m
      (<[("screenshots/" +:+ Upvote.screenshotNameFinal (replace_colons isoFinal)) := shot2]>
        (<[("screenshots/" +:+ Upvote.screenshotNameInitial (replace_colons isoInitial))
             := shot1]> (files (world m))))
      (upvote_commands isoInitial isoFinal) m1)).
  { pose proof (reaches_start m) as H0. unfold Upvote.main_try.
    run_say. run resolves_mkdir. run_say. run_say. run_exec. run_say. run resolves_sleep.
    run_shot shot1. run_say. run resolves_pressCtrlF. run resolves_sleep.
    run (resolves_plain_typeText "reply"). run_exec. run_say.
    run (resolves_pressShiftTab 2). run_say. run resolves_plain_pressEnter.
    run_say. run resolves_sleep. run_say. run_shot shot2.
    run_say. apply resolves_finish. exists shot1, shot2. split; [reflexivity|].
    eassumption. }
  destruct Hrun as (r & m1 & E & shot1 & shot2 & -> & H).
  destruct (guarded_after_resolved upvote_try (main_finally shell) closing_commands m _ _ _
              (fun m1 => resolves_main_finally m m1 _ _)
              (ex_intro _ _ (ex_intro _ m1 (conj E (conj eq_refl H)))))
    as (m' & E' & Hf & Hi).
  exists m', shot1, shot2. split; [exact E'|]. split; [exact Hf|exact Hi].
Qed.

(** X27.  On a responsive shell the message script resolves with its
    success report after its whole sequence and the closing command; its
    two screenshots are the only files that have changed. *)
Theorem message_run_on_responsive_shell (m : Machine) :
  exists m' shot1 shot2,
    message_main m = (inr (IgMessage.success_report isoInitial isoFinal isoReport), m') /\
    files (world m') =
      <[("screenshots/" +:+ IgMessage.screenshotNameFinal (replace_colons isoFinal)) := shot2]>
        (<[("screenshots/" +:+ IgMessage.screenshotNameInitial (replace_colons isoInitial))
             := shot1]> (files (world m))) /\
    issued m' = issued m ++ message_commands isoInitial isoFinal ++ [close_command].
Proof.
  assert (Hrun : resolves message_try m (fun r m1 => exists shot1 shot2,
    r = IgMessage.success_report isoInitial isoFinal isoReport /\
    reaches m
      (<[("screenshots/" +:+ IgMessage.screenshotNameFinal (replace_colons isoFinal)) := shot2]>
        (<[("screenshots/" +:+ IgMessage.screenshotNameInitial (replace_colons isoInitial))
             := shot1]> (files (world m))))
      (message_commands isoInitial isoFinal) m1)).
  { pose proof (reaches_start m) as H0. unfold IgMessage.main_try.
    run_say. run resolves_mkdir. run_say. run_say. run_exec. run_say. run resolves_sleep.
    run_shot shot1. run_say. run (resolves_plain_pressTabRandomly 25).
    run_say. run resolves_plain_pressEnter. run resolves_sleep.
    run_say. run resolves_pressCtrlA.
    run_say. run (resolves_plain_typeText "This is a test message!").
    run_say. run (resolves_plain_pressTabRandomly 6).
    run_say. run resolves_plain_pressEnter.
    run_say. run resolves_sleep. run_say. run_shot shot2.
    run_say. apply resolves_finish. exists shot1, shot2. split; [reflexivity|].
    eassumption. }
  destruct Hrun as (r & m1 & E & shot1 & shot2 & -> & H).
  destruct (guarded_after_resolved message_try (Plain.main_finally shell) [close_command] m
              _ _ _ (fun m1 => resolves_plain_finally m m1 _ _)
              (ex_intro _ _ (ex_intro _ m1 (conj E (conj eq_refl H)))))
    as (m' & E' & Hf & Hi).
  exists m', shot1, shot2. split; [exact E'|]. split; [exact Hf|exact Hi].
Qed.

(** X28.  On a responsive shell the login script resolves with its success
    report after its whole sequence and the closing command; its two
    screenshots, named as those of the post-submission script, are the
    only files that have changed. *)
Theorem login_run_on_responsive_shell (m : Machine) :
  exists m' shot1 shot2,
    login_main m = (inr (Login.success_report isoInitial isoFinal isoReport), m') /\
    files (world m') =
      <[screenshot_file final (replace_colons isoFinal) := shot2]>
        (<[screenshot_file initial (replace_colons isoInitial) := shot1]>
           (files (world m))) /\
    issued m' = issued m ++ login_commands isoInitial isoFinal ++ [close_command].
Proof.
  assert (Hrun : resolves login_try m (fun r m1 => exists shot1 shot2,
    r = Login.success_report isoInitial isoFinal isoReport /\
    reaches m
      (<[screenshot_file final (replace_colons isoFinal) := shot2]>
        (<[screenshot_file initial (replace_colons isoInitial) := shot1]>
           (files (world m))))
      (login_commands isoInitial isoFinal) m1)).
  { pose proof (reaches_start m) as H0. unfold Login.main_try.
    run_say. run resolves_mkdir. run_say. run_say. run_exec. run_say. run resolves_sleep.
    run_shot shot1. run_say. run (resolves_plain_pressTabRandomly 2).
    run_say. run (resolves_plain_typeText "TYPEINYOURUSERNAME").
    run_say. run (resolves_plain_pressTabRandomly 1).
    run_say. run (resolves_plain_typeText "TYPEINYOURPASSWORD").
    run_say. run (resolves_plain_pressTabRandomly 1).
    run_say. run resolves_plain_pressEnter.
    run_say. run resolves_sleep. run_say. run_shot shot2.
    run_say. apply resolves_finish. exists shot1, shot2. split; [reflexivity|].
    eassumption. }
  destruct Hrun as (r & m1 & E & shot1 & shot2 & -> & H).
  destruct (guarded_after_resolved login_try (Plain.main_finally shell) [close_command] m
              _ _ _ (fun m1 => resolves_plain_finally m m1 _ _)
              (ex_intro _ _ (ex_intro _ m1 (conj E (conj eq_refl H)))))
    as (m' & E' & Hf & Hi).
  exists m', shot1, shot2. split; [exact E'|]. split; [exact Hf|exact Hi].
Qed.

End Responsive.

End ScriptFacts.

(** ** The installer *)

Section Installer.

Variable shell : string -> Async ExecOutput.
Local Open Scope script_scope.





End Installer.

(** ** The reference desktop *)

Lemma strip_prefix_append (p r : string) : strip_prefix p (p +:+ r) = Some r.
Proof.
  induction p as [|a p IH]; [reflexivity|].
  change (String a p +:+ r) with (String a (p +:+ r)). cbn [strip_prefix].
  rewrite Ascii.eqb_refl. exact IH.
Qed.

Lemma strip_prefix_Some (p s r : string) : strip_prefix p s = Some r -> s = p +:+ r.
Proof.
  revert s. induction p as [|a p IH]; intros s; cbn [strip_prefix].
  - intros [= ->]. reflexivity.
  - destruct s as [|b s]; [discriminate|].
    destruct (Ascii.eqb a b) eqn:E; [|discriminate].
    apply Ascii.eqb_eq in E. subst b. intros H.
    change (String a p +:+ r) with (String a (p +:+ r)). f_equal. exact (IH s H).
Qed.

Lemma shell_model_import (screen : Buffer) (page path : string) (w : World) :
  shell_model screen page (import_command path) w =
  (inr (mkExecOutput EmptyString EmptyString),
   mkWorld (<[path := screen]> (files w)) (console w)).
Proof.
  unfold shell_model, import_command. rewrite strip_prefix_append. reflexivity.
Qed.

Lemma shell_model_responsive (screen : Buffer) (page : string) :
  responsive (shell_model screen page).
Proof.
  split.
  - intros command w. unfold shell_model.
    destruct (strip_prefix _ command); [eauto|].
    destruct (String.eqb command _); eauto.
  - intros command w Hc. unfold shell_model.
    destruct (strip_prefix _ command) as [path|] eqn:E.
    + exfalso. exact (Hc path (strip_prefix_Some _ _ _ E)).
    + destruct (String.eqb command _); reflexivity.
  - intros path w. exists screen. rewrite shell_model_import. reflexivity.
Qed.

Lemma shell_model_page (screen : Buffer) (page : string) (w w' : World) (out : ExecOutput) :
  shell_model screen page paste_command w = (inr out, w') -> stdout out = page.
Proof. intros [= <- _]. reflexivity. Qed.

Lemma shell_model_screen (screen : Buffer) (page path : string) (w : World) :
  files (shell_model screen page (import_command path) w).2 !! path = Some screen.
Proof. rewrite shell_model_import. apply lookup_insert_eq. Qed.

(** *** The theorems at concrete inputs *)

Lemma randomDelay_range_witness :
  (0.5 <=? randomDelay 0.25)%float = true /\ (randomDelay 0.25 <=? 1.5)%float = true.
Proof. apply (randomDelay_range 0.25); reflexivity. Defined.

Lemma key_delay_ms_range_witness :
  (500 <=? key_delay_ms 0.25)%float = true /\ (key_delay_ms 0.25 <=? 1500)%float = true.
Proof. apply (key_delay_ms_range 0.25); reflexivity. Defined.

Lemma page_delay_ms_range_witness :
  (7000 <=? page_delay_ms 0.25)%float = true /\ (page_delay_ms 0.25 <=? 10000)%float = true.
Proof. apply (page_delay_ms_range 0.25); reflexivity. Defined.

Lemma other_waits_ranges_witness :
  ((5000 <=? settle_delay_ms 0.25)%float = true /\
   (settle_delay_ms 0.25 <=? 10000)%float = true) /\
  ((10000 <=? redirect_delay_ms 0.25)%float = true /\
   (redirect_delay_ms 0.25 <=? 15000)%float = true) /\
  ((0 <=? draft_delay_ms 0.25)%float = true /\
   (draft_delay_ms 0.25 <=? 2999.9999999999995)%float = true).
Proof. apply (other_waits_ranges 0.25); reflexivity. Defined.

Lemma existing_baseline_is_never_replaced_witness :
  files (main_baseline_model initial ts0
           (world_of (Some (encode x02 x02 white_2x2)) (encode x02 x02 one_black_2x2))).2 =
  files (world_of (Some (encode x02 x02 white_2x2)) (encode x02 x02 one_black_2x2)) /\
  ((main_baseline_model initial ts0
      (world_of (Some (encode x02 x02 white_2x2)) (encode x02 x02 one_black_2x2))).1 = inr tt <->
   exists s,
     compare_outcome PNG_sync_read_model pixelmatch_model
       (world_of (Some (encode x02 x02 white_2x2)) (encode x02 x02 one_black_2x2))
       (baseline_name initial) (compared_name initial ts0) = inr s /\
     (90 <=? s)%float = true).
Proof.
  apply (existing_baseline_is_never_replaced PNG_sync_read_model pixelmatch_model).
  exists (encode x02 x02 white_2x2). vm_compute; reflexivity.
Defined.

Lemma corrupt_first_screenshot_becomes_baseline_witness :
  exists w1 : World,
    main_baseline_model initial ts0 (world_of None [x89; x50; x4e; x47]%byte) = (inr tt, w1) /\
    files w1 !! baseline_path initial = Some [x89; x50; x4e; x47]%byte /\
    forall (ts' : string) (w2 : World),
      files w2 !! baseline_path initial = Some [x89; x50; x4e; x47]%byte ->
      is_Some (files w2 !! screenshot_file initial ts') ->
      (main_baseline_model initial ts' w2).1 =
      inl (mkError "unrecognised content at end of stream").
Proof.
  apply (corrupt_first_screenshot_becomes_baseline PNG_sync_read_model pixelmatch_model
           initial ts0 (world_of None [x89; x50; x4e; x47]%byte));
    vm_compute; reflexivity.
Defined.

Lemma missing_screenshot_creates_no_baseline_witness :
  main_baseline_model final ts0 (empty_console ∅) =
  (inl (ENOENT (screenshot_file final ts0)), empty_console ∅).
Proof.
  apply (missing_screenshot_creates_no_baseline PNG_sync_read_model pixelmatch_model);
    vm_compute; reflexivity.
Defined.

Lemma success_report_after_whole_sequence_witness :
  issued (main_model white_2x2 "Welcome to Reddit" (fresh ∅)).2 =
  issued (fresh ∅) ++ posting_commands iso1 iso2 ++ closing_commands.
Proof.
  apply (success_report_after_whole_sequence PNG_sync_read_model pixelmatch_model
           (shell_model white_2x2 "Welcome to Reddit") toLowerCase_model "/home/user"
           no_stack 0.5%float iso1 iso2 iso3 (fresh ∅) (success_report iso1 iso2 iso3));
    vm_compute; reflexivity.
Defined.

Lemma login_report_after_opening_only_witness :
  issued (main_model white_2x2 "Please Log In to continue" (fresh ∅)).2 =
  issued (fresh ∅) ++ opening_commands ++ closing_commands.
Proof.
  apply (login_report_after_opening_only PNG_sync_read_model pixelmatch_model
           (shell_model white_2x2 "Please Log In to continue") toLowerCase_model "/home/user"
           no_stack 0.5%float iso1 iso2 iso3 (fresh ∅));
    vm_compute; reflexivity.
Defined.

Lemma login_page_stops_the_run_witness :
  exists m',
    main_model white_2x2 "Please Log In to continue" (fresh ∅) =
      (inr login_required_report, m') /\
    files (world m') = files (world (fresh ∅)) /\
    issued m' = issued (fresh ∅) ++ opening_commands ++ closing_commands.
Proof.
  apply (login_page_stops_the_run PNG_sync_read_model pixelmatch_model
           (shell_model white_2x2 "Please Log In to continue") toLowerCase_model "/home/user"
           no_stack 0.5%float iso1 iso2 iso3 (shell_model_responsive _ _) (fresh ∅)).
  intros w out w' H. rewrite (shell_model_page _ _ _ _ _ H). vm_compute; reflexivity.
Defined.

Lemma first_run_establishes_both_baselines_witness :
  exists m' shot1 shot2,
    main_model (encode x02 x02 white_2x2) "Welcome to Reddit" (fresh ∅) =
      (inr (success_report iso1 iso2 iso3), m') /\
    files (world m') =
      <[baseline_path final := shot2]>
        (<[screenshot_file final (replace_colons iso2) := shot2]>
           (<[baseline_path initial := shot1]>
              (<[screenshot_file initial (replace_colons iso1) := shot1]>
                 (files (world (fresh ∅)))))) /\
    issued m' = issued (fresh ∅) ++ posting_commands iso1 iso2 ++ closing_commands.
Proof.
  apply (first_run_establishes_both_baselines PNG_sync_read_model pixelmatch_model
           (shell_model (encode x02 x02 white_2x2) "Welcome to Reddit") toLowerCase_model
           "/home/user" no_stack 0.5%float iso1 iso2 iso3 (shell_model_responsive _ _)
           (fresh ∅)).
  - intros w out w' H. rewrite (shell_model_page _ _ _ _ _ H). vm_compute; reflexivity.
  - vm_compute; reflexivity.
  - vm_compute; reflexivity.
Defined.

Lemma initial_mismatch_stops_before_any_key_witness :
  exists m',
    main_model (encode x02 x02 one_black_2x2) "Welcome to Reddit"
      (fresh (<[baseline_path initial := encode x02 x02 white_2x2]> ∅)) =
      (inr (failure_report no_stack (comparison_failed initial)), m') /\
    files (world m') =
      <[screenshot_file initial (replace_colons iso1) := encode x02 x02 one_black_2x2]>
        (files (world (fresh (<[baseline_path initial := encode x02 x02 white_2x2]> ∅)))) /\
    issued m' =
      issued (fresh (<[baseline_path initial := encode x02 x02 white_2x2]> ∅)) ++
      opening_commands ++
      [import_command (screenshot_file initial (replace_colons iso1))] ++ closing_commands.
Proof.
  apply (initial_mismatch_stops_before_any_key PNG_sync_read_model pixelmatch_model
           (shell_model (encode x02 x02 one_black_2x2) "Welcome to Reddit") toLowerCase_model
           "/home/user" no_stack 0.5%float iso1 iso2 iso3 (shell_model_responsive _ _)
           (fresh (<[baseline_path initial := encode x02 x02 white_2x2]> ∅))
           (encode x02 x02 white_2x2) (encode x02 x02 one_black_2x2) 75%float).
  - intros w out w' H. rewrite (shell_model_page _ _ _ _ _ H). vm_compute; reflexivity.
  - vm_compute; reflexivity.
  - intros w. apply shell_model_screen.
  - vm_compute; reflexivity.
  - vm_compute; reflexivity.
Defined.

Lemma matching_run_keeps_the_baselines_witness :
  exists m',
    main_model (encode x02 x02 white_2x2) "Welcome to Reddit"
      (fresh (<[baseline_path final := encode x02 x02 white_2x2]>
                (<[baseline_path initial := encode x02 x02 white_2x2]> ∅))) =
      (inr (success_report iso1 iso2 iso3), m') /\
    files (world m') =
      <[screenshot_file final (replace_colons iso2) := encode x02 x02 white_2x2]>
        (<[screenshot_file initial (replace_colons iso1) := encode x02 x02 white_2x2]>
           (files (world (fresh (<[baseline_path final := encode x02 x02 white_2x2]>
                                   (<[baseline_path initial := encode x02 x02 white_2x2]> ∅)))))) /\
    issued m' =
      issued (fresh (<[baseline_path final := encode x02 x02 white_2x2]>
                       (<[baseline_path initial := encode x02 x02 white_2x2]> ∅))) ++
      posting_commands iso1 iso2 ++ closing_commands.
Proof.
  apply (matching_run_keeps_the_baselines PNG_sync_read_model pixelmatch_model
           (shell_model (encode x02 x02 white_2x2) "Welcome to Reddit") toLowerCase_model
           "/home/user" no_stack 0.5%float iso1 iso2 iso3 (shell_model_responsive _ _)
           (fresh (<[baseline_path final := encode x02 x02 white_2x2]>
                     (<[baseline_path initial := encode x02 x02 white_2x2]> ∅)))
           (encode x02 x02 white_2x2) (encode x02 x02 white_2x2)
           (encode x02 x02 white_2x2) (encode x02 x02 white_2x2) 100%float 100%float).
  - intros w out w' H. rewrite (shell_model_page _ _ _ _ _ H). vm_compute; reflexivity.
  - vm_compute; reflexivity.
  - vm_compute; reflexivity.
  - intros w. apply shell_model_screen.
  - intros w. apply shell_model_screen.
  - vm_compute; reflexivity.
  - vm_compute; reflexivity.
  - vm_compute; reflexivity.
  - vm_compute; reflexivity.
Defined.

Lemma final_mismatch_is_reported_after_submitting_witness :
  exists m',
    main_model (encode x02 x02 one_black_2x2) "Welcome to Reddit"
      (fresh (<[baseline_path final := encode x02 x02 white_2x2]> ∅)) =
      (inr (failure_report no_stack (comparison_failed final)), m') /\
    files (world m') !! baseline_path final = Some (encode x02 x02 white_2x2) /\
    is_Some (files (world m') !! baseline_path initial) /\
    issued m' =
      issued (fresh (<[baseline_path final := encode x02 x02 white_2x2]> ∅)) ++
      posting_commands iso1 iso2 ++ closing_commands.
Proof.
  apply (final_mismatch_is_reported_after_submitting PNG_sync_read_model pixelmatch_model
           (shell_model (encode x02 x02 one_black_2x2) "Welcome to Reddit") toLowerCase_model
           "/home/user" no_stack 0.5%float iso1 iso2 iso3 (shell_model_responsive _ _)
           (fresh (<[baseline_path final := encode x02 x02 white_2x2]> ∅))
           (encode x02 x02 white_2x2) (encode x02 x02 one_black_2x2) 75%float).
  - intros w out w' H. rewrite (shell_model_page _ _ _ _ _ H). vm_compute; reflexivity.
  - vm_compute; reflexivity.
  - vm_compute; reflexivity.
  - intros w. apply shell_model_screen.
  - vm_compute; reflexivity.
  - vm_compute; reflexivity.
Defined.

Lemma upvote_run_on_responsive_shell_witness :
  exists m' shot1 shot2,
    Upvote.main (shell_model white_2x2 "Reddit") "/home/user" no_stack 0.5%float
      iso1 iso2 iso3 (fresh ∅) =
      (inr (Upvote.success_report iso1 iso2 iso3), m') /\
    files (world m') =
      <[("screenshots/" +:+ Upvote.screenshotNameFinal (replace_colons iso2)) := shot2]>
        (<[("screenshots/" +:+ Upvote.screenshotNameInitial (replace_colons iso1))
             := shot1]> (files (world (fresh ∅)))) /\
    issued m' = issued (fresh ∅) ++ upvote_commands iso1 iso2 ++ closing_commands.
Proof.
  exact (upvote_run_on_responsive_shell (shell_model white_2x2 "Reddit") "/home/user"
           no_stack 0.5%float iso1 iso2 iso3 (shell_model_responsive _ _) (fresh ∅)).
Defined.

Lemma message_run_on_responsive_shell_witness :
  exists m' shot1 shot2,
    IgMessage.main (shell_model white_2x2 "Instagram") "/home/user" no_stack 0.5%float
      iso1 iso2 iso3 (fresh ∅) =
      (inr (IgMessage.success_report iso1 iso2 iso3), m') /\
    files (world m') =
      <[("screenshots/" +:+ IgMessage.screenshotNameFinal (replace_colons iso2)) := shot2]>
        (<[("screenshots/" +:+ IgMessage.screenshotNameInitial (replace_colons iso1))
             := shot1]> (files (world (fresh ∅)))) /\
    issued m' = issued (fresh ∅) ++ message_commands iso1 iso2 ++ [close_command].
Proof.
  exact (message_run_on_responsive_shell (shell_model white_2x2 "Instagram") "/home/user"
           no_stack 0.5%float iso1 iso2 iso3 (shell_model_responsive _ _) (fresh ∅)).
Defined.

Lemma login_run_on_responsive_shell_witness :
  exists m' shot1 shot2,
    Login.main (shell_model white_2x2 "Instagram") "/home/user" no_stack 0.5%float
      iso1 iso2 iso3 (fresh ∅) =
      (inr (Login.success_report iso1 iso2 iso3), m') /\
    files (world m') =
      <[screenshot_file final (replace_colons iso2) := shot2]>
        (<[screenshot_file initial (replace_colons iso1) := shot1]>
           (files (world (fresh ∅)))) /\
    issued m' = issued (fresh ∅) ++ login_commands iso1 iso2 ++ [close_command].
Proof.
  exact (login_run_on_responsive_shell (shell_model white_2x2 "Instagram") "/home/user"
           no_stack 0.5%float iso1 iso2 iso3 (shell_model_responsive _ _) (fresh ∅)).
Defined.
